(** * Cryptographic primitives and classical-cipher engine of the puzzle workbench

    A shallow embedding of [src/lib/web-scraper.ts] (Base58, WIF, addresses,
    private-key parsing) and [src/lib/crypto-utils.ts] (Beaufort, Vigenere,
    VIC checkerboard, AES wrapper, spiral matrix), and the properties the
    specification states about them.

    Conventions.
    - A JavaScript string is a [string], one [ascii] per character.  The
      embedding is exact on ASCII text (code units below 128), which is what
      the properties are about: there [toUpperCase], [toLowerCase], [\s] and
      [\d] act as written below.
    - A [Buffer] is a [list Z] of bytes; a JavaScript [number] that the code
      only uses as an integer is a [Z].
    - A function that may [throw] returns an [outcome]. *)

From Stdlib Require Import ZArith List String Ascii Bool Lia Permutation Sorted DecimalString.
Import ListNotations.
Open Scope string_scope.
Open Scope list_scope.
Open Scope Z_scope.

(** ** Exceptions *)

Inductive outcome (A : Type) : Type :=
| Returns (a : A)
| Throws (msg : string).
Arguments Returns {A} a.
Arguments Throws {A} msg.

Definition bind {A B : Type} (x : outcome A) (k : A -> outcome B) : outcome B :=
  match x with
  | Returns a => k a
  | Throws m => Throws m
  end.

Notation "x <- c ;; k" := (bind c (fun x => k))
  (at level 61, c at next level, right associativity).

(** ** Strings *)

Module Str.

(** [s.indexOf(c)] for a one-character needle, scanning from position [i];
    [-1] when absent. *)
Fixpoint indexOf_from (s : string) (c : ascii) (i : Z) : Z :=
  match s with
  | EmptyString => -1
  | String a rest => if Ascii.eqb a c then i else indexOf_from rest c (i + 1)
  end.

Definition indexOf (s : string) (c : ascii) : Z := indexOf_from s c 0.

(** [s[i]]: the one-character string at index [i], the empty string standing
    for [undefined] in a concatenation or a [join]. *)
Definition at_ (s : string) (i : Z) : string :=
  if i <? 0 then ""
  else match String.get (Z.to_nat i) s with
       | Some c => String c ""
       | None => ""
       end.

Definition chars (s : string) : list ascii := list_ascii_of_string s.

Definition join (l : list string) : string := String.concat "" l.

Definition code (c : ascii) : Z := Z.of_nat (nat_of_ascii c).

Definition in_range (lo hi : ascii) (c : ascii) : bool :=
  (code lo <=? code c) && (code c <=? code hi).

Definition is_upper (c : ascii) : bool := in_range "A" "Z" c.
Definition is_lower (c : ascii) : bool := in_range "a" "z" c.
Definition is_digit (c : ascii) : bool := in_range "0" "9" c.

(** A code unit below 128.  On text of such characters [toUpperCase] and
    [toLowerCase] work one character at a time and change the letters a-z
    and A-Z only, which is how they are embedded below; statements that
    depend on it carry the condition. *)
Definition is_ascii (c : ascii) : bool := code c <? 128.

(** [\s], and what [trim] strips. *)
Definition is_space (c : ascii) : bool :=
  let n := code c in ((9 <=? n) && (n <=? 13)) || (n =? 32) || (n =? 160).

(** [c.toUpperCase()] and [c.toLowerCase()] of an ASCII character. *)
Definition upper_char (c : ascii) : ascii :=
  if is_lower c then ascii_of_nat (nat_of_ascii c - 32) else c.

Definition lower_char (c : ascii) : ascii :=
  if is_upper c then ascii_of_nat (nat_of_ascii c + 32) else c.

Fixpoint map_chars (f : ascii -> ascii) (s : string) : string :=
  match s with
  | EmptyString => EmptyString
  | String c rest => String (f c) (map_chars f rest)
  end.

Definition toUpperCase (s : string) : string := map_chars upper_char s.
Definition toLowerCase (s : string) : string := map_chars lower_char s.

(** [s.replace(/[...]/g, "")] for a character class: the characters outside
    the class are kept. *)
Fixpoint strip (cls : ascii -> bool) (s : string) : string :=
  match s with
  | EmptyString => EmptyString
  | String c rest => if cls c then strip cls rest else String c (strip cls rest)
  end.

Fixpoint all_chars (cls : ascii -> bool) (s : string) : bool :=
  match s with
  | EmptyString => true
  | String c rest => cls c && all_chars cls rest
  end.

Fixpoint trimStart (s : string) : string :=
  match s with
  | String c rest => if is_space c then trimStart rest else s
  | EmptyString => EmptyString
  end.

Fixpoint trimEnd (s : string) : string :=
  match s with
  | EmptyString => EmptyString
  | String c rest =>
      match trimEnd rest with
      | EmptyString => if is_space c then EmptyString else String c EmptyString
      | r => String c r
      end
  end.

Definition trim (s : string) : string := trimEnd (trimStart s).

Fixpoint repeat_char (c : ascii) (n : nat) : string :=
  match n with
  | O => EmptyString
  | S k => String c (repeat_char c k)
  end.

(** [s.padStart(n, "0")]. *)
Definition padStart (n : nat) (c : ascii) (s : string) : string :=
  (repeat_char c (n - String.length s) ++ s)%string.

(** [s.slice(k)] for [k] within the string or beyond. *)
Fixpoint slice_from (k : nat) (s : string) : string :=
  match k, s with
  | O, _ => s
  | S k', String _ rest => slice_from k' rest
  | S _, EmptyString => EmptyString
  end.

(** [String(n)] for an integer [n]. *)
Definition ofZ (n : Z) : string := DecimalString.NilZero.string_of_int (Z.to_int n).

End Str.

(** ** Base58 (web-scraper.ts, [base58Encode] / [base58Decode]) *)

Module Base58.

Definition BASE58_ALPHABET : string :=
  "123456789ABCDEFGHJKLMNPQRSTUVWXYZabcdefghijkmnopqrstuvwxyz".

(** The [for (let i = 0; i < digits.length; i++)] loop of [base58Encode]:
    returns the updated digits and the carry left over. *)
Fixpoint encode_digits (digits : list Z) (carry : Z) : list Z * Z :=
  match digits with
  | [] => ([], carry)
  | d :: ds =>
      let c := carry + d * 256 in
      let (ds', c') := encode_digits ds (c / 58) in
      (c mod 58 :: ds', c')
  end.

(** [while (carry > 0) { digits.push(carry % 58); carry = floor(carry / 58) }]:
    the digits pushed.  [carry] itself bounds the number of rounds. *)
Fixpoint encode_push (fuel : nat) (carry : Z) : list Z :=
  match fuel with
  | O => []
  | S f => if 0 <? carry then carry mod 58 :: encode_push f (carry / 58) else []
  end.

Definition encode_byte (digits : list Z) (byte : Z) : list Z :=
  let (ds, c) := encode_digits digits byte in
  ds ++ encode_push (Z.to_nat c) c.

(** The second loop: one [0] pushed per leading zero byte. *)
Fixpoint leading_zero_bytes (buffer : list Z) : list Z :=
  match buffer with
  | b :: rest => if b =? 0 then 0 :: leading_zero_bytes rest else []
  | [] => []
  end.

Definition base58Encode (buffer : list Z) : string :=
  let digits := fold_left encode_byte buffer [0] in
  let digits := digits ++ leading_zero_bytes buffer in
  Str.join (map (Str.at_ BASE58_ALPHABET) (rev digits)).

(** The tail of the inner loop of [base58Decode] once a byte has been pushed:
    the loop bound [bytes.length] has grown, so the pushed byte [v] is visited
    in the same pass, and may push again. *)
Fixpoint decode_pushed (fuel : nat) (carry v : Z) : list Z :=
  match fuel with
  | O => [v]
  | S f =>
      let n := v * 58 + carry in
      if n >=? 256 then n mod 256 :: decode_pushed f carry (n / 256)
      else [n mod 256]
  end.

(** The inner loop of [base58Decode] for one character.  [add] is what the
    previous index added to [bytes[i]] before it is read; [carry] is the
    character's alphabet index and is the same at every index. *)
Fixpoint decode_bytes (carry add : Z) (bytes : list Z) : list Z :=
  match bytes with
  | [] => []
  | b :: rest =>
      let n := (b + add) * 58 + carry in
      match rest with
      | [] =>
          if n >=? 256
          then n mod 256 :: decode_pushed (S (Z.to_nat (n / 256))) carry (n / 256)
          else [n mod 256]
      | _ :: _ =>
          n mod 256 :: decode_bytes carry (if n >=? 256 then n / 256 else 0) rest
      end
  end.

Fixpoint decode_chars (cs : list ascii) (bytes : list Z) : outcome (list Z) :=
  match cs with
  | [] => Returns bytes
  | c :: rest =>
      let carry := Str.indexOf BASE58_ALPHABET c in
      if carry =? -1
      then Throws ("Invalid Base58 character: " ++ String c "")%string
      else decode_chars rest (decode_bytes carry 0 bytes)
  end.

(** One [0] pushed per leading ['1']. *)
Fixpoint leading_ones (cs : list ascii) : list Z :=
  match cs with
  | c :: rest => if Ascii.eqb c "1"%char then 0 :: leading_ones rest else []
  | [] => []
  end.

(** [Buffer.from(array)] keeps each entry modulo 256. *)
Definition Buffer_from (l : list Z) : list Z := map (fun b => b mod 256) l.

Definition base58Decode (str : string) : outcome (list Z) :=
  bytes <- decode_chars (Str.chars str) [0] ;;
  Returns (Buffer_from (rev (bytes ++ leading_ones (Str.chars str)))).

End Base58.

(** ** Byte and word helpers *)

Module Bytes.

(** Big-endian bytes of a [len]-byte unsigned integer. *)
Fixpoint be_bytes (len : nat) (x : Z) : list Z :=
  match len with
  | O => []
  | S k => (x / 256 ^ Z.of_nat k) mod 256 :: be_bytes k x
  end.

Fixpoint le_bytes (len : nat) (x : Z) : list Z :=
  match len with
  | O => []
  | S k => x mod 256 :: le_bytes k (x / 256)
  end.

Definition be_value (bs : list Z) : Z := fold_left (fun acc b => acc * 256 + b) bs 0.

Definition le_value (bs : list Z) : Z := fold_right (fun b acc => b + 256 * acc) 0 bs.

(** Cut a list into consecutive groups of [n] entries ([n] > 0); [fuel]
    bounds the number of groups and the length of the list is enough. *)
Fixpoint chunks_fuel {A} (fuel : nat) (n : nat) (l : list A) : list (list A) :=
  match fuel, l with
  | O, _ => []
  | _, [] => []
  | S f, _ => firstn n l :: chunks_fuel f n (skipn n l)
  end.

Definition chunks {A} (n : nat) (l : list A) : list (list A) :=
  chunks_fuel (List.length l) n l.

(** [buf.subarray(start, end)] with both indices already normalised. *)
Definition subarray {A} (l : list A) (start stop : nat) : list A :=
  firstn (stop - start) (skipn start l).

Definition w32 (x : Z) : Z := x mod 4294967296.

Definition rotr32 (n x : Z) : Z := Z.lor (Z.shiftr x n) (w32 (Z.shiftl x (32 - n))).

Definition rotl32 (n x : Z) : Z := Z.lor (w32 (Z.shiftl x n)) (Z.shiftr x (32 - n)).

Definition not32 (x : Z) : Z := 4294967295 - x.

End Bytes.

(** ** SHA-256 (FIPS 180-4): what [crypto.createHash("sha256")] computes *)

Module Sha256.
Import Bytes.

Definition K : list Z :=
  [1116352408; 1899447441; 3049323471; 3921009573; 961987163; 1508970993;
   2453635748; 2870763221; 3624381080; 310598401; 607225278; 1426881987;
   1925078388; 2162078206; 2614888103; 3248222580; 3835390401; 4022224774;
   264347078; 604807628; 770255983; 1249150122; 1555081692; 1996064986;
   2554220882; 2821834349; 2952996808; 3210313671; 3336571891; 3584528711;
   113926993; 338241895; 666307205; 773529912; 1294757372; 1396182291;
   1695183700; 1986661051; 2177026350; 2456956037; 2730485921; 2820302411;
   3259730800; 3345764771; 3516065817; 3600352804; 4094571909; 275423344;
   430227734; 506948616; 659060556; 883997877; 958139571; 1322822218;
   1537002063; 1747873779; 1955562222; 2024104815; 2227730452; 2361852424;
   2428436474; 2756734187; 3204031479; 3329325298].

Definition Ch (x y z : Z) : Z := Z.lxor (Z.land x y) (Z.land (not32 x) z).
Definition Maj (x y z : Z) : Z :=
  Z.lxor (Z.lxor (Z.land x y) (Z.land x z)) (Z.land y z).
Definition Sigma0 (x : Z) : Z := Z.lxor (Z.lxor (rotr32 2 x) (rotr32 13 x)) (rotr32 22 x).
Definition Sigma1 (x : Z) : Z := Z.lxor (Z.lxor (rotr32 6 x) (rotr32 11 x)) (rotr32 25 x).
Definition sigma0 (x : Z) : Z := Z.lxor (Z.lxor (rotr32 7 x) (rotr32 18 x)) (Z.shiftr x 3).
Definition sigma1 (x : Z) : Z := Z.lxor (Z.lxor (rotr32 17 x) (rotr32 19 x)) (Z.shiftr x 10).

(** The message: the bytes, [0x80], zeros up to 56 modulo 64, and the bit
    length on 8 bytes, big-endian. *)
Definition pad (msg : list Z) : list Z :=
  let len := Z.of_nat (List.length msg) in
  let zeros := Z.to_nat ((55 - len) mod 64) in
  msg ++ [128] ++ repeat 0 zeros ++ be_bytes 8 (len * 8).

(** The schedule, most recent word first: [ws] holds W[t-1], W[t-2], ... *)
Fixpoint schedule (n : nat) (ws : list Z) : list Z :=
  match n with
  | O => ws
  | S k =>
      let w := w32 (sigma1 (nth 1 ws 0) + nth 6 ws 0 + sigma0 (nth 14 ws 0) + nth 15 ws 0) in
      schedule k (w :: ws)
  end.

Record state : Type := mkState { a : Z; b : Z; c : Z; d : Z; e : Z; f : Z; g : Z; h : Z }.

Definition round (s : state) (kw : Z * Z) : state :=
  let t1 := s.(h) + Sigma1 s.(e) + Ch s.(e) s.(f) s.(g) + fst kw + snd kw in
  let t2 := Sigma0 s.(a) + Maj s.(a) s.(b) s.(c) in
  mkState (w32 (t1 + t2)) s.(a) s.(b) s.(c) (w32 (s.(d) + t1)) s.(e) s.(f) s.(g).

Definition compress (hs : state) (block : list Z) : state :=
  let w16 := map be_value (chunks 4 block) in
  let ws := rev (schedule 48 (rev w16)) in
  let r := fold_left round (combine K ws) hs in
  mkState (w32 (hs.(a) + r.(a))) (w32 (hs.(b) + r.(b))) (w32 (hs.(c) + r.(c)))
          (w32 (hs.(d) + r.(d))) (w32 (hs.(e) + r.(e))) (w32 (hs.(f) + r.(f)))
          (w32 (hs.(g) + r.(g))) (w32 (hs.(h) + r.(h))).

Definition init : state :=
  mkState 1779033703 3144134277 1013904242 2773480762
          1359893119 2600822924 528734635 1541459225.

Definition digest (msg : list Z) : list Z :=
  let s := fold_left compress (chunks 64 (pad msg)) init in
  flat_map (be_bytes 4) [s.(a); s.(b); s.(c); s.(d); s.(e); s.(f); s.(g); s.(h)].

End Sha256.

(** ** RIPEMD-160: what [crypto.createHash("ripemd160")] computes *)

Module Ripemd160.
Import Bytes.

Definition r_left : list nat :=
  [0; 1; 2; 3; 4; 5; 6; 7; 8; 9; 10; 11; 12; 13; 14; 15;
   7; 4; 13; 1; 10; 6; 15; 3; 12; 0; 9; 5; 2; 14; 11; 8;
   3; 10; 14; 4; 9; 15; 8; 1; 2; 7; 0; 6; 13; 11; 5; 12;
   1; 9; 11; 10; 0; 8; 12; 4; 13; 3; 7; 15; 14; 5; 6; 2;
   4; 0; 5; 9; 7; 12; 2; 10; 14; 1; 3; 8; 11; 6; 15; 13]%nat.

Definition r_right : list nat :=
  [5; 14; 7; 0; 9; 2; 11; 4; 13; 6; 15; 8; 1; 10; 3; 12;
   6; 11; 3; 7; 0; 13; 5; 10; 14; 15; 8; 12; 4; 9; 1; 2;
   15; 5; 1; 3; 7; 14; 6; 9; 11; 8; 12; 2; 10; 0; 4; 13;
   8; 6; 4; 1; 3; 11; 15; 0; 5; 12; 2; 13; 9; 7; 10; 14;
   12; 15; 10; 4; 1; 5; 8; 7; 6; 2; 13; 14; 0; 3; 9; 11]%nat.

Definition s_left : list Z :=
  [11; 14; 15; 12; 5; 8; 7; 9; 11; 13; 14; 15; 6; 7; 9; 8;
   7; 6; 8; 13; 11; 9; 7; 15; 7; 12; 15; 9; 11; 7; 13; 12;
   11; 13; 6; 7; 14; 9; 13; 15; 14; 8; 13; 6; 5; 12; 7; 5;
   11; 12; 14; 15; 14; 15; 9; 8; 9; 14; 5; 6; 8; 6; 5; 12;
   9; 15; 5; 11; 6; 8; 13; 12; 5; 12; 13; 14; 11; 8; 5; 6].

Definition s_right : list Z :=
  [8; 9; 9; 11; 13; 15; 15; 5; 7; 7; 8; 11; 14; 14; 12; 6;
   9; 13; 15; 7; 12; 8; 9; 11; 7; 7; 12; 7; 6; 15; 13; 11;
   9; 7; 15; 11; 8; 6; 6; 14; 12; 13; 5; 14; 13; 13; 7; 5;
   15; 5; 8; 11; 14; 14; 6; 14; 6; 9; 12; 9; 12; 5; 15; 8;
   8; 5; 12; 9; 12; 5; 14; 6; 8; 13; 6; 5; 15; 13; 11; 11].

Definition K_left : list Z := [0; 0x5A827999; 0x6ED9EBA1; 0x8F1BBCDC; 0xA953FD4E].
Definition K_right : list Z := [0x50A28BE6; 0x5C4DD124; 0x6D703EF3; 0x7A6D76E9; 0].

(** The five round functions, selected by [j / 16]. *)
Definition f (group : nat) (x y z : Z) : Z :=
  match group with
  | 0%nat => Z.lxor (Z.lxor x y) z
  | 1%nat => Z.lor (Z.land x y) (Z.land (not32 x) z)
  | 2%nat => Z.lxor (Z.lor x (not32 y)) z
  | 3%nat => Z.lor (Z.land x z) (Z.land y (not32 z))
  | _ => Z.lxor x (Z.lor y (not32 z))
  end.

Definition line : Type := (Z * Z * Z * Z * Z)%type.

Definition step (x : list Z) (fgroup : nat) (k : Z) (r : nat) (s : Z) (l : line) : line :=
  let '(A, B, C, D, E) := l in
  let t := w32 (rotl32 s (w32 (A + f fgroup B C D + nth r x 0 + k)) + E) in
  (E, t, B, rotl32 10 C, D).

Fixpoint steps (x : list Z) (right : bool) (j : nat) (rs : list nat) (ss : list Z) (l : line) : line :=
  match rs, ss with
  | r :: rs', s :: ss' =>
      let grp := Nat.div j 16 in
      let l' :=
        if right then step x (4 - grp)%nat (nth grp K_right 0) r s l
        else step x grp (nth grp K_left 0) r s l in
      steps x right (S j) rs' ss' l'
  | _, _ => l
  end.

Definition compress (hs : line) (block : list Z) : line :=
  let x := map le_value (chunks 4 block) in
  let '(h0, h1, h2, h3, h4) := hs in
  let '(A, B, C, D, E) := steps x false 0 r_left s_left hs in
  let '(A', B', C', D', E') := steps x true 0 r_right s_right hs in
  (w32 (h1 + C + D'), w32 (h2 + D + E'), w32 (h3 + E + A'),
   w32 (h4 + A + B'), w32 (h0 + B + C')).

Definition pad (msg : list Z) : list Z :=
  let len := Z.of_nat (List.length msg) in
  let zeros := Z.to_nat ((55 - len) mod 64) in
  msg ++ [128] ++ repeat 0 zeros ++ le_bytes 8 (len * 8).

Definition init : line := (0x67452301, 0xEFCDAB89, 0x98BADCFE, 0x10325476, 0xC3D2E1F0).

Definition digest (msg : list Z) : list Z :=
  let '(h0, h1, h2, h3, h4) := fold_left compress (chunks 64 (pad msg)) init in
  flat_map (le_bytes 4) [h0; h1; h2; h3; h4].

End Ripemd160.

(** ** Hexadecimal text *)

Module Hex.

Definition hexval (c : ascii) : option Z :=
  let n := Z.of_nat (nat_of_ascii c) in
  if (48 <=? n) && (n <=? 57) then Some (n - 48)
  else if (97 <=? n) && (n <=? 102) then Some (n - 87)
  else if (65 <=? n) && (n <=? 70) then Some (n - 55)
  else None.

(** [Buffer.from(s, "hex")]: pairs of hex digits, stopping at the first pair
    that is not one (an odd last character is dropped). *)
Fixpoint decode_chars (cs : list ascii) : list Z :=
  match cs with
  | c1 :: c2 :: rest =>
      match hexval c1, hexval c2 with
      | Some x, Some y => 16 * x + y :: decode_chars rest
      | _, _ => []
      end
  | _ => []
  end.

Definition Buffer_from_hex (s : string) : list Z := decode_chars (Str.chars s).

Definition digit (d : Z) : ascii :=
  if d <? 10 then ascii_of_nat (Z.to_nat (48 + d)) else ascii_of_nat (Z.to_nat (87 + d)).

(** [buf.toString("hex")]: two lower-case digits per byte. *)
Fixpoint toString_hex (bytes : list Z) : string :=
  match bytes with
  | [] => ""
  | b :: rest => String (digit (b / 16)) (String (digit (b mod 16)) (toString_hex rest))
  end.

End Hex.

(** ** secp256k1: what [crypto.createECDH("secp256k1")] computes *)

Module Secp256k1.

Definition p : Z := 2 ^ 256 - 2 ^ 32 - 977.
Definition n : Z := 0xFFFFFFFFFFFFFFFFFFFFFFFFFFFFFFFEBAAEDCE6AF48A03BBFD25E8CD0364141.
Definition Gx : Z := 0x79BE667EF9DCBBAC55A06295CE870B07029BFCDB2DCE28D959F2815B16F81798.
Definition Gy : Z := 0x483ADA7726A3C4655DA4FBFC0E1108A8FD17B448A68554199C47D08FFB10D4B8.

Inductive point : Type :=
| Infinity
| Affine (x y : Z).

Fixpoint pow_mod (b : Z) (e : positive) (m : Z) : Z :=
  match e with
  | xH => b mod m
  | xO e' => let r := pow_mod b e' m in (r * r) mod m
  | xI e' => let r := pow_mod b e' m in (((r * r) mod m) * b) mod m
  end.

(** The inverse modulo the prime [p], by Fermat. *)
Definition inv (x : Z) : Z := pow_mod x (Z.to_pos (p - 2)) p.

Definition double (P : point) : point :=
  match P with
  | Infinity => Infinity
  | Affine x y =>
      if y =? 0 then Infinity
      else
        let l := (3 * x * x * inv (2 * y)) mod p in
        let x3 := (l * l - 2 * x) mod p in
        Affine x3 ((l * (x - x3) - y) mod p)
  end.

Definition add (P Q : point) : point :=
  match P, Q with
  | Infinity, _ => Q
  | _, Infinity => P
  | Affine x1 y1, Affine x2 y2 =>
      if x1 =? x2 then
        if (y1 + y2) mod p =? 0 then Infinity else double P
      else
        let l := ((y2 - y1) * inv (x2 - x1)) mod p in
        let x3 := (l * l - x1 - x2) mod p in
        Affine x3 ((l * (x1 - x3) - y1) mod p)
  end.

Fixpoint mul_pos (k : positive) (P : point) : point :=
  match k with
  | xH => P
  | xO k' => double (mul_pos k' P)
  | xI k' => add (double (mul_pos k' P)) P
  end.

Definition mul (k : Z) (P : point) : point :=
  match k with
  | Zpos k' => mul_pos k' P
  | _ => Infinity
  end.

(** [ecdh.setPrivateKey(buf)] then [ecdh.getPublicKey()]: the key is the
    big-endian integer of the buffer and must lie in [1, n-1]; the public key
    is [0x04 || X || Y], 65 bytes. *)
Definition publicKey (privateKey : list Z) : outcome (list Z) :=
  let k := Bytes.be_value privateKey in
  if (1 <=? k) && (k <? n) then
    match mul k (Affine Gx Gy) with
    | Affine x y => Returns (4 :: Bytes.be_bytes 32 x ++ Bytes.be_bytes 32 y)
    | Infinity => Throws "Failed to get ECDH public key"
    end
  else Throws "Private key is not valid for specified curve.".

End Secp256k1.

(** ** Keys, addresses and WIF (web-scraper.ts) *)

Module Keys.
Import Base58.

Definition doubleSha256 (buffer : list Z) : list Z :=
  Sha256.digest (Sha256.digest buffer).

Definition ripemd160 (buffer : list Z) : list Z := Ripemd160.digest buffer.

Definition hash160 (buffer : list Z) : list Z :=
  ripemd160 (Sha256.digest buffer).

Definition privateKeyToAddress (privateKeyHex : string) (compressed : bool)
  : outcome string :=
  if negb (Nat.eqb (String.length privateKeyHex) 64) then
    Throws "Private key must be 64 hex characters (32 bytes)"
  else
    let privateKeyBuffer := Hex.Buffer_from_hex privateKeyHex in
    fullPublicKey <- Secp256k1.publicKey privateKeyBuffer ;;
    let publicKey :=
      if compressed then
        let x := Bytes.subarray fullPublicKey 1 33 in
        let y := Bytes.subarray fullPublicKey 33 65 in
        let prefix := if Z.rem (nth 31 y 0) 2 =? 0 then 2 else 3 in
        [prefix] ++ x
      else fullPublicKey in
    let publicKeyHash := hash160 publicKey in
    let versionedHash := [0] ++ publicKeyHash in
    let checksum := Bytes.subarray (doubleSha256 versionedHash) 0 4 in
    let addressBytes := versionedHash ++ checksum in
    Returns (base58Encode addressBytes).

Definition privateKeyToWIF (privateKeyHex : string) (compressed mainnet : bool) : string :=
  let privateKeyBuffer := Hex.Buffer_from_hex privateKeyHex in
  let version := if mainnet then 128 else 239 in
  let extendedKey :=
    if compressed then [version] ++ privateKeyBuffer ++ [1]
    else [version] ++ privateKeyBuffer in
  let checksum := Bytes.subarray (doubleSha256 extendedKey) 0 4 in
  base58Encode (extendedKey ++ checksum).

Record wif_key : Type := mkWifKey {
  privateKey : string;
  compressed : bool;
  mainnet : bool
}.

Definition bytes_eqb (x y : list Z) : bool :=
  Nat.eqb (List.length x) (List.length y) && forallb (fun ab => fst ab =? snd ab) (combine x y).

Definition wifToPrivateKey (wif : string) : outcome wif_key :=
  decoded <- base58Decode wif ;;
  let len := List.length decoded in
  (* subarray(0, -4) and subarray(-4): a negative index counts from the end *)
  let payload := Bytes.subarray decoded 0 (len - 4) in
  let checksum := Bytes.subarray decoded (len - 4) len in
  let calculatedChecksum := Bytes.subarray (doubleSha256 payload) 0 4 in
  if negb (bytes_eqb checksum calculatedChecksum) then Throws "Invalid WIF checksum"
  else
    let version := nth_error payload 0 in
    let mainnet :=
      match version with Some v => v =? 128 | None => false end in
    if Nat.eqb (List.length payload) 34
       && match nth_error payload 33 with Some v => v =? 1 | None => false end
    then Returns (mkWifKey (Hex.toString_hex (Bytes.subarray payload 1 33)) true mainnet)
    else if Nat.eqb (List.length payload) 33
    then Returns (mkWifKey (Hex.toString_hex (Bytes.subarray payload 1 33)) false mainnet)
    else Throws "Invalid WIF format".

(** *** [parsePrivateKey] *)

Inductive key_format : Type := FmtHex | FmtWif | FmtDecimal | FmtBinary | FmtUnknown.

Record parsed_key : Type := mkParsed {
  privateKeyHex : string;
  format : key_format;
  error : option string
}.

Definition is_hex_char (c : ascii) : bool :=
  Str.in_range "a" "f" c || Str.in_range "A" "F" c || Str.is_digit c.

(** [/^[a-fA-F0-9]{64}$/] *)
Definition re_hex64 (s : string) : bool :=
  Nat.eqb (String.length s) 64 && Str.all_chars is_hex_char s.

(** The class [[1-9A-HJ-NP-Za-km-z]]. *)
Definition is_wif_char (c : ascii) : bool :=
  Str.in_range "1" "9" c || Str.in_range "A" "H" c || Str.in_range "J" "N" c
  || Str.in_range "P" "Z" c || Str.in_range "a" "k" c || Str.in_range "m" "z" c.

(** [/^[5KL][1-9A-HJ-NP-Za-km-z]{50,51}$/] *)
Definition re_wif (s : string) : bool :=
  match s with
  | String c rest =>
      (Ascii.eqb c "5" || Ascii.eqb c "K" || Ascii.eqb c "L")
      && (Nat.eqb (String.length rest) 50 || Nat.eqb (String.length rest) 51)
      && Str.all_chars is_wif_char rest
  | EmptyString => false
  end.

(** [/^\d+$/] *)
Definition re_decimal (s : string) : bool :=
  negb (Nat.eqb (String.length s) 0) && Str.all_chars Str.is_digit s.

Definition is_bit_char (c : ascii) : bool := Ascii.eqb c "0" || Ascii.eqb c "1".

(** [/^[01]+$/] *)
Definition re_binary (s : string) : bool :=
  negb (Nat.eqb (String.length s) 0) && Str.all_chars is_bit_char s.

(** [/^0x[a-fA-F0-9]{1,64}$/] *)
Definition re_0x (s : string) : bool :=
  match s with
  | String c0 (String c1 rest) =>
      Ascii.eqb c0 "0" && Ascii.eqb c1 "x"
      && Nat.leb 1 (String.length rest) && Nat.leb (String.length rest) 64
      && Str.all_chars is_hex_char rest
  | _ => false
  end.

(** [BigInt(s)] for a string of digits in base [base]. *)
Definition BigInt_of_digits (base : Z) (s : string) : Z :=
  fold_left (fun acc c => acc * base + (Str.code c - 48)) (Str.chars s) 0.

(** [bn.toString(16)] for [bn >= 0]: no leading zero, ["0"] for zero. *)
Fixpoint hex_digits (fuel : nat) (bn : Z) : list ascii :=
  match fuel with
  | O => []
  | S f =>
      if bn <? 16 then [Hex.digit bn]
      else hex_digits f (bn / 16) ++ [Hex.digit (bn mod 16)]
  end.

Definition toString16 (bn : Z) : string :=
  string_of_list_ascii (hex_digits (S (Z.to_nat (Z.log2 bn))) bn).

Definition parsePrivateKey (input : string) : parsed_key :=
  let cleaned := Str.trim input in
  if re_hex64 cleaned then mkParsed (Str.toLowerCase cleaned) FmtHex None
  else if re_wif cleaned then
    match wifToPrivateKey cleaned with
    | Returns k => mkParsed k.(privateKey) FmtWif None
    | Throws _ => mkParsed "" FmtUnknown (Some "Invalid WIF format")
    end
  else
    let try_binary :=
      if re_binary cleaned && Nat.leb (String.length cleaned) 256 then
        let bn := BigInt_of_digits 2 cleaned in
        mkParsed (Str.padStart 64 "0" (toString16 bn)) FmtBinary None
      else if re_0x cleaned then
        mkParsed (Str.toLowerCase (Str.padStart 64 "0" (Str.slice_from 2 cleaned)))
                 FmtHex None
      else mkParsed "" FmtUnknown (Some "Could not parse private key format") in
    if re_decimal cleaned then
      let bn := BigInt_of_digits 10 cleaned in
      let hex := Str.padStart 64 "0" (toString16 bn) in
      if Nat.leb (String.length hex) 64 then mkParsed hex FmtDecimal None
      else try_binary
    else try_binary.

End Keys.

(** ** Classical ciphers (crypto-utils.ts) *)

Module Ciphers.

Definition alphabet : string := "ABCDEFGHIJKLMNOPQRSTUVWXYZ".

(** [key.toUpperCase().replace(/[^A-Z]/g, "")] *)
Definition normalizeKey (key : string) : string :=
  Str.strip (fun c => negb (Str.is_upper c)) (Str.toUpperCase key).

Definition keyError : string := "Error: Key must contain at least one letter".

(** [alphabet.indexOf(normalizedKey[keyIndex % normalizedKey.length])]; an
    [undefined] key character is not found. *)
Definition keyCharIndexAt (normalizedKey : string) (keyIndex : Z) : Z :=
  let i := Z.rem keyIndex (Z.of_nat (String.length normalizedKey)) in
  match (if i <? 0 then None else String.get (Z.to_nat i) normalizedKey) with
  | Some keyChar => Str.indexOf alphabet keyChar
  | None => -1
  end.

(** The letter written for [char]: [alphabet[index]], lower-cased unless
    [char] is its own upper case. *)
Definition putLetter (char : ascii) (index : Z) : string :=
  if Ascii.eqb char (Str.upper_char char) then Str.at_ alphabet index
  else Str.toLowerCase (Str.at_ alphabet index).

Fixpoint beaufortLoop (normalizedKey : string) (text : list ascii) (keyIndex : Z) : string :=
  match text with
  | [] => ""
  | char :: rest =>
      let upperChar := Str.upper_char char in
      let charIndex := Str.indexOf alphabet upperChar in
      if negb (charIndex =? -1) then
        let keyCharIndex := keyCharIndexAt normalizedKey keyIndex in
        let decryptedIndex := Z.rem (keyCharIndex - charIndex + 26) 26 in
        (putLetter char decryptedIndex ++ beaufortLoop normalizedKey rest (keyIndex + 1))%string
      else String char (beaufortLoop normalizedKey rest keyIndex)
  end.

Definition decryptBeaufort (ciphertext key : string) : string :=
  let normalizedKey := normalizeKey key in
  if Nat.eqb (String.length normalizedKey) 0 then keyError
  else beaufortLoop normalizedKey (Str.chars ciphertext) 0.

Fixpoint vigenereLoop (normalizedKey : string) (decrypt : bool) (text : list ascii)
  (keyIndex : Z) : string :=
  match text with
  | [] => ""
  | char :: rest =>
      let upperChar := Str.upper_char char in
      let charIndex := Str.indexOf alphabet upperChar in
      if negb (charIndex =? -1) then
        let keyCharIndex := keyCharIndexAt normalizedKey keyIndex in
        let newIndex :=
          if decrypt then Z.rem (charIndex - keyCharIndex + 26) 26
          else Z.rem (charIndex + keyCharIndex) 26 in
        (putLetter char newIndex ++ vigenereLoop normalizedKey decrypt rest (keyIndex + 1))%string
      else String char (vigenereLoop normalizedKey decrypt rest keyIndex)
  end.

Definition vigenereCipher (text key : string) (decrypt : bool) : string :=
  let normalizedKey := normalizeKey key in
  if Nat.eqb (String.length normalizedKey) 0 then keyError
  else vigenereLoop normalizedKey decrypt (Str.chars text) 0.

(** *** VIC straddling checkerboard *)

(** [Map<string, string>] in insertion order. *)
Definition charMap : Type := list (string * string).

Fixpoint map_set (k v : string) (m : charMap) : charMap :=
  match m with
  | [] => [(k, v)]
  | (k', v') :: rest =>
      if String.eqb k' k then (k, v) :: rest else (k', v') :: map_set k v rest
  end.

Fixpoint map_get (k : string) (m : charMap) : option string :=
  match m with
  | [] => None
  | (k', v) :: rest => if String.eqb k' k then Some v else map_get k rest
  end.

Definition singleDigits (digitRow1 digitRow2 : Z) : list Z :=
  filter (fun d => negb (d =? digitRow1) && negb (d =? digitRow2))
         [0; 1; 2; 3; 4; 5; 6; 7; 8; 9].

(** One round of any of the three filling loops: the next alphabet symbol,
    when there is one left, goes to the code [key]. *)
Definition assign (cleanAlphabet : string) (st : charMap * Z) (key : string) : charMap * Z :=
  let (m, alphabetIndex) := st in
  if alphabetIndex <? Z.of_nat (String.length cleanAlphabet)
  then (map_set key (Str.at_ cleanAlphabet alphabetIndex) m, alphabetIndex + 1)
  else st.

Definition buildCharMap (cleanAlphabet : string) (digitRow1 digitRow2 : Z) : charMap :=
  let st := ([], 0) in
  let st := fold_left (assign cleanAlphabet)
              (map Str.ofZ (singleDigits digitRow1 digitRow2)) st in
  let st := fold_left (assign cleanAlphabet)
              (map (fun i => (Str.ofZ digitRow1 ++ Str.ofZ i)%string) [0; 1; 2; 3; 4; 5; 6; 7; 8; 9]) st in
  let st := fold_left (assign cleanAlphabet)
              (map (fun i => (Str.ofZ digitRow2 ++ Str.ofZ i)%string) [0; 1; 2; 3; 4; 5; 6; 7; 8; 9]) st in
  fst st.

(** [const char = charMap.get(code); if (char) result += char] *)
Definition emit (m : charMap) (code : string) : string :=
  match map_get code m with
  | Some char => char
  | None => ""
  end.

Fixpoint vicDecode (m : charMap) (row1 row2 : string) (digits : list ascii) : string :=
  match digits with
  | [] => ""
  | c :: rest =>
      let singleDigit := String c "" in
      if String.eqb singleDigit row1 || String.eqb singleDigit row2 then
        match rest with
        | c2 :: rest' => (emit m (String c (String c2 "")) ++ vicDecode m row1 row2 rest')%string
        | [] => ""
        end
      else (emit m singleDigit ++ vicDecode m row1 row2 rest)%string
  end.

(** [decryptVIC], for an ASCII alphabet: [alphabet.toUpperCase()] then keeps
    every symbol at its index. *)
Definition decryptVIC (numbers alphabet : string) (digitRow1 digitRow2 : Z) : string :=
  let digits := Str.strip Str.is_space numbers in
  let cleanAlphabet := Str.toUpperCase alphabet in
  let m := buildCharMap cleanAlphabet digitRow1 digitRow2 in
  let result := vicDecode m (Str.ofZ digitRow1) (Str.ofZ digitRow2) (Str.chars digits) in
  if Nat.eqb (String.length result) 0
  then "Unable to decode. Check alphabet and digit assignments."
  else result.

End Ciphers.

(** ** AES-256-CBC wrapper (crypto-utils.ts, [decryptAES256CBC]) *)

Module Aes.

(** What a [catch] clause receives: an [Error] object with its message, or
    any other thrown value. *)
Inductive thrown : Type :=
| ErrorObject (message : string)
| OtherValue.

Inductive attempt (A : Type) : Type :=
| Ok (a : A)
| Threw (t : thrown).
Arguments Ok {A} a.
Arguments Threw {A} t.

Definition andThen {A B : Type} (x : attempt A) (k : A -> attempt B) : attempt B :=
  match x with
  | Ok a => k a
  | Threw t => Threw t
  end.

(** [try { body } catch (error) { handler(error) }] *)
Definition tryCatch {A : Type} (body : attempt A) (handler : thrown -> attempt A) : attempt A :=
  match body with
  | Ok a => Ok a
  | Threw t => handler t
  end.

(** UTF-8 bytes of a string of code units below 256. *)
Definition utf8 (s : string) : list Z :=
  flat_map (fun c => let n := Str.code c in
                     if n <? 128 then [n] else [192 + n / 64; 128 + n mod 64])
           (Str.chars s).

Section Library.

(** Node's [crypto] and [Buffer], as far as the wrapper uses them: the MD5
    digest as a 128-bit number, the Base64 decoder, the UTF-8 reading of a
    buffer, and the AES-256-CBC decipher ([createDecipheriv], [update] and
    [final] together, which may throw). *)
Variable md5 : list Z -> Z.
Variable Buffer_from_base64 : string -> list Z.
Variable toString_utf8 : list Z -> string.
Variable decipher_aes_256_cbc : list Z -> list Z -> list Z -> attempt (list Z).

Definition md5_digest (data : list Z) : list Z := Bytes.be_bytes 16 (md5 data mod 2 ^ 128).

(** The [while (totalLen < keyLen + ivLen)] loop of [evpBytesToKey]; every
    round adds the 16 bytes of a digest, so [keyLen + ivLen] rounds are more
    than enough. *)
Fixpoint evpLoop (fuel : nat) (password salt digest : list Z) (md5Hashes : list (list Z))
  (totalLen target : Z) : list (list Z) :=
  match fuel with
  | O => md5Hashes
  | S k =>
      if totalLen <? target then
        let data := digest ++ password ++ salt in
        let digest' := md5_digest data in
        evpLoop k password salt digest' (md5Hashes ++ [digest'])
                (totalLen + Z.of_nat (List.length digest')) target
      else md5Hashes
  end.

Definition evpBytesToKey (password salt : list Z) (keyLen ivLen : nat) : list Z * list Z :=
  let md5Hashes := evpLoop (keyLen + ivLen)%nat password salt [] [] 0 (Z.of_nat (keyLen + ivLen)%nat) in
  let combined := List.concat md5Hashes in
  (Bytes.subarray combined 0 keyLen, Bytes.subarray combined keyLen (keyLen + ivLen)%nat).

Definition Salted__ : list Z := [83; 97; 108; 116; 101; 100; 95; 95].

(** The [try] block. *)
Definition decryptBody (encrypted password : string) : attempt string :=
  let keyMaterial :=
    if Nat.eqb (String.length password) 64 && Str.all_chars Keys.is_hex_char password
    then Hex.Buffer_from_hex password
    else Sha256.digest (utf8 password) in
  let encryptedBuffer := Buffer_from_base64 encrypted in
  let saltedHeader := Bytes.subarray encryptedBuffer 0 8 in
  let '(salt, ciphertext) :=
    if Keys.bytes_eqb saltedHeader Salted__
    then (Bytes.subarray encryptedBuffer 8 16, skipn 16 encryptedBuffer)
    else (repeat 0 8, encryptedBuffer) in
  let '(key, iv) := evpBytesToKey keyMaterial salt 32 16 in
  andThen (decipher_aes_256_cbc key iv ciphertext)
          (fun decrypted => Ok (toString_utf8 decrypted)).

Definition errorMessage (error : thrown) : string :=
  match error with
  | ErrorObject message => message
  | OtherValue => "Unknown error"
  end.

Definition decryptAES256CBC (encrypted password : string) : attempt string :=
  tryCatch (decryptBody encrypted password)
           (fun error => Ok ("AES-256-CBC Decryption Error: " ++ errorMessage error)%string).

End Library.

End Aes.

(** ** Spiral reading of a matrix (crypto-utils.ts, [readSpiralMatrix]) *)

Module Spiral.

(** The indices of [for (let i = lo; i <= hi; i++)]. *)
Definition range_up (lo hi : Z) : list Z :=
  map (fun k => lo + Z.of_nat k) (seq 0 (Z.to_nat (hi - lo + 1))).

(** The indices of [for (let i = hi; i >= lo; i--)]. *)
Definition range_down (hi lo : Z) : list Z := rev (range_up lo hi).

(** [matrix[i][j]]; [None] is [undefined]. *)
Definition cell (matrix : list (list Z)) (i j : Z) : option Z :=
  if (i <? 0) || (j <? 0) then None
  else match nth_error matrix (Z.to_nat i) with
       | Some row => nth_error row (Z.to_nat j)
       | None => None
       end.

Record bounds : Type := mkBounds { top : Z; bottom : Z; left : Z; right : Z }.

Section Loop.

Context {A : Type}.
Variable get : Z -> Z -> A.

(** One round of the [while] loop, counter-clockwise branch. *)
Definition ccwRound (b : bounds) (result : list A) : bounds * list A :=
  let '(mkBounds top bottom left right) := b in
  (* left column, top to bottom *)
  let result := result ++ map (fun i => get i left) (range_up top bottom) in
  let left := left + 1 in
  (* bottom row, left to right *)
  let result := result ++ map (fun i => get bottom i) (range_up left right) in
  let bottom := bottom - 1 in
  (* right column, bottom to top *)
  let '(result, right) :=
    if left <=? right
    then (result ++ map (fun i => get i right) (range_down bottom top), right - 1)
    else (result, right) in
  (* top row, right to left *)
  let '(result, top) :=
    if top <=? bottom
    then (result ++ map (fun i => get top i) (range_down right left), top + 1)
    else (result, top) in
  (mkBounds top bottom left right, result).

(** One round of the [while] loop, clockwise branch. *)
Definition cwRound (b : bounds) (result : list A) : bounds * list A :=
  let '(mkBounds top bottom left right) := b in
  (* top row *)
  let result := result ++ map (fun i => get top i) (range_up left right) in
  let top := top + 1 in
  (* right column *)
  let result := result ++ map (fun i => get i right) (range_up top bottom) in
  let right := right - 1 in
  (* bottom row *)
  let '(result, bottom) :=
    if top <=? bottom
    then (result ++ map (fun i => get bottom i) (range_down right left), bottom - 1)
    else (result, bottom) in
  (* left column *)
  let '(result, left) :=
    if left <=? right
    then (result ++ map (fun i => get i left) (range_down bottom top), left + 1)
    else (result, left) in
  (mkBounds top bottom left right, result).

(** [while (top <= bottom && left <= right)]. *)
Fixpoint spiralLoop (fuel : nat) (counterClockwise : bool) (b : bounds) (result : list A)
  : list A :=
  match fuel with
  | O => result
  | S k =>
      if (b.(top) <=? b.(bottom)) && (b.(left) <=? b.(right)) then
        let '(b', result') :=
          if counterClockwise then ccwRound b result else cwRound b result in
        spiralLoop k counterClockwise b' result'
      else result
  end.

End Loop.

(** The [result] array when the loop ends.  Each round moves [left] (or
    [top]) inwards by one, so [rows + cols] rounds are enough. *)
Definition spiralCells (matrix : list (list Z)) (counterClockwise : bool) : list (option Z) :=
  match matrix with
  | [] => []
  | row0 :: _ =>
      let rows := Z.of_nat (List.length matrix) in
      let cols := Z.of_nat (List.length row0) in
      spiralLoop (cell matrix) (Z.to_nat (rows + cols)) counterClockwise
                 (mkBounds 0 (rows - 1) 0 (cols - 1)) []
  end.

(** An array entry inside [join]: [undefined] prints as nothing, an integer
    as its decimal digits (the cells are small: bits in every caller). *)
Definition entryString (v : option Z) : string :=
  match v with
  | Some n => Str.ofZ n
  | None => ""
  end.

Definition readSpiralMatrix (matrix : list (list Z)) (counterClockwise : bool) : string :=
  Str.join (map entryString (spiralCells matrix counterClockwise)).

End Spiral.

(** ** Substitution ciphers (crypto-utils.ts, [rot13], [caesarCipher], [atbashCipher]) *)

Module Substitution.

(** The class [[a-zA-Z]]. *)
Definition is_ascii_letter (c : ascii) : bool := Str.is_lower c || Str.is_upper c.

(** [text.replace(/[a-zA-Z]/g, f)]: every letter goes through [f]. *)
Definition replaceLetters (f : ascii -> ascii) (text : string) : string :=
  Str.map_chars (fun c => if is_ascii_letter c then f c else c) text.

(** [String.fromCharCode(n)], for the codes below 256 the ciphers produce. *)
Definition fromCharCode (n : Z) : ascii := ascii_of_nat (Z.to_nat n).

(** [char <= "Z" ? 65 : 97] *)
Definition base (char : ascii) : Z :=
  if Str.code char <=? Str.code "Z" then 65 else 97.

Definition rot13 (text : string) : string :=
  replaceLetters
    (fun char => fromCharCode (Z.rem (Str.code char - base char + 13) 26 + base char))
    text.

(** [caesarCipher], for a [shift] that is an integer a number holds exactly;
    [%] is the remainder of the truncated division. *)
Definition caesarCipher (text : string) (shift : Z) : string :=
  let normalizedShift := Z.rem (Z.rem shift 26 + 26) 26 in
  replaceLetters
    (fun char =>
       fromCharCode (Z.rem (Str.code char - base char + normalizedShift) 26 + base char))
    text.

Definition atbashCipher (text : string) : string :=
  replaceLetters
    (fun char => fromCharCode (base char + (25 - (Str.code char - base char))))
    text.

End Substitution.

(** ** Text codecs (crypto-utils.ts) *)

Module Codec.

(** The value of a digit character in a radix up to 16. *)
Definition digitVal (radix : Z) (c : ascii) : option Z :=
  match Hex.hexval c with
  | Some v => if v <? radix then Some v else None
  | None => None
  end.

(** The value of the longest prefix of digits, and how many digits it has. *)
Fixpoint digitsPrefix (radix : Z) (cs : list ascii) (acc : Z) (n : nat) : Z * nat :=
  match cs with
  | [] => (acc, n)
  | c :: rest =>
      match digitVal radix c with
      | Some v => digitsPrefix radix rest (acc * radix + v) (S n)
      | None => (acc, n)
      end
  end.

(** [Number.parseInt(s, radix)] for radix 2 or 16: leading whitespace and a
    sign are allowed, then a [0x] prefix in radix 16, then the longest prefix
    of digits; [None] is [NaN]. *)
Definition parseInt (s : string) (radix : Z) : option Z :=
  let cs := Str.chars (Str.trimStart s) in
  let '(sign, cs) :=
    match cs with
    | c :: rest =>
        if Ascii.eqb c "-" then (-1, rest)
        else if Ascii.eqb c "+" then (1, rest)
        else (1, cs)
    | [] => (1, cs)
    end in
  let cs :=
    if radix =? 16 then
      match cs with
      | c0 :: c1 :: rest =>
          if Ascii.eqb c0 "0" && (Ascii.eqb c1 "x" || Ascii.eqb c1 "X") then rest else cs
      | _ => cs
      end
    else cs in
  match digitsPrefix radix cs 0 0 with
  | (_, O) => None
  | (v, S _) => Some (sign * v)
  end.

(** [String.fromCharCode(n)]; [NaN] gives the character 0. *)
Definition fromCharCode (n : option Z) : ascii :=
  match n with
  | Some v => ascii_of_nat (Z.to_nat v)
  | None => zero
  end.

(** [n.toString(2)] for [n >= 0]. *)
Fixpoint bin_digits (fuel : nat) (n : Z) : list ascii :=
  match fuel with
  | O => []
  | S f =>
      if n <? 2 then [Hex.digit n]
      else bin_digits f (n / 2) ++ [Hex.digit (n mod 2)]
  end.

Definition toString2 (n : Z) : string :=
  string_of_list_ascii (bin_digits (S (Z.to_nat (Z.log2 n))) n).

(** [asciiToHex]: two hex digits per character. *)
Fixpoint asciiToHex (text : string) : string :=
  match text with
  | EmptyString => ""
  | String char rest =>
      (Str.padStart 2 "0" (Keys.toString16 (Str.code char)) ++ asciiToHex rest)%string
  end.

(** [hex.replace(/^0x/i, "")] *)
Definition strip0x (s : string) : string :=
  match s with
  | String c0 (String c1 rest) =>
      if Ascii.eqb c0 "0" && (Ascii.eqb c1 "x" || Ascii.eqb c1 "X") then rest else s
  | _ => s
  end.

(** The loop of [hexToAscii]: [cleaned.substring(i, i + 2)] for
    [i = 0, 2, 4, ...]. *)
Fixpoint hexPairs (cs : list ascii) : string :=
  match cs with
  | [] => ""
  | [c] => String (fromCharCode (parseInt (String c "") 16)) ""
  | c1 :: c2 :: rest =>
      String (fromCharCode (parseInt (String c1 (String c2 "")) 16)) (hexPairs rest)
  end.

Definition hexToAscii (hex : string) : string :=
  let cleaned := strip0x (Str.strip Str.is_space hex) in
  if negb (negb (Nat.eqb (String.length cleaned) 0) && Str.all_chars Keys.is_hex_char cleaned)
  then "Error: Invalid hexadecimal input"
  else if negb (Nat.eqb (Nat.modulo (String.length cleaned) 2) 0)
  then "Error: Hexadecimal string must have even length"
  else hexPairs (Str.chars cleaned).

(** [asciiToBinary]: eight bits and a space per character, then [trim]. *)
Fixpoint asciiToBinaryLoop (text : string) : string :=
  match text with
  | EmptyString => ""
  | String char rest =>
      (Str.padStart 8 "0" (toString2 (Str.code char)) ++ " " ++ asciiToBinaryLoop rest)%string
  end.

Definition asciiToBinary (text : string) : string := Str.trim (asciiToBinaryLoop text).

Definition newline : string := String (ascii_of_nat 10) "".

(** What [binaryToAscii] writes for a chunk of eight bits. *)
Definition byteText (chunk : list ascii) : string :=
  match parseInt (string_of_list_ascii chunk) 2 with
  | Some decimal =>
      if (32 <=? decimal) && (decimal <=? 126) then String (fromCharCode (Some decimal)) ""
      else if (decimal =? 10) || (decimal =? 13) then String (fromCharCode (Some decimal)) ""
      else ("[0x" ++ Str.padStart 2 "0" (Keys.toString16 decimal) ++ "]")%string
  | None => "[0xNaN]"
  end.

(** The loop over the chunks: the text so far and the incomplete chunks. *)
Fixpoint binaryChunks (chunks : list (list ascii)) : string * list (list ascii) :=
  match chunks with
  | [] => ("", [])
  | chunk :: rest =>
      let '(result, invalidChunks) := binaryChunks rest in
      if Nat.eqb (List.length chunk) 8 then ((byteText chunk ++ result)%string, invalidChunks)
      else (result, chunk :: invalidChunks)
  end.

Definition binaryToAscii (binary : string) : string :=
  let cleaned := Str.strip Str.is_space binary in
  if negb (Keys.re_binary cleaned) then "Error: Input must contain only 0s and 1s"
  else
    (* cleaned.match(/.{1,8}/g): groups of eight, the last one shorter *)
    let chunks := Bytes.chunks 8 (Str.chars cleaned) in
    let '(result, invalidChunks) := binaryChunks chunks in
    let result :=
      if Nat.ltb 0 (List.length invalidChunks) then
        (result ++ newline ++ newline ++ "[Warning: "
         ++ Str.ofZ (Z.of_nat (List.length invalidChunks))
         ++ " incomplete byte(s) ignored]")%string
      else result in
    if Nat.eqb (String.length result) 0 then "No valid 8-bit sequences found" else result.

(** *** [xorStrings] *)

Inductive xor_format : Type := FormatBinary | FormatHex.

(** [buf[i % buf.length] || 0]; with an empty buffer the index is [NaN]. *)
Definition cyclicByte (buf : list Z) (i : nat) : Z :=
  match List.length buf with
  | O => 0
  | S _ => nth (Nat.modulo i (List.length buf)) buf 0
  end.

Definition xorBuffers (bufA bufB : list Z) : list Z :=
  let length := Nat.max (List.length bufA) (List.length bufB) in
  map (fun i => Z.lxor (cyclicByte bufA i) (cyclicByte bufB i)) (seq 0 length).

(** [s.match(/.{8}/g)]: the complete groups of eight characters. *)
Definition groupsOf8 (cs : list ascii) : list (list ascii) :=
  filter (fun g => Nat.eqb (List.length g) 8) (Bytes.chunks 8 cs).

(** [Buffer.from(numbers)]: [NaN] is 0, the rest modulo 256. *)
Definition byteOfNumber (n : option Z) : Z :=
  match n with
  | Some v => v mod 256
  | None => 0
  end.

Definition bufferOfBits (s : string) : list Z :=
  map (fun g => byteOfNumber (parseInt (string_of_list_ascii g) 2))
      (groupsOf8 (Str.chars (Str.strip Str.is_space s))).

Definition xorStrings (a b : string) (format : xor_format) : string :=
  match format with
  | FormatHex =>
      let bufA := Hex.Buffer_from_hex (Str.strip Str.is_space a) in
      let bufB := Hex.Buffer_from_hex (Str.strip Str.is_space b) in
      Hex.toString_hex (xorBuffers bufA bufB)
  | FormatBinary =>
      let bufA := bufferOfBits a in
      let bufB := bufferOfBits b in
      String.concat " " (map (fun b => Str.padStart 8 "0" (toString2 b)) (xorBuffers bufA bufB))
  end.

End Codec.

(** ** Binary matrices (crypto-utils.ts [parseMatrix], image-processing.ts [matrixToBinary]) *)

Module Matrix.

(** [input.replace(/[^01]/g, "").split("").map(Number)] *)
Definition bitValues (input : string) : list Z :=
  map (fun c => Str.code c - 48)
      (Str.chars (Str.strip (fun c => negb (Keys.is_bit_char c)) input)).

(** [values[index] || 0] *)
Definition valueAt (values : list Z) (index : Z) : Z :=
  if index <? 0 then 0
  else match nth_error values (Z.to_nat index) with
       | Some v => v
       | None => 0
       end.

Definition parseMatrix (input : string) (rows cols : Z) : list (list Z) :=
  let values := bitValues input in
  map (fun i => map (fun j => valueAt values (i * cols + j)) (Spiral.range_up 0 (cols - 1)))
      (Spiral.range_up 0 (rows - 1)).

(** [matrix.map((row) => row.join("")).join("")] *)
Definition matrixToBinary (matrix : list (list Z)) : string :=
  Str.join (map (fun row => Str.join (map Str.ofZ row)) matrix).

(** [matrix.map((row) => row.join(" ")).join("\n")] (image-processing.ts) *)
Definition formatMatrix (matrix : list (list Z)) : string :=
  String.concat Codec.newline (map (fun row => String.concat " " (map Str.ofZ row)) matrix).

End Matrix.

(** ** Key validation (web-scraper.ts, [validateKeyForAddress]) *)

Module Validation.

Inductive match_type : Type := MatchCompressed | MatchUncompressed | MatchNone.

Record validation : Type := mkValidation {
  valid : bool;
  generatedAddressCompressed : string;
  generatedAddressUncompressed : string;
  matchType : match_type
}.

Definition validateKeyForAddress (privateKeyHex targetAddress : string) : validation :=
  let attempt :=
    compressedAddress <- Keys.privateKeyToAddress privateKeyHex true ;;
    uncompressedAddress <- Keys.privateKeyToAddress privateKeyHex false ;;
    let matchesCompressed := String.eqb compressedAddress targetAddress in
    let matchesUncompressed := String.eqb uncompressedAddress targetAddress in
    Returns (mkValidation (matchesCompressed || matchesUncompressed)
               compressedAddress uncompressedAddress
               (if matchesCompressed then MatchCompressed
                else if matchesUncompressed then MatchUncompressed else MatchNone)) in
  match attempt with
  | Returns v => v
  | Throws message =>
      mkValidation false ("Error: " ++ message)%string ("Error: " ++ message)%string MatchNone
  end.

End Validation.

(** * Vocabulary of the proofs

    Definitions the statements and proofs below use; none of them is part of
    the program. *)

(** Every character, for checks by enumeration. *)
Definition all_ascii : list ascii := map ascii_of_nat (seq 0 256).

(** The ASCII letters. *)
Definition is_letter (c : ascii) : bool := Str.is_upper c || Str.is_lower c.

Section CipherVocabulary.
Import Ciphers.

(** [alphabet.indexOf(char.toUpperCase())]: the index of a letter, [-1] for
    any other character. *)
Definition letterIndex (c : ascii) : Z := Str.indexOf alphabet (Str.upper_char c).

(** The indices a key letter can have. *)
Definition keyRange : list Z := map Z.of_nat (seq 0 26).

(** The index formulas of the three loops. *)
Definition beaufortStep (charIndex keyCharIndex : Z) : Z :=
  Z.rem (keyCharIndex - charIndex + 26) 26.
Definition vigenereEnc (charIndex keyCharIndex : Z) : Z :=
  Z.rem (charIndex + keyCharIndex) 26.
Definition vigenereDec (charIndex keyCharIndex : Z) : Z :=
  Z.rem (charIndex - keyCharIndex + 26) 26.

(** A letter, under a key letter of index [k], becomes a letter [c'] of the
    same case, and [step2] applied to [c'] under [k] brings [c] back. *)
Definition letterCheck (step1 step2 : Z -> Z -> Z) (c : ascii) (k : Z) : bool :=
  if letterIndex c =? -1 then true
  else match putLetter c (step1 (letterIndex c) k) with
       | String c' EmptyString =>
           negb (letterIndex c' =? -1)
           && String.eqb (putLetter c' (step2 (letterIndex c') k)) (String c EmptyString)
       | _ => false
       end.

Fixpoint memb (k : string) (l : list string) : bool :=
  match l with
  | [] => false
  | x :: rest => String.eqb x k || memb k rest
  end.

Fixpoint nodupb (l : list string) : bool :=
  match l with
  | [] => true
  | x :: rest => negb (memb x rest) && nodupb rest
  end.

Definition digitRange : list Z := [0; 1; 2; 3; 4; 5; 6; 7; 8; 9].

(** The codes of the three filling loops of [buildCharMap]. *)
Definition singleKeys (d1 d2 : Z) : list string := map Str.ofZ (singleDigits d1 d2).
Definition rowKeys (d : Z) : list string :=
  map (fun i => (Str.ofZ d ++ Str.ofZ i)%string) digitRange.

(** What the proof needs of the codes, checked for every pair of distinct
    escape digits: eight single-digit codes, all different, none of them a
    two-digit code, none touched by whitespace stripping, none an escape. *)
Definition codesCheck (d1 d2 : Z) : bool :=
  (d1 =? d2)
  || (Nat.eqb (List.length (singleDigits d1 d2)) 8
      && nodupb (singleKeys d1 d2)
      && forallb (fun k => negb (memb k (rowKeys d1)) && negb (memb k (rowKeys d2))
                           && String.eqb (Str.strip Str.is_space k) k
                           && Nat.eqb (String.length k) 1
                           && negb (String.eqb k (Str.ofZ d1))
                           && negb (String.eqb k (Str.ofZ d2)))
                 (singleKeys d1 d2)).

End CipherVocabulary.

(** The private key 1, as 64 hex characters. *)
Definition key_one : string :=
  "0000000000000000000000000000000000000000000000000000000000000001".

(** The result of [parsePrivateKey] when no format applies. *)
Definition unknownFormat : Keys.parsed_key :=
  Keys.mkParsed "" Keys.FmtUnknown (Some "Could not parse private key format"%string).

(** [10 ^ 78] and [2 * 10 ^ 78] in decimal: both overflow 32 bytes. *)
Definition ten_pow_78 : string :=
  "1000000000000000000000000000000000000000000000000000000000000000000000000000000".

Definition two_times_ten_pow_78 : string :=
  "2000000000000000000000000000000000000000000000000000000000000000000000000000000".

Section BoxVocabulary.
Import Spiral.

Context {A : Type}.
Variable get : Z -> Z -> A.

(** The cells of the box [top..bottom] x [left..right], row by row. *)
Definition boxCells (b : bounds) : list A :=
  flat_map (fun i => map (fun j => get i j) (range_up b.(left) b.(right)))
           (range_up b.(top) b.(bottom)).

End BoxVocabulary.

(** How far the spiral loop is from its end. *)
Definition rounds_left (b : Spiral.bounds) : Z :=
  Z.max 0 (b.(Spiral.bottom) - b.(Spiral.top) + 1)
  + Z.max 0 (b.(Spiral.right) - b.(Spiral.left) + 1).

(** The character a one-digit cell prints as. *)
Definition digitChar (v : option Z) : ascii :=
  match v with
  | Some n => ascii_of_nat (Z.to_nat (48 + n))
  | None => "0"%char
  end.

Definition isDigitCell (v : option Z) : Prop :=
  match v with
  | Some n => 0 <= n <= 9
  | None => False
  end.

(** One letter moved by [n] places, as [caesarCipher] does it. *)
Definition caesarChar (n : Z) (c : ascii) : ascii :=
  if Substitution.is_ascii_letter c
  then Substitution.fromCharCode
         (Z.rem (Str.code c - Substitution.base c + n) 26 + Substitution.base c)
  else c.

(** The two hex digits [asciiToHex] writes for a character, and the eight
    bits [asciiToBinary] writes for it. *)
Definition hexOfChar (c : ascii) : string :=
  Str.padStart 2 "0" (Keys.toString16 (Str.code c)).

Definition bitsOfChar (c : ascii) : string :=
  Str.padStart 8 "0" (Codec.toString2 (Str.code c)).

(** The characters [binaryToAscii] writes as themselves: printable ASCII,
    line feed and carriage return. *)
Definition printable (c : ascii) : bool :=
  let n := Str.code c in ((32 <=? n) && (n <=? 126)) || (n =? 10) || (n =? 13).

(** What the proofs need of the two hex digits of a character. *)
Definition hexOfCharCheck (c : ascii) : bool :=
  match hexOfChar c with
  | String h (String l EmptyString) =>
      Keys.is_hex_char h && Keys.is_hex_char l
      && negb (Str.is_space h) && negb (Str.is_space l)
      && negb (Ascii.eqb l "x" || Ascii.eqb l "X")
      && Ascii.eqb (Codec.fromCharCode (Codec.parseInt (String h (String l EmptyString)) 16)) c
  | _ => false
  end.

(** What the proofs need of the eight bits of a character. *)
Definition bitsOfCharCheck (c : ascii) : bool :=
  let bits := Str.chars (bitsOfChar c) in
  Nat.eqb (List.length bits) 8
  && forallb (fun b => Keys.is_bit_char b && negb (Str.is_space b)) bits
  && implb (printable c) (String.eqb (Codec.byteText bits) (String c EmptyString)).

(** All the bits of a text, without the spaces [asciiToBinary] puts between
    them. *)
Fixpoint bitsOfText (text : string) : string :=
  match text with
  | EmptyString => EmptyString
  | String c rest => (bitsOfChar c ++ bitsOfText rest)%string
  end.

(** The number a list of base-58 digits stands for, least significant digit
    first, as [base58Encode] keeps them. *)
Definition le58 (digits : list Z) : Z := fold_right (fun d acc => d + 58 * acc) 0 digits.

Definition isDigit58 (d : Z) : Prop := 0 <= d < 58.

(** The character [base58Encode] writes for a digit. *)
Definition base58Char (d : Z) : ascii :=
  match Str.at_ Base58.BASE58_ALPHABET d with
  | String c _ => c
  | EmptyString => zero
  end.

(** The number a Base58 text stands for, most significant character first. *)
Definition base58Value (s : string) : Z :=
  fold_left (fun acc c => acc * 58 + Str.indexOf Base58.BASE58_ALPHABET c) (Str.chars s) 0.

(** The digits 0..57 and the non-zero bytes, for checks by enumeration. *)
Definition base58Digits : list Z := map Z.of_nat (seq 0 58).
Definition nonzeroBytes : list Z := map Z.of_nat (seq 1 255).

(** What the proofs need of the text of a single non-zero byte [v]: it
    decodes to [v] and does not start with the character 1. *)
Definition singleByteCheck (v : Z) : bool :=
  let cs := Str.chars (Base58.base58Encode [v]) in
  match Base58.decode_chars cs [0] with
  | Returns bytes =>
      Nat.eqb (List.length bytes) 1 && (nth 0 bytes 0 =? v)
      && Nat.eqb (List.length (Base58.leading_ones cs)) 0
  | Throws _ => false
  end.

(** A lower-case hex digit, as key results hold them. *)
Definition is_lower_hex (c : ascii) : bool := Str.is_digit c || Str.in_range "a" "f" c.

(** A byte value. *)
Definition isByte (b : Z) : Prop := 0 <= b < 256.

(** The number a list of hex digit characters stands for. *)
Definition value16 (cs : list ascii) (acc : Z) : Z :=
  fold_left (fun acc c => acc * 16 + match Hex.hexval c with Some v => v | None => 0 end) cs acc.

(** The hex digits 0..15, for checks by enumeration. *)
Definition hexDigitRange : list Z := map Z.of_nat (seq 0 16).

(** What every result of [parsePrivateKey] looks like: a key of 64 lower-case
    hex characters with a format and no error, or no key, the format unknown
    and an error text. *)
Definition keyResultOk (r : Keys.parsed_key) : Prop :=
  (Keys.error r = None /\ Keys.format r <> Keys.FmtUnknown
   /\ String.length (Keys.privateKeyHex r) = 64%nat
   /\ Str.all_chars is_lower_hex (Keys.privateKeyHex r) = true)
  \/ (Keys.privateKeyHex r = ""%string /\ Keys.format r = Keys.FmtUnknown
      /\ exists message, Keys.error r = Some message).

(** The number a key stands for where it is used: [privateKeyToAddress] and
    [privateKeyToWIF] read it with [Buffer.from(privateKeyHex, "hex")]. *)
Definition keyValue (privateKeyHex : string) : Z :=
  Bytes.be_value (Hex.Buffer_from_hex privateKeyHex).

(** OpenSSL's [EVP_BytesToKey] with MD5 and one iteration, as a chain:
    [D1 = MD5(password ++ salt)], [D(i+1) = MD5(Di ++ password ++ salt)];
    the first [n] digests after [digest]. *)
Fixpoint evpChain (md5 : list Z -> Z) (password salt : list Z) (n : nat) (digest : list Z)
  : list (list Z) :=
  match n with
  | O => []
  | S k =>
      let next := Aes.md5_digest md5 (digest ++ password ++ salt) in
      next :: evpChain md5 password salt k next
  end.

(** What the proof needs of the two-digit codes of a row [d], checked for
    every pair of distinct escape digits: all different, none of them a code
    of the other row, none touched by whitespace stripping, each made of the
    escape digit and one more character. *)
Definition rowCodesCheck (d other : Z) : bool :=
  (d =? other)
  || (nodupb (rowKeys d)
      && forallb (fun k => negb (memb k (rowKeys other))
                           && String.eqb (Str.strip Str.is_space k) k
                           && match k with
                              | String c (String _ EmptyString) =>
                                  String.eqb (String c EmptyString) (Str.ofZ d)
                              | _ => false
                              end)
                 (rowKeys d)).

(** One letter as [atbashCipher] mirrors it. *)
Definition atbashChar (c : ascii) : ascii :=
  if Substitution.is_ascii_letter c
  then Substitution.fromCharCode
         (Substitution.base c + (25 - (Str.code c - Substitution.base c)))
  else c.

(** A key of one letter is normalised to its upper case. *)
Definition oneLetterKeyCheck (k : ascii) : bool :=
  implb (is_letter k)
    (String.eqb (Ciphers.normalizeKey (String k EmptyString))
                (String (Str.upper_char k) EmptyString)
     && (0 <=? letterIndex k) && (letterIndex k <=? 25)).

(** What the Vigenere loop writes for a character under a key letter of
    index [k] is the character moved by [k] places, back or forth. *)
Definition vigenereCaesarCheck (decrypt : bool) (c : ascii) (k : Z) : bool :=
  let n := (if decrypt then - k else k) mod 26 in
  if letterIndex c =? -1 then Ascii.eqb (caesarChar n c) c
  else String.eqb
         (Ciphers.putLetter c ((if decrypt then vigenereDec else vigenereEnc) (letterIndex c) k))
         (String (caesarChar n c) EmptyString).

(** What the Beaufort loop writes for a character under a key letter of
    index [k] is the mirrored character moved by [k + 1] places. *)
Definition beaufortCaesarCheck (c : ascii) (k : Z) : bool :=
  let n := (k + 1) mod 26 in
  if letterIndex c =? -1 then Ascii.eqb (caesarChar n (atbashChar c)) c
  else String.eqb (Ciphers.putLetter c (beaufortStep (letterIndex c) k))
                  (String (caesarChar n (atbashChar c)) EmptyString).

(** Two characters of the same kind: both upper-case letters, both
    lower-case letters, or the same other character. *)
Definition sameShape (c c' : ascii) : bool :=
  if Str.is_upper c then Str.is_upper c'
  else if Str.is_lower c then Str.is_lower c'
  else Ascii.eqb c c'.

(** A loop step keeps the kind of the character. *)
Definition shapeCheck (step : Z -> Z -> Z) (c : ascii) (k : Z) : bool :=
  if letterIndex c =? -1 then negb (is_letter c)
  else match Ciphers.putLetter c (step (letterIndex c) k) with
       | String c' EmptyString => sameShape c c'
       | _ => false
       end.

(** The transpose of a matrix of [cols] columns, and of a box. *)
Definition transpose (cols : nat) (matrix : list (list Z)) : list (list Z) :=
  map (fun j => map (fun row => nth j row 0) matrix) (seq 0 cols).

Definition transposeBounds (b : Spiral.bounds) : Spiral.bounds :=
  Spiral.mkBounds (Spiral.left b) (Spiral.right b) (Spiral.top b) (Spiral.bottom b).

(** The eight bits [xorStrings] writes for a byte, and what the proofs need
    of them: eight characters, no whitespace, read back as the byte. *)
Definition byteBits (b : Z) : string := Str.padStart 8 "0" (Codec.toString2 b).

Definition allBytes : list Z := map Z.of_nat (seq 0 256).

Definition byteBitsCheck (b : Z) : bool :=
  Nat.eqb (String.length (byteBits b)) 8
  && Str.all_chars (fun c => negb (Str.is_space c)) (byteBits b)
  && (Codec.byteOfNumber (Codec.parseInt (byteBits b) 2) =? b).

(** [Number.isSafeInteger(n)]: the integers a JavaScript number holds
    exactly.  Sums and products of the code's numbers are the integer ones as
    long as operands and result are such integers. *)
Definition safeInteger (n : Z) : Prop := - (2 ^ 53 - 1) <= n <= 2 ^ 53 - 1.

(** * Properties *)

(** ** The models of the library against published values *)

Example sha256_abc :
  Sha256.digest [97; 98; 99]
  = Bytes.be_bytes 32 0xba7816bf8f01cfea414140de5dae2223b00361a396177a9cb410ff61f20015ad.
Proof. vm_compute. reflexivity. Qed.

Example sha256_empty :
  Sha256.digest []
  = Bytes.be_bytes 32 0xe3b0c44298fc1c149afbf4c8996fb92427ae41e4649b934ca495991b7852b855.
Proof. vm_compute. reflexivity. Qed.

(** Two blocks: a hundred times the letter a. *)
Example sha256_two_blocks :
  Sha256.digest (repeat 97 100)
  = Bytes.be_bytes 32 0x2816597888e4a0d3a36b82b83316ab32680eb8f00f8cd3b904d681246d285a0e.
Proof. vm_compute. reflexivity. Qed.

(** A full block of the bytes 0..63, so that the padding is a block of its own. *)
Example sha256_full_block :
  Sha256.digest (map Z.of_nat (seq 0 64))
  = Bytes.be_bytes 32 0xfdeab9acf3710362bd2658cdc9a29e8f9c757fcf9811603a8c447cd1d9151108.
Proof. vm_compute. reflexivity. Qed.

Example ripemd160_abc :
  Ripemd160.digest [97; 98; 99]
  = Bytes.be_bytes 20 0x8eb208f7e05d987a9b044a8e98c6b087f15a0bfc.
Proof. vm_compute. reflexivity. Qed.

Example ripemd160_empty :
  Ripemd160.digest []
  = Bytes.be_bytes 20 0x9c1185a5c5e9fc54612808977ee8f548b2258d31.
Proof. vm_compute. reflexivity. Qed.

Example ripemd160_two_blocks :
  Ripemd160.digest (repeat 97 100)
  = Bytes.be_bytes 20 0xfdcd0faf7faa5b59f4b5757dc8bc901091880461.
Proof. vm_compute. reflexivity. Qed.

Example ripemd160_full_block :
  Ripemd160.digest (map Z.of_nat (seq 0 64))
  = Bytes.be_bytes 20 0x2581f5e9f957b44b0fa24d31996de47409dd1e0f.
Proof. vm_compute. reflexivity. Qed.

(** The generator is on the curve [y^2 = x^3 + 7]. *)
Example secp256k1_generator_on_curve :
  (Secp256k1.Gy * Secp256k1.Gy) mod Secp256k1.p
  = (Secp256k1.Gx * Secp256k1.Gx * Secp256k1.Gx + 7) mod Secp256k1.p.
Proof. vm_compute. reflexivity. Qed.

Example secp256k1_twice_generator :
  Secp256k1.mul 2 (Secp256k1.Affine Secp256k1.Gx Secp256k1.Gy)
  = Secp256k1.Affine
      0xC6047F9441ED7D6D3045406E95C07CD85C778E4B8CEF3CA7ABAC09B95C709EE5
      0x1AE168FEA63DC339A3C58419466CEAEEF7F632653266D0E1236431A950CFE52A.
Proof. vm_compute. reflexivity. Qed.

(** ** The program on small inputs *)

Example parse_decimal :
  Keys.parsePrivateKey "255"
  = Keys.mkParsed "00000000000000000000000000000000000000000000000000000000000000ff"
                  Keys.FmtDecimal None.
Proof. vm_compute. reflexivity. Qed.

Example parse_0x :
  Keys.parsePrivateKey " 0xAB "
  = Keys.mkParsed "00000000000000000000000000000000000000000000000000000000000000ab"
                  Keys.FmtHex None.
Proof. vm_compute. reflexivity. Qed.

Example parse_empty :
  Keys.parsePrivateKey "" = unknownFormat.
Proof. vm_compute. reflexivity. Qed.

Example beaufort_hello :
  Ciphers.decryptBeaufort "Hello, World" "key" = "Danzq, Cwnnh"%string.
Proof. vm_compute. reflexivity. Qed.

Example vigenere_hello :
  Ciphers.vigenereCipher "Hello, World" "key" false = "Rijvs, Uyvjn"%string.
Proof. vm_compute. reflexivity. Qed.

(** The code 49 has no symbol and is skipped. *)
Example vic_skips_unmapped :
  Ciphers.decryptVIC "0 2 10 4 9 " "FUBCDORALETHINGKYMVPSJQZXW" 1 4 = "FUL"%string.
Proof. vm_compute. reflexivity. Qed.

(** ** Characters by enumeration *)

Lemma in_all_ascii (c : ascii) : In c all_ascii.
Proof.
  unfold all_ascii. rewrite <- (ascii_nat_embedding c).
  apply in_map, in_seq. pose proof (nat_ascii_bounded c). lia.
Qed.

Lemma forall_ascii (P : ascii -> bool) :
  forallb P all_ascii = true -> forall c, P c = true.
Proof.
  intros H c. rewrite forallb_forall in H. apply H, in_all_ascii.
Qed.

Lemma of_chars (s : string) : string_of_list_ascii (Str.chars s) = s.
Proof. apply string_of_list_ascii_of_string. Qed.

(** ** Beaufort and Vigenere *)

Section CipherLoops.
Import Ciphers.

Lemma in_keyRange (k : Z) : 0 <= k <= 25 -> In k keyRange.
Proof.
  intros H. unfold keyRange. replace k with (Z.of_nat (Z.to_nat k)) by lia.
  apply in_map, in_seq. lia.
Qed.

Lemma letterCheck_all (step1 step2 : Z -> Z -> Z) :
  forallb (fun c => forallb (letterCheck step1 step2 c) keyRange) all_ascii = true ->
  forall c k, 0 <= k <= 25 -> letterIndex c <> -1 ->
  exists c', putLetter c (step1 (letterIndex c) k) = String c' EmptyString
             /\ letterIndex c' <> -1
             /\ putLetter c' (step2 (letterIndex c') k) = String c EmptyString.
Proof.
  intros H c k Hk Hc.
  pose proof (forall_ascii _ H c) as Hc'. rewrite forallb_forall in Hc'.
  specialize (Hc' k (in_keyRange k Hk)). unfold letterCheck in Hc'.
  destruct (letterIndex c =? -1) eqn:E; [apply Z.eqb_eq in E; contradiction|].
  destruct (putLetter c (step1 (letterIndex c) k)) as [|c' [|? ?]];
    [exfalso; inversion Hc' | | exfalso; inversion Hc'].
  apply andb_true_iff in Hc' as [H1 H2].
  exists c'. split; [reflexivity|]. split.
  - apply negb_true_iff, Z.eqb_neq in H1. exact H1.
  - apply String.eqb_eq in H2. exact H2.
Qed.

Lemma beaufort_letter :
  forallb (fun c => forallb (letterCheck beaufortStep beaufortStep c) keyRange) all_ascii = true.
Proof. vm_compute. reflexivity. Qed.

Lemma vigenere_letter :
  forallb (fun c => forallb (letterCheck vigenereEnc vigenereDec c) keyRange) all_ascii = true.
Proof. vm_compute. reflexivity. Qed.

Lemma upper_index_range :
  forall c, Str.is_upper c = true -> 0 <= Str.indexOf alphabet c <= 25.
Proof.
  intros c Hc.
  assert (H : forallb (fun c => implb (Str.is_upper c)
              ((0 <=? Str.indexOf alphabet c) && (Str.indexOf alphabet c <=? 25))) all_ascii = true)
    by (vm_compute; reflexivity).
  pose proof (forall_ascii _ H c) as H'. cbv beta in H'. rewrite Hc in H'. cbn [implb] in H'.
  apply andb_true_iff in H'. lia.
Qed.

Lemma normalizeKey_upper (key : string) :
  Str.all_chars Str.is_upper (normalizeKey key) = true.
Proof.
  unfold normalizeKey. induction (Str.toUpperCase key) as [|c s IH]; simpl; [reflexivity|].
  destruct (Str.is_upper c) eqn:E; simpl; [rewrite E; exact IH | exact IH].
Qed.

Lemma get_all_chars (cls : ascii -> bool) (s : string) (n : nat) :
  Str.all_chars cls s = true -> (n < String.length s)%nat ->
  exists c, String.get n s = Some c /\ cls c = true.
Proof.
  revert n. induction s as [|a s IH]; simpl; intros n Hall Hn; [lia|].
  apply andb_true_iff in Hall as [Ha Hs].
  destruct n as [|n]; [exists a; auto|].
  apply IH; [exact Hs | lia].
Qed.

Lemma keyCharIndexAt_range (nk : string) (i : Z) :
  Str.all_chars Str.is_upper nk = true -> String.length nk <> 0%nat -> 0 <= i ->
  0 <= keyCharIndexAt nk i <= 25.
Proof.
  intros Hall Hlen Hi. unfold keyCharIndexAt.
  set (len := Z.of_nat (String.length nk)).
  assert (Hr : 0 <= Z.rem i len < len) by (apply Z.rem_bound_pos; lia).
  destruct (Z.rem i len <? 0) eqn:E; [apply Z.ltb_lt in E; lia|].
  destruct (get_all_chars Str.is_upper nk (Z.to_nat (Z.rem i len)) Hall) as [c [Hg Hc]]; [lia|].
  rewrite Hg. apply upper_index_range, Hc.
Qed.

Lemma beaufortLoop_cons (nk : string) (c : ascii) (rest : list ascii) (i : Z) :
  beaufortLoop nk (c :: rest) i =
  if negb (letterIndex c =? -1)
  then (putLetter c (beaufortStep (letterIndex c) (keyCharIndexAt nk i))
        ++ beaufortLoop nk rest (i + 1))%string
  else String c (beaufortLoop nk rest i).
Proof. reflexivity. Qed.

Lemma vigenereLoop_cons (nk : string) (decrypt : bool) (c : ascii) (rest : list ascii) (i : Z) :
  vigenereLoop nk decrypt (c :: rest) i =
  if negb (letterIndex c =? -1)
  then (putLetter c ((if decrypt then vigenereDec else vigenereEnc)
                       (letterIndex c) (keyCharIndexAt nk i))
        ++ vigenereLoop nk decrypt rest (i + 1))%string
  else String c (vigenereLoop nk decrypt rest i).
Proof. destruct decrypt; reflexivity. Qed.

Section WithKey.

Variable nk : string.
Hypothesis nk_upper : Str.all_chars Str.is_upper nk = true.
Hypothesis nk_nonempty : String.length nk <> 0%nat.

(** Running the Beaufort loop twice from the same key position gives the
    text back, whatever the text. *)
Lemma beaufortLoop_involutive (text : list ascii) :
  forall i, 0 <= i ->
  beaufortLoop nk (Str.chars (beaufortLoop nk text i)) i = string_of_list_ascii text.
Proof.
  induction text as [|c rest IH]; intros i Hi; [reflexivity|].
  rewrite beaufortLoop_cons.
  destruct (letterIndex c =? -1) eqn:E; cbn [negb].
  - change (Str.chars (String c ?s)) with (c :: Str.chars s).
    rewrite beaufortLoop_cons, E. cbn [negb string_of_list_ascii].
    now rewrite IH.
  - apply Z.eqb_neq in E.
    destruct (letterCheck_all _ _ beaufort_letter c (keyCharIndexAt nk i)
                (keyCharIndexAt_range nk i nk_upper nk_nonempty Hi) E)
      as [c' [H1 [H2 H3]]].
    rewrite H1. cbn [append].
    change (Str.chars (String c' ?s)) with (c' :: Str.chars s).
    rewrite beaufortLoop_cons. apply Z.eqb_neq in H2. rewrite H2. cbn [negb].
    rewrite H3. cbn [append string_of_list_ascii].
    rewrite IH by lia. reflexivity.
Qed.

(** Decrypting what the Vigenere loop encrypted, from the same key position,
    gives the text back. *)
Lemma vigenereLoop_inverse (text : list ascii) :
  forall i, 0 <= i ->
  vigenereLoop nk true (Str.chars (vigenereLoop nk false text i)) i
  = string_of_list_ascii text.
Proof.
  induction text as [|c rest IH]; intros i Hi; [reflexivity|].
  rewrite vigenereLoop_cons.
  destruct (letterIndex c =? -1) eqn:E; cbn [negb].
  - change (Str.chars (String c ?s)) with (c :: Str.chars s).
    rewrite vigenereLoop_cons, E. cbn [negb string_of_list_ascii].
    now rewrite IH.
  - apply Z.eqb_neq in E.
    destruct (letterCheck_all _ _ vigenere_letter c (keyCharIndexAt nk i)
                (keyCharIndexAt_range nk i nk_upper nk_nonempty Hi) E)
      as [c' [H1 [H2 H3]]].
    rewrite H1. cbn [append].
    change (Str.chars (String c' ?s)) with (c' :: Str.chars s).
    rewrite vigenereLoop_cons. apply Z.eqb_neq in H2. rewrite H2. cbn [negb].
    rewrite H3. cbn [append string_of_list_ascii].
    rewrite IH by lia. reflexivity.
Qed.

End WithKey.

End CipherLoops.

(** Decrypting twice with the same key gives any text back: characters
    that are not letters pass through and do not advance the key. *)
Lemma beaufort_self_inverse_any_text (x k : string) :
  Ciphers.normalizeKey k <> ""%string ->
  Ciphers.decryptBeaufort (Ciphers.decryptBeaufort x k) k = x.
Proof.
  intros Hk. unfold Ciphers.decryptBeaufort.
  assert (Hlen : String.length (Ciphers.normalizeKey k) <> 0%nat)
    by (destruct (Ciphers.normalizeKey k); [contradiction | discriminate]).
  apply Nat.eqb_neq in Hlen as Hlen'. rewrite Hlen'.
  rewrite beaufortLoop_involutive; auto using normalizeKey_upper; try lia.
  apply of_chars.
Qed.

(** C4.  For every text [x] of ASCII letters and every key [k] whose
    normalisation (upper-cased, non-letters stripped) is not empty,
    [decryptBeaufort (decryptBeaufort x k) k = x]: the one routine, with its
    formula [(keyIndex - cipherIndex + 26) % 26], undoes itself. *)
Theorem C4_beaufort_self_inverse (x k : string) :
  Str.all_chars is_letter x = true ->
  Ciphers.normalizeKey k <> ""%string ->
  Ciphers.decryptBeaufort (Ciphers.decryptBeaufort x k) k = x.
Proof.
  intros _ Hk. apply beaufort_self_inverse_any_text, Hk.
Qed.

Lemma C4_beaufort_self_inverse_witness :
  Ciphers.decryptBeaufort (Ciphers.decryptBeaufort "HelloWorld" "k-e y") "k-e y"
  = "HelloWorld"%string.
Proof.
  apply C4_beaufort_self_inverse; [reflexivity | vm_compute; discriminate].
Defined.

(** C5, as stated, fails: a key with no letter makes both calls return the
    error text instead of the input. *)
Lemma C5_vigenere_empty_key_counterexample :
  Ciphers.vigenereCipher (Ciphers.vigenereCipher "ATTACK" "123" false) "123" true
  <> "ATTACK"%string.
Proof. vm_compute. discriminate. Qed.

(** C5, amended.  For every ASCII text [x] and every key [k] with at least
    one of the letters a-z and A-Z, decrypting the encryption of [x] under
    [k] gives [x]; for an ASCII key with no letter the first call returns
    the error text, and so does the pair of calls. *)
Theorem C5_vigenere_inverse_pair (x k : string) :
  Str.all_chars Str.is_ascii x = true ->
  (Ciphers.normalizeKey k <> ""%string ->
   Ciphers.vigenereCipher (Ciphers.vigenereCipher x k false) k true = x)
  /\ (Str.all_chars Str.is_ascii k = true -> Ciphers.normalizeKey k = ""%string ->
      Ciphers.vigenereCipher x k false
      = "Error: Key must contain at least one letter"%string
      /\ Ciphers.vigenereCipher (Ciphers.vigenereCipher x k false) k true
         = "Error: Key must contain at least one letter"%string).
Proof.
  intros _. split.
  - intros Hk. unfold Ciphers.vigenereCipher.
    assert (Hlen : String.length (Ciphers.normalizeKey k) <> 0%nat)
      by (destruct (Ciphers.normalizeKey k); [contradiction | discriminate]).
    apply Nat.eqb_neq in Hlen as Hlen'. rewrite Hlen'.
    rewrite vigenereLoop_inverse; auto using normalizeKey_upper; try lia.
    apply of_chars.
  - intros _ Hk. unfold Ciphers.vigenereCipher. rewrite Hk.
    cbn [String.length Nat.eqb]. split; reflexivity.
Qed.

Lemma C5_vigenere_inverse_pair_witness :
  Ciphers.vigenereCipher (Ciphers.vigenereCipher "Attack at dawn!" "Lemon" false) "Lemon" true
  = "Attack at dawn!"%string
  /\ Ciphers.vigenereCipher (Ciphers.vigenereCipher "Attack at dawn!" "1-2 3" false)
       "1-2 3" true
     = "Error: Key must contain at least one letter"%string.
Proof.
  split.
  - destruct (C5_vigenere_inverse_pair "Attack at dawn!" "Lemon") as [H _];
      [reflexivity|]. apply H. vm_compute. discriminate.
  - destruct (C5_vigenere_inverse_pair "Attack at dawn!" "1-2 3") as [_ H];
      [reflexivity|]. apply H; reflexivity.
Defined.

(** ** The VIC checkerboard *)

Section Checkerboard.
Import Ciphers.

Lemma map_get_set_same (k v : string) (m : charMap) :
  map_get k (map_set k v m) = Some v.
Proof.
  induction m as [|[k' v'] m IH]; simpl.
  - now rewrite String.eqb_refl.
  - destruct (String.eqb k' k) eqn:E; simpl.
    + now rewrite String.eqb_refl.
    + now rewrite E.
Qed.

Lemma map_get_set_other (k k0 v : string) (m : charMap) :
  k0 <> k -> map_get k (map_set k0 v m) = map_get k m.
Proof.
  intros Hne. apply String.eqb_neq in Hne.
  induction m as [|[k' v'] m IH]; simpl.
  - now rewrite Hne.
  - destruct (String.eqb k' k0) eqn:E; simpl.
    + apply String.eqb_eq in E. subst k'. now rewrite Hne.
    + destruct (String.eqb k' k); [reflexivity | exact IH].
Qed.

(** A filling loop leaves alone the codes it does not go through. *)
Lemma assign_other (clean : string) (keys : list string) (k : string) :
  ~ In k keys ->
  forall st, map_get k (fst (fold_left (assign clean) keys st)) = map_get k (fst st).
Proof.
  induction keys as [|k0 keys IH]; intros Hin st; [reflexivity|].
  simpl. rewrite IH by (intros H; apply Hin; now right).
  unfold assign. destruct st as [m idx].
  destruct (idx <? Z.of_nat (String.length clean)); [|reflexivity].
  simpl. apply map_get_set_other. intros ->. apply Hin. now left.
Qed.

(** A filling loop over distinct codes gives its [i]-th code the [i]-th
    symbol still unassigned, as long as symbols remain. *)
Lemma assign_nth (clean : string) (keys : list string) :
  NoDup keys ->
  forall (i : nat) m idx, (i < List.length keys)%nat ->
  0 <= idx -> idx + Z.of_nat i < Z.of_nat (String.length clean) ->
  map_get (nth i keys ""%string) (fst (fold_left (assign clean) keys (m, idx)))
  = Some (Str.at_ clean (idx + Z.of_nat i)).
Proof.
  induction 1 as [|k keys Hk Hnd IH]; intros i m idx Hi Hidx Hlen; [simpl in Hi; lia|].
  cbn [fold_left]. unfold assign at 2.
  assert (E : (idx <? Z.of_nat (String.length clean)) = true) by (apply Z.ltb_lt; lia).
  rewrite E. destruct i as [|i].
  - cbn [nth]. rewrite assign_other by exact Hk. cbn [fst].
    rewrite map_get_set_same. now rewrite Z.add_0_r.
  - cbn [nth]. rewrite IH; [| simpl in Hi; lia | lia | lia].
    f_equal. f_equal. lia.
Qed.

Lemma memb_false (k : string) (l : list string) : memb k l = false -> ~ In k l.
Proof.
  induction l as [|x l IH]; simpl; intros H; [tauto|].
  apply orb_false_iff in H as [H1 H2]. apply String.eqb_neq in H1.
  intros [Hx | Hl]; [congruence | now apply IH].
Qed.

Lemma nodupb_NoDup (l : list string) : nodupb l = true -> NoDup l.
Proof.
  induction l as [|x l IH]; simpl; intros H; [constructor|].
  apply andb_true_iff in H as [H1 H2]. constructor.
  - apply memb_false. now apply negb_true_iff in H1.
  - now apply IH.
Qed.

Lemma in_digitRange (d : Z) : 0 <= d <= 9 -> In d digitRange.
Proof. unfold digitRange. simpl. lia. Qed.

Lemma codesCheck_all :
  forallb (fun d1 => forallb (codesCheck d1) digitRange) digitRange = true.
Proof. vm_compute. reflexivity. Qed.

Lemma codesCheck_ok (d1 d2 : Z) :
  0 <= d1 <= 9 -> 0 <= d2 <= 9 -> d1 <> d2 ->
  List.length (singleDigits d1 d2) = 8%nat
  /\ NoDup (singleKeys d1 d2)
  /\ forall k, In k (singleKeys d1 d2) ->
       ~ In k (rowKeys d1) /\ ~ In k (rowKeys d2)
       /\ Str.strip Str.is_space k = k
       /\ String.length k = 1%nat
       /\ String.eqb k (Str.ofZ d1) = false
       /\ String.eqb k (Str.ofZ d2) = false.
Proof.
  intros H1 H2 Hne.
  pose proof codesCheck_all as H. rewrite forallb_forall in H.
  specialize (H d1 (in_digitRange d1 H1)). rewrite forallb_forall in H.
  specialize (H d2 (in_digitRange d2 H2)). unfold codesCheck in H.
  apply Z.eqb_neq in Hne. rewrite Hne in H. cbn [orb] in H.
  apply andb_true_iff in H as [H Hall]. apply andb_true_iff in H as [Hlen Hnd].
  split; [now apply Nat.eqb_eq in Hlen|]. split; [now apply nodupb_NoDup|].
  intros k Hk. rewrite forallb_forall in Hall. specialize (Hall k Hk).
  repeat (apply andb_true_iff in Hall as [Hall ?]).
  repeat match goal with
         | H : negb _ = true |- _ => apply negb_true_iff in H
         end.
  repeat split; auto using memb_false.
  - now apply String.eqb_eq.
  - now apply Nat.eqb_eq.
Qed.

Lemma toUpperCase_length (s : string) :
  String.length (Str.toUpperCase s) = String.length s.
Proof.
  unfold Str.toUpperCase.
  induction s as [|c s IH]; simpl; [reflexivity | now rewrite IH].
Qed.

Lemma at_length (s : string) (i : nat) :
  (i < String.length s)%nat -> String.length (Str.at_ s (Z.of_nat i)) = 1%nat.
Proof.
  intros Hi. unfold Str.at_.
  destruct (Z.of_nat i <? 0) eqn:E; [apply Z.ltb_lt in E; lia|].
  rewrite Nat2Z.id.
  destruct (get_all_chars (fun _ => true) s i) as [c [Hc _]]; [|exact Hi|now rewrite Hc].
  clear. induction s; simpl; auto.
Qed.

Lemma filter_sorted (P : Z -> bool) (l : list Z) :
  StronglySorted Z.lt l -> StronglySorted Z.lt (filter P l).
Proof.
  induction 1 as [|x l Hs IH Hx]; simpl; [constructor|].
  destruct (P x); [|exact IH]. constructor; [exact IH|].
  rewrite Forall_forall in *. intros y Hy. apply filter_In in Hy. now apply Hx.
Qed.

Lemma get_map_chars (f : ascii -> ascii) (s : string) (n : nat) :
  String.get n (Str.map_chars f s) = option_map f (String.get n s).
Proof.
  revert n. induction s as [|c s IH]; intros n; [reflexivity|].
  destruct n as [|n]; [reflexivity | apply IH].
Qed.

(** The symbol at an index of the upper-cased alphabet is the symbol of the
    alphabet at that index, in upper case. *)
Lemma at_toUpperCase (s : string) (i : Z) :
  Str.at_ (Str.toUpperCase s) i = Str.toUpperCase (Str.at_ s i).
Proof.
  unfold Str.at_, Str.toUpperCase. destruct (i <? 0); [reflexivity|].
  rewrite get_map_chars. destruct (String.get (Z.to_nat i) s); reflexivity.
Qed.

End Checkerboard.

(** C7.  With an alphabet of ASCII characters and two different escape
    digits, the eight other digits, in ascending order, are the single-digit
    codes of the first eight symbols of the supplied alphabet (which the
    checkerboard holds in upper case), and each decodes to its symbol; with
    the alphabet FUBCDORALETHINGKYMVPSJQZXW and escape digits 1 and 4, ["0"]
    decodes to ["F"]. *)
Theorem C7_vic_single_digit_codes (alphabet : string) (d1 d2 : Z) (i : nat) :
  Str.all_chars Str.is_ascii alphabet = true ->
  0 <= d1 <= 9 -> 0 <= d2 <= 9 -> d1 <> d2 ->
  (i < 8)%nat -> (i < String.length alphabet)%nat ->
  let singles := Ciphers.singleDigits d1 d2 in
  let symbol := Str.toUpperCase (Str.at_ alphabet (Z.of_nat i)) in
  (List.length singles = 8%nat
   /\ StronglySorted Z.lt singles
   /\ (forall d, In d singles <-> (0 <= d <= 9 /\ d <> d1 /\ d <> d2)))
  /\ Ciphers.map_get (Str.ofZ (nth i singles 0))
       (Ciphers.buildCharMap (Str.toUpperCase alphabet) d1 d2) = Some symbol
  /\ Ciphers.decryptVIC (Str.ofZ (nth i singles 0)) alphabet d1 d2 = symbol
  /\ Ciphers.decryptVIC "0" "FUBCDORALETHINGKYMVPSJQZXW" 1 4 = "F"%string.
Proof.
  intros _ H1 H2 Hne Hi8 Hilen singles symbol.
  set (clean := Str.toUpperCase alphabet).
  assert (Hsym : symbol = Str.at_ clean (Z.of_nat i))
    by (unfold symbol, clean; symmetry; apply at_toUpperCase).
  rewrite Hsym. clearbody symbol.
  destruct (codesCheck_ok d1 d2 H1 H2 Hne) as [Hlen [Hnd Hkeys]].
  change (Ciphers.singleDigits d1 d2) with singles in Hlen.
  assert (Hget : Ciphers.map_get (Str.ofZ (nth i singles 0)) (Ciphers.buildCharMap clean d1 d2)
                 = Some (Str.at_ clean (Z.of_nat i))).
  { assert (Hin : In (nth i (singleKeys d1 d2) ""%string) (singleKeys d1 d2)).
    { apply nth_In. unfold singleKeys. rewrite length_map. fold singles. lia. }
    assert (Hnth : nth i (singleKeys d1 d2) ""%string = Str.ofZ (nth i singles 0)).
    { unfold singleKeys. fold singles.
      rewrite (nth_indep _ ""%string (Str.ofZ 0)) by (rewrite length_map; lia).
      apply map_nth. }
    destruct (Hkeys _ Hin) as [Hr1 [Hr2 _]]. rewrite <- Hnth.
    unfold Ciphers.buildCharMap.
    rewrite (assign_other clean (rowKeys d2)) by exact Hr2.
    rewrite (assign_other clean (rowKeys d1)) by exact Hr1.
    change (map Str.ofZ (Ciphers.singleDigits d1 d2)) with (singleKeys d1 d2).
    rewrite assign_nth; [reflexivity | exact Hnd | | lia |].
    - unfold singleKeys. rewrite length_map. fold singles. lia.
    - unfold clean. rewrite toUpperCase_length. lia. }
  split; [|split; [exact Hget|split; [|vm_compute; reflexivity]]].
  - split; [exact Hlen|]. split.
    + apply filter_sorted. repeat constructor.
    + intros d. unfold singles, Ciphers.singleDigits. rewrite filter_In. simpl.
      rewrite andb_true_iff, !negb_true_iff, !Z.eqb_neq. lia.
  - assert (Hin : In (Str.ofZ (nth i singles 0)) (singleKeys d1 d2)).
    { unfold singleKeys. apply in_map, nth_In. fold singles. lia. }
    destruct (Hkeys _ Hin) as [_ [_ [Hstrip [Hlen1 [He1 He2]]]]].
    unfold Ciphers.decryptVIC. fold clean. rewrite Hstrip.
    destruct (Str.ofZ (nth i singles 0)) as [|c [|? ?]] eqn:Ek; try discriminate Hlen1.
    cbn [Str.chars list_ascii_of_string Ciphers.vicDecode].
    rewrite He1, He2. cbn [orb]. unfold Ciphers.emit. rewrite Hget.
    assert (Hl : String.length (Str.at_ clean (Z.of_nat i)) = 1%nat)
      by (apply at_length; unfold clean; rewrite toUpperCase_length; exact Hilen).
    destruct (Str.at_ clean (Z.of_nat i)) as [|a [|? ?]]; try discriminate Hl.
    reflexivity.
Qed.

Lemma C7_vic_single_digit_codes_witness :
  Ciphers.decryptVIC (Str.ofZ (nth 2 (Ciphers.singleDigits 1 4) 0))
    "FUBCDORALETHINGKYMVPSJQZXW" 1 4
  = Str.toUpperCase (Str.at_ "FUBCDORALETHINGKYMVPSJQZXW" (Z.of_nat 2)).
Proof.
  apply (C7_vic_single_digit_codes "FUBCDORALETHINGKYMVPSJQZXW" 1 4 2);
    [reflexivity | lia | lia | lia | lia | simpl; lia].
Defined.

(** ** Base58 and WIF round trips *)

(** C1.  The round trip fails on the two bytes [0x01 0x00]: the encoder
    gives ["5R"], and the decoder, which adds the same character value at
    every byte and never carries it, gives back [0x52 0x00]. *)
Theorem C1_base58_roundtrip_fails :
  Base58.base58Encode [1; 0] = "5R"%string
  /\ Base58.base58Decode (Base58.base58Encode [1; 0]) = Returns [82; 0]
  /\ Base58.base58Decode (Base58.base58Encode [1; 0]) <> Returns [1; 0].
Proof. repeat split; [vm_compute; discriminate]. Qed.

(** Leading zero bytes do not survive either: the encoder's initial digit
    and the decoder's initial byte each add a zero. *)
Lemma base58_roundtrip_zero_bytes :
  Base58.base58Decode (Base58.base58Encode []) = Returns [0; 0]
  /\ Base58.base58Decode (Base58.base58Encode [0]) = Returns [0; 0; 0].
Proof. split; reflexivity. Qed.

(** Values below 256 do come back, with their leading zero bytes. *)
Lemma base58_roundtrip_small :
  Base58.base58Decode (Base58.base58Encode [0; 0; 255]) = Returns [0; 0; 255].
Proof. reflexivity. Qed.

(** The rounds of the decoder's inner loop after a push: [carry] is an
    alphabet index and the pushed byte shrinks, so the fuel handed to
    [decode_pushed] is never used up, and more fuel changes nothing. *)
Lemma decode_pushed_fuel (carry : Z) :
  0 <= carry < 58 ->
  forall (fuel1 fuel2 : nat) (v : Z), 0 <= v ->
  (Z.to_nat v < fuel1)%nat -> (Z.to_nat v < fuel2)%nat ->
  Base58.decode_pushed fuel1 carry v = Base58.decode_pushed fuel2 carry v.
Proof.
  intros Hc fuel1. induction fuel1 as [|fuel1 IH]; intros fuel2 v Hv Hf1 Hf2; [lia|].
  destruct fuel2 as [|fuel2]; [lia|].
  cbn [Base58.decode_pushed].
  destruct (v * 58 + carry >=? 256) eqn:E; [|reflexivity].
  apply Z.geb_le in E.
  assert (Hq : 0 <= (v * 58 + carry) / 256 < v).
  { split; [apply Z.div_pos; lia|]. apply Z.div_lt_upper_bound; lia. }
  f_equal. apply IH; lia.
Qed.

(** The [while (carry > 0)] loop of the encoder ends by itself within
    [carry] rounds. *)
Lemma encode_push_fuel (fuel1 : nat) :
  forall (fuel2 : nat) (carry : Z),
  (Z.to_nat carry <= fuel1)%nat -> (Z.to_nat carry <= fuel2)%nat ->
  Base58.encode_push fuel1 carry = Base58.encode_push fuel2 carry.
Proof.
  induction fuel1 as [|fuel1 IH]; intros fuel2 carry Hf1 Hf2.
  - destruct fuel2 as [|fuel2]; [reflexivity|]. cbn [Base58.encode_push].
    destruct (0 <? carry) eqn:E; [apply Z.ltb_lt in E; lia | reflexivity].
  - cbn [Base58.encode_push]. destruct (0 <? carry) eqn:E.
    + apply Z.ltb_lt in E.
      assert (Hq : 0 <= carry / 58 < carry).
      { split; [apply Z.div_pos; lia|]. apply Z.div_lt_upper_bound; lia. }
      destruct fuel2 as [|fuel2]; [lia|].
      cbn [Base58.encode_push]. apply Z.ltb_lt in E. rewrite E. f_equal.
      apply IH; lia.
    + destruct fuel2 as [|fuel2]; [reflexivity|]. cbn [Base58.encode_push].
      now rewrite E.
Qed.

(** C2.  For the private key 1 the WIF is the well-known one, but decoding
    it back throws: [base58Decode] returns the wrong bytes and the checksum
    test fails. *)
Theorem C2_wif_roundtrip_fails :
  Keys.privateKeyToWIF key_one true true
    = "KwDiBf89QgGbjEhKnhXJuH7LrciVrZi3qYjgd9M7rFU73sVHnoWn"%string
  /\ Keys.wifToPrivateKey (Keys.privateKeyToWIF key_one true true)
    = Throws "Invalid WIF checksum"
  /\ (forall k, Keys.wifToPrivateKey (Keys.privateKeyToWIF key_one true true)
                <> Returns (Keys.mkWifKey k true true)).
Proof.
  split; [|split]; [vm_compute; reflexivity | vm_compute; reflexivity |].
  intros k H.
  assert (E : Keys.wifToPrivateKey (Keys.privateKeyToWIF key_one true true)
              = Throws "Invalid WIF checksum") by (vm_compute; reflexivity).
  rewrite E in H. discriminate H.
Qed.

(** The 38 bytes behind that WIF come back as 150 bytes, so no checksum
    could make the decoded payload a key. *)
Lemma wif_of_key_one_decodes_to_150_bytes :
  exists decoded,
    Base58.base58Decode "KwDiBf89QgGbjEhKnhXJuH7LrciVrZi3qYjgd9M7rFU73sVHnoWn"
    = Returns decoded
    /\ List.length decoded = 150%nat.
Proof. eexists. split; [vm_compute; reflexivity | reflexivity]. Qed.

(** ** The address of the private key 1 *)

(** C3.  [privateKeyToAddress] of the key whose hex form is 63 zeros and a 1,
    compressed, is 1BgGZ9tcN4rm9KBzDn7KprQz87SZ26SAMH. *)
Theorem C3_address_of_key_one :
  Keys.privateKeyToAddress
    "0000000000000000000000000000000000000000000000000000000000000001" true
  = Returns "1BgGZ9tcN4rm9KBzDn7KprQz87SZ26SAMH"%string.
Proof. vm_compute. reflexivity. Qed.

(** The uncompressed address of the same key, for comparison. *)
Lemma address_of_key_one_uncompressed :
  Keys.privateKeyToAddress key_one false
  = Returns "1EHNa6Q4Jz2uvNExL497mE43ikXhwF6kZm"%string.
Proof. vm_compute. reflexivity. Qed.

(** ** The AES wrapper *)

Section AesWrapper.

Variable md5 : list Z -> Z.
Variable Buffer_from_base64 : string -> list Z.
Variable toString_utf8 : list Z -> string.
Variable decipher_aes_256_cbc : list Z -> list Z -> list Z -> Aes.attempt (list Z).

(** The [while] loop of [evpBytesToKey] stops by itself after three digests
    of 16 bytes: any fuel from three rounds up gives the same 48 bytes. *)
Lemma evpLoop_three_rounds (fuel : nat) (password salt : list Z) :
  (3 <= fuel)%nat ->
  Aes.evpLoop md5 fuel password salt [] [] 0 48
  = Aes.evpLoop md5 3 password salt [] [] 0 48
  /\ List.length (List.concat (Aes.evpLoop md5 fuel password salt [] [] 0 48)) = 48%nat.
Proof.
  intros Hf. do 3 (destruct fuel as [|fuel]; [lia|]).
  cbn [Aes.evpLoop]. unfold Aes.md5_digest.
  cbn [Bytes.be_bytes List.length Z.of_nat Pos.of_succ_nat Pos.succ Z.add Pos.add
       Z.ltb Z.compare Pos.compare Pos.compare_cont app].
  split; [destruct fuel; reflexivity | destruct fuel; reflexivity].
Qed.

(** The key and the IV handed to the decipher always have the 32 and 16
    bytes AES-256-CBC asks for. *)
Lemma evpBytesToKey_lengths (keyMaterial salt : list Z) :
  List.length (fst (Aes.evpBytesToKey md5 keyMaterial salt 32 16)) = 32%nat
  /\ List.length (snd (Aes.evpBytesToKey md5 keyMaterial salt 32 16)) = 16%nat.
Proof.
  unfold Aes.evpBytesToKey. cbv zeta. cbn [fst snd].
  change (32 + 16)%nat with 48%nat. change (Z.of_nat 48) with 48.
  destruct (evpLoop_three_rounds 48 keyMaterial salt ltac:(lia)) as [_ L].
  unfold Bytes.subarray. rewrite !length_firstn, !length_skipn, L. split; reflexivity.
Qed.

(** C8.  For every input and every password [decryptAES256CBC] returns a
    string and never throws.  The decipher is given the key and the IV
    derived from the password and the salt, 32 and 16 bytes long, and the
    ciphertext found in the input; when it fails (bad padding, truncated
    ciphertext, malformed input) the result is the text
    ["AES-256-CBC Decryption Error: "] followed by the message of the error
    it threw, or by ["Unknown error"] when what it threw is not an [Error];
    when it succeeds the result is the plaintext. *)
Theorem C8_decryptAES256CBC_never_throws (encrypted password : string) :
  let keyMaterial :=
    if Nat.eqb (String.length password) 64 && Str.all_chars Keys.is_hex_char password
    then Hex.Buffer_from_hex password
    else Sha256.digest (Aes.utf8 password) in
  let encryptedBuffer := Buffer_from_base64 encrypted in
  let salted := Keys.bytes_eqb (Bytes.subarray encryptedBuffer 0 8) Aes.Salted__ in
  let salt := if salted then Bytes.subarray encryptedBuffer 8 16 else repeat 0 8 in
  let ciphertext := if salted then skipn 16 encryptedBuffer else encryptedBuffer in
  let key := fst (Aes.evpBytesToKey md5 keyMaterial salt 32 16) in
  let iv := snd (Aes.evpBytesToKey md5 keyMaterial salt 32 16) in
  let returned :=
    Aes.decryptAES256CBC md5 Buffer_from_base64 toString_utf8 decipher_aes_256_cbc
      encrypted password in
  (exists result : string, returned = Aes.Ok result)
  /\ (List.length key = 32%nat /\ List.length iv = 16%nat)
  /\ (forall message,
        decipher_aes_256_cbc key iv ciphertext = Aes.Threw (Aes.ErrorObject message) ->
        returned = Aes.Ok ("AES-256-CBC Decryption Error: " ++ message)%string)
  /\ (decipher_aes_256_cbc key iv ciphertext = Aes.Threw Aes.OtherValue ->
      returned = Aes.Ok "AES-256-CBC Decryption Error: Unknown error"%string)
  /\ (forall decrypted,
        decipher_aes_256_cbc key iv ciphertext = Aes.Ok decrypted ->
        returned = Aes.Ok (toString_utf8 decrypted)).
Proof.
  intros keyMaterial encryptedBuffer salted salt ciphertext key iv returned.
  assert (Hbody : Aes.decryptBody md5 Buffer_from_base64 toString_utf8 decipher_aes_256_cbc
                    encrypted password
                  = Aes.andThen (decipher_aes_256_cbc key iv ciphertext)
                                (fun decrypted => Aes.Ok (toString_utf8 decrypted))).
  { unfold Aes.decryptBody. cbv zeta.
    fold keyMaterial. fold encryptedBuffer. fold salted.
    subst key iv ciphertext salt. destruct salted;
      destruct (Aes.evpBytesToKey md5 keyMaterial _ 32 16) as [k v]; reflexivity. }
  assert (Hret : returned
                 = match decipher_aes_256_cbc key iv ciphertext with
                   | Aes.Ok decrypted => Aes.Ok (toString_utf8 decrypted)
                   | Aes.Threw (Aes.ErrorObject message) =>
                       Aes.Ok ("AES-256-CBC Decryption Error: " ++ message)%string
                   | Aes.Threw Aes.OtherValue =>
                       Aes.Ok "AES-256-CBC Decryption Error: Unknown error"%string
                   end).
  { subst returned. unfold Aes.decryptAES256CBC. rewrite Hbody.
    destruct (decipher_aes_256_cbc key iv ciphertext) as [decrypted | [message |]];
      reflexivity. }
  split; [|split; [|split; [|split]]].
  - rewrite Hret.
    destruct (decipher_aes_256_cbc key iv ciphertext) as [decrypted | [message |]];
      eexists; reflexivity.
  - apply evpBytesToKey_lengths.
  - intros message H. rewrite Hret, H. reflexivity.
  - intros H. rewrite Hret, H. reflexivity.
  - intros decrypted H. rewrite Hret, H. reflexivity.
Qed.

End AesWrapper.

(** ** The spiral of the 3 x 3 example *)

(** C6.  The 3 x 3 matrix 1..9 reads 1,2,3,6,9,8,7,4,5 clockwise and
    1,4,7,8,9,6,3,2,5 counter-clockwise. *)
Theorem C6_spiral_3x3 :
  Spiral.readSpiralMatrix [[1; 2; 3]; [4; 5; 6]; [7; 8; 9]] false = "123698745"%string
  /\ Spiral.readSpiralMatrix [[1; 2; 3]; [4; 5; 6]; [7; 8; 9]] true = "147896325"%string
  /\ Spiral.spiralCells [[1; 2; 3]; [4; 5; 6]; [7; 8; 9]] false
     = map Some [1; 2; 3; 6; 9; 8; 7; 4; 5]
  /\ Spiral.spiralCells [[1; 2; 3]; [4; 5; 6]; [7; 8; 9]] true
     = map Some [1; 4; 7; 8; 9; 6; 3; 2; 5].
Proof. repeat split. Qed.

(** ** [parsePrivateKey] on decimal strings that overflow 32 bytes *)

Section ParseDecimal.
Import Keys.

Lemma digit_facts (c : ascii) :
  Str.is_digit c = true ->
  Str.is_space c = false /\ 0 <= Str.code c - 48 <= 9 /\ Ascii.eqb c "x" = false.
Proof.
  intros Hc.
  assert (H : forallb (fun c => implb (Str.is_digit c)
                (negb (Str.is_space c) && (0 <=? Str.code c - 48) && (Str.code c - 48 <=? 9)
                 && negb (Ascii.eqb c "x"))) all_ascii = true)
    by (vm_compute; reflexivity).
  pose proof (forall_ascii _ H c) as H'. cbv beta in H'. rewrite Hc in H'. cbn [implb] in H'.
  repeat (apply andb_true_iff in H' as [H' ?]).
  repeat match goal with
         | H : negb _ = true |- _ => apply negb_true_iff in H
         end.
  repeat split; auto; lia.
Qed.

Lemma trimStart_digits (s : string) :
  Str.all_chars Str.is_digit s = true -> Str.trimStart s = s.
Proof.
  destruct s as [|c s]; [reflexivity|]. simpl. intros H.
  apply andb_true_iff in H as [Hc _].
  destruct (digit_facts c Hc) as [Hs _]. now rewrite Hs.
Qed.

Lemma trimEnd_digits (s : string) :
  Str.all_chars Str.is_digit s = true -> Str.trimEnd s = s.
Proof.
  induction s as [|c s IH]; [reflexivity|]. simpl. intros H.
  apply andb_true_iff in H as [Hc Hs]. rewrite (IH Hs).
  destruct s; [|reflexivity].
  destruct (digit_facts c Hc) as [Hsp _]. now rewrite Hsp.
Qed.

Lemma trim_digits (s : string) :
  Str.all_chars Str.is_digit s = true -> Str.trim s = s.
Proof.
  intros H. unfold Str.trim. rewrite trimStart_digits by exact H.
  now apply trimEnd_digits.
Qed.

Lemma chars_length (s : string) : List.length (Str.chars s) = String.length s.
Proof. induction s as [|c s IH]; simpl; [reflexivity | now rewrite IH]. Qed.

(** A string of [n] decimal digits is worth less than [10 ^ n]. *)
Lemma decimal_fold_bound (cs : list ascii) :
  forall acc, 0 <= acc ->
  Forall (fun c => Str.is_digit c = true) cs ->
  0 <= fold_left (fun acc c => acc * 10 + (Str.code c - 48)) cs acc
    < (acc + 1) * 10 ^ Z.of_nat (List.length cs).
Proof.
  induction cs as [|c cs IH]; intros acc Hacc Hall.
  - simpl. lia.
  - inversion Hall as [|? ? Hc Hcs]; subst.
    destruct (digit_facts c Hc) as [_ [Hd _]].
    cbn [fold_left List.length]. rewrite Nat2Z.inj_succ, Z.pow_succ_r by lia.
    specialize (IH (acc * 10 + (Str.code c - 48)) ltac:(lia) Hcs).
    assert (0 < 10 ^ Z.of_nat (List.length cs)) by (apply Z.pow_pos_nonneg; lia).
    nia.
Qed.

Lemma all_chars_Forall (cls : ascii -> bool) (s : string) :
  Str.all_chars cls s = true -> Forall (fun c => cls c = true) (Str.chars s).
Proof.
  induction s as [|c s IH]; simpl; intros H; [constructor|].
  apply andb_true_iff in H as [Hc Hs]. constructor; auto.
Qed.

Lemma decimal_value_bound (s : string) :
  Str.all_chars Str.is_digit s = true ->
  0 <= BigInt_of_digits 10 s < 10 ^ Z.of_nat (String.length s).
Proof.
  intros H. unfold BigInt_of_digits.
  pose proof (decimal_fold_bound (Str.chars s) 0 ltac:(lia) (all_chars_Forall _ _ H)) as B.
  rewrite chars_length in B. lia.
Qed.

(** A decimal string worth [2 ^ 256] or more has at least 78 digits. *)
Lemma overflow_length (s : string) :
  Str.all_chars Str.is_digit s = true ->
  2 ^ 256 <= BigInt_of_digits 10 s ->
  (78 <= String.length s)%nat.
Proof.
  intros Hd Hv. pose proof (decimal_value_bound s Hd) as B.
  destruct (Nat.le_gt_cases 78 (String.length s)) as [|Hlt]; [assumption|exfalso].
  assert (10 ^ Z.of_nat (String.length s) <= 10 ^ 77)
    by (apply Z.pow_le_mono_r; lia).
  assert (10 ^ 77 < 2 ^ 256) by (vm_compute; reflexivity).
  lia.
Qed.

(** [bn.toString(16)] has more than [k] digits once [bn] reaches [16 ^ k]. *)
Lemma hex_digits_length (k : nat) :
  forall (fuel : nat) (bn : Z),
  0 <= bn < 2 ^ Z.of_nat fuel -> 16 ^ Z.of_nat k <= bn ->
  (k < List.length (hex_digits fuel bn))%nat.
Proof.
  induction k as [|k IH]; intros fuel bn Hb Hk.
  - destruct fuel as [|fuel]; [simpl in Hb; lia|].
    cbn [hex_digits]. destruct (bn <? 16); [simpl; lia|].
    rewrite length_app. simpl. lia.
  - rewrite Nat2Z.inj_succ, Z.pow_succ_r in Hk by lia.
    assert (0 < 16 ^ Z.of_nat k) by (apply Z.pow_pos_nonneg; lia).
    destruct fuel as [|fuel]; [simpl in Hb; lia|].
    rewrite Nat2Z.inj_succ, Z.pow_succ_r in Hb by lia.
    cbn [hex_digits]. destruct (bn <? 16) eqn:E; [apply Z.ltb_lt in E; lia|].
    rewrite length_app. simpl.
    assert (k < List.length (hex_digits fuel (bn / 16)))%nat; [|lia].
    apply IH.
    + split; [apply Z.div_pos; lia|]. apply Z.div_lt_upper_bound; lia.
    + apply Z.div_le_lower_bound; lia.
Qed.

(** With fuel above the size of [bn], [hex_digits] ends by itself: more fuel
    gives the same digits. *)
Lemma hex_digits_fuel (fuel1 : nat) :
  forall (fuel2 : nat) (bn : Z),
  0 <= bn < 2 ^ Z.of_nat fuel1 -> bn < 2 ^ Z.of_nat fuel2 ->
  hex_digits (S fuel1) bn = hex_digits (S fuel2) bn.
Proof.
  induction fuel1 as [|fuel1 IH]; intros fuel2 bn H1 H2.
  - cbn in H1. cbn [hex_digits].
    replace (bn <? 16) with true by (symmetry; apply Z.ltb_lt; lia). reflexivity.
  - cbn [hex_digits]. destruct (bn <? 16) eqn:E; [reflexivity|].
    apply Z.ltb_ge in E. f_equal.
    destruct fuel2 as [|fuel2]; [cbn in H2; lia|].
    rewrite Nat2Z.inj_succ, Z.pow_succ_r in H1, H2 by lia.
    apply IH.
    + split; [apply Z.div_pos; lia|]. apply Z.div_lt_upper_bound; lia.
    + apply Z.div_lt_upper_bound; lia.
Qed.

Lemma string_of_list_length (l : list ascii) :
  String.length (string_of_list_ascii l) = List.length l.
Proof. induction l as [|c l IH]; simpl; [reflexivity | now rewrite IH]. Qed.

Lemma toString16_length (bn : Z) :
  2 ^ 256 <= bn -> (64 < String.length (toString16 bn))%nat.
Proof.
  intros H. unfold toString16. rewrite string_of_list_length.
  apply hex_digits_length.
  - assert (0 < bn) by (assert (0 < 2 ^ 256) by (vm_compute; reflexivity); lia).
    pose proof (Z.log2_spec bn ltac:(lia)) as L.
    pose proof (Z.log2_nonneg bn).
    rewrite Nat2Z.inj_succ, Z2Nat.id by lia. lia.
  - change (16 ^ Z.of_nat 64) with (2 ^ 256). exact H.
Qed.

Lemma padStart_long (n : nat) (c : ascii) (s : string) :
  (n <= String.length s)%nat -> Str.padStart n c s = s.
Proof.
  intros H. unfold Str.padStart.
  replace (n - String.length s)%nat with 0%nat by lia. reflexivity.
Qed.

Lemma re_0x_digits (s : string) :
  Str.all_chars Str.is_digit s = true -> re_0x s = false.
Proof.
  destruct s as [|c0 [|c1 s]]; try reflexivity. simpl. intros H.
  apply andb_true_iff in H as [_ H]. apply andb_true_iff in H as [H1 _].
  destruct (digit_facts c1 H1) as [_ [_ Hx]]. rewrite Hx.
  now rewrite andb_false_r.
Qed.

(** What [parsePrivateKey] does with digits worth [2 ^ 256] or more. *)
Lemma parse_overflowing_decimal (s : string) :
  re_decimal s = true ->
  2 ^ 256 <= BigInt_of_digits 10 s ->
  parsePrivateKey s =
    if re_binary s && Nat.leb (String.length s) 256
    then mkParsed (Str.padStart 64 "0" (toString16 (BigInt_of_digits 2 s))) FmtBinary None
    else unknownFormat.
Proof.
  intros Hre Hv. pose proof Hre as Hre'. unfold re_decimal in Hre'.
  apply andb_true_iff in Hre' as [_ Hd].
  pose proof (overflow_length s Hd Hv) as Hlen.
  unfold parsePrivateKey. rewrite (trim_digits s Hd).
  assert (E1 : re_hex64 s = false).
  { unfold re_hex64. replace (Nat.eqb (String.length s) 64) with false; [reflexivity|].
    symmetry. apply Nat.eqb_neq. lia. }
  assert (E2 : re_wif s = false).
  { unfold re_wif. destruct s as [|c rest]; [reflexivity|]. simpl in Hlen.
    replace (Nat.eqb (String.length rest) 50) with false
      by (symmetry; apply Nat.eqb_neq; lia).
    replace (Nat.eqb (String.length rest) 51) with false
      by (symmetry; apply Nat.eqb_neq; lia).
    cbn [orb]. now rewrite andb_false_r. }
  rewrite E1, E2, Hre.
  rewrite padStart_long by (pose proof (toString16_length _ Hv); lia).
  replace (Nat.leb (String.length (toString16 (BigInt_of_digits 10 s))) 64) with false
    by (symmetry; apply Nat.leb_gt, toString16_length, Hv).
  rewrite (re_0x_digits s Hd). reflexivity.
Qed.

End ParseDecimal.

(** C9, as stated, fails: 10^78 written in decimal is made of decimal
    digits and overflows 32 bytes, yet it is not rejected: it is read as a
    bitstring. *)
Lemma C9_overflow_read_as_binary_counterexample :
  Keys.re_decimal ten_pow_78 = true
  /\ 2 ^ 256 <= Keys.BigInt_of_digits 10 ten_pow_78
  /\ Keys.parsePrivateKey ten_pow_78
     = Keys.mkParsed "0000000000000000000000000000000000000000000040000000000000000000"
                     Keys.FmtBinary None
  /\ Keys.format (Keys.parsePrivateKey ten_pow_78) <> Keys.FmtUnknown.
Proof.
  repeat split; try (vm_compute; reflexivity); vm_compute; discriminate.
Qed.

(** C9, amended.  A string of decimal digits worth [2 ^ 256] or more is
    never returned as hex, WIF or decimal: when it is made of the digits 0
    and 1 only and has at most 256 characters it is read as a bitstring
    (format binary, no error), and in every other case the result is the
    unknown-format error. *)
Theorem C9_overflowing_decimal (input : string) :
  Keys.re_decimal input = true ->
  2 ^ 256 <= Keys.BigInt_of_digits 10 input ->
  (Keys.re_binary input = true /\ (String.length input <= 256)%nat ->
     Keys.parsePrivateKey input
     = Keys.mkParsed (Str.padStart 64 "0" (Keys.toString16 (Keys.BigInt_of_digits 2 input)))
                     Keys.FmtBinary None)
  /\ (Keys.re_binary input = false \/ (256 < String.length input)%nat ->
     Keys.parsePrivateKey input
     = Keys.mkParsed "" Keys.FmtUnknown (Some "Could not parse private key format"%string)).
Proof.
  intros Hre Hv. rewrite (parse_overflowing_decimal input Hre Hv). split.
  - intros [Hb Hl]. rewrite Hb. apply Nat.leb_le in Hl. now rewrite Hl.
  - intros [Hb | Hl].
    + now rewrite Hb.
    + apply Nat.leb_gt in Hl. rewrite Hl. now rewrite andb_false_r.
Qed.

Lemma C9_overflowing_decimal_witness :
  Keys.parsePrivateKey two_times_ten_pow_78
  = Keys.mkParsed "" Keys.FmtUnknown (Some "Could not parse private key format"%string).
Proof.
  apply (C9_overflowing_decimal two_times_ten_pow_78);
    [vm_compute; reflexivity | vm_compute; discriminate | left; vm_compute; reflexivity].
Defined.

(** ** The spiral visits every cell once *)

Section SpiralRanges.
Import Spiral.

Lemma range_up_empty (lo hi : Z) : hi < lo -> range_up lo hi = [].
Proof.
  intros H. unfold range_up. replace (Z.to_nat (hi - lo + 1)) with 0%nat by lia.
  reflexivity.
Qed.

Lemma range_up_first (lo hi : Z) :
  lo <= hi -> range_up lo hi = lo :: range_up (lo + 1) hi.
Proof.
  intros H. unfold range_up.
  replace (Z.to_nat (hi - lo + 1)) with (S (Z.to_nat (hi - (lo + 1) + 1))) by lia.
  cbn [seq map]. f_equal; [lia|].
  rewrite <- seq_shift, map_map. apply map_ext. intros k. lia.
Qed.

Lemma range_up_last (lo hi : Z) :
  lo <= hi -> range_up lo hi = range_up lo (hi - 1) ++ [hi].
Proof.
  intros H. unfold range_up.
  replace (Z.to_nat (hi - lo + 1)) with (Z.to_nat (hi - 1 - lo + 1) + 1)%nat by lia.
  rewrite seq_app, map_app. f_equal. cbn [seq map Nat.add]. f_equal. lia.
Qed.

Lemma range_up_nat (n : nat) : range_up 0 (Z.of_nat n - 1) = map Z.of_nat (seq 0 n).
Proof.
  unfold range_up. replace (Z.to_nat (Z.of_nat n - 1 - 0 + 1)) with n by lia.
  apply map_ext. intros k. lia.
Qed.

End SpiralRanges.

Section SpiralBox.
Import Spiral.

Context {A : Type}.
Variable get : Z -> Z -> A.

Lemma boxCells_no_row (t b l r : Z) : b < t -> boxCells get (mkBounds t b l r) = [].
Proof.
  intros H. unfold boxCells. cbn [top bottom left right].
  now rewrite (range_up_empty t b H).
Qed.

Lemma boxCells_no_column (t b l r : Z) : r < l -> boxCells get (mkBounds t b l r) = [].
Proof.
  intros H. unfold boxCells. cbn [top bottom left right]. rewrite (range_up_empty l r H).
  induction (range_up t b); simpl; auto.
Qed.

Lemma peel_top (t b l r : Z) :
  t <= b ->
  Permutation (boxCells get (mkBounds t b l r))
              (map (fun j => get t j) (range_up l r) ++ boxCells get (mkBounds (t + 1) b l r)).
Proof.
  intros H. unfold boxCells. cbn [top bottom left right]. rewrite (range_up_first t b H). reflexivity.
Qed.

Lemma peel_bottom (t b l r : Z) :
  t <= b ->
  Permutation (boxCells get (mkBounds t b l r))
              (map (fun j => get b j) (range_up l r) ++ boxCells get (mkBounds t (b - 1) l r)).
Proof.
  intros H. unfold boxCells. cbn [top bottom left right]. rewrite (range_up_last t b H).
  rewrite flat_map_app. cbn [flat_map]. rewrite app_nil_r.
  apply Permutation_app_comm.
Qed.

Lemma flat_map_cons_perm {X} (f : X -> A) (g : X -> list A) (xs : list X) :
  Permutation (flat_map (fun x => f x :: g x) xs) (map f xs ++ flat_map g xs).
Proof.
  induction xs as [|x xs IH]; [reflexivity|].
  cbn [flat_map map app]. constructor.
  rewrite IH. rewrite !app_assoc. apply Permutation_app_tail, Permutation_app_comm.
Qed.

Lemma flat_map_snoc_perm {X} (f : X -> A) (g : X -> list A) (xs : list X) :
  Permutation (flat_map (fun x => g x ++ [f x]) xs) (map f xs ++ flat_map g xs).
Proof.
  induction xs as [|x xs IH]; [reflexivity|].
  cbn [flat_map map]. rewrite IH.
  rewrite <- app_assoc. cbn [app].
  symmetry. apply Permutation_cons_app.
  rewrite !app_assoc. apply Permutation_app_tail, Permutation_app_comm.
Qed.

Lemma peel_left (t b l r : Z) :
  l <= r ->
  Permutation (boxCells get (mkBounds t b l r))
              (map (fun i => get i l) (range_up t b) ++ boxCells get (mkBounds t b (l + 1) r)).
Proof.
  intros H. unfold boxCells. cbn [top bottom left right]. rewrite (range_up_first l r H).
  cbn [map]. apply flat_map_cons_perm.
Qed.

Lemma peel_right (t b l r : Z) :
  l <= r ->
  Permutation (boxCells get (mkBounds t b l r))
              (map (fun i => get i r) (range_up t b) ++ boxCells get (mkBounds t b l (r - 1))).
Proof.
  intros H. unfold boxCells. cbn [top bottom left right]. rewrite (range_up_last l r H).
  erewrite flat_map_ext; [apply flat_map_snoc_perm|].
  intros i. now rewrite map_app.
Qed.

Lemma map_range_down {B} (f : Z -> B) (hi lo : Z) :
  Permutation (map f (range_down hi lo)) (map f (range_up lo hi)).
Proof.
  unfold range_down. apply Permutation_map. symmetry. apply Permutation_rev.
Qed.

(** One counter-clockwise round writes the outer ring of the box and keeps
    the inner box. *)
Lemma ccwRound_ring (b : bounds) (result : list A) :
  b.(top) <= b.(bottom) -> b.(left) <= b.(right) ->
  let '(b', result') := ccwRound get b result in
  Permutation (result' ++ boxCells get b') (result ++ boxCells get b)
  /\ rounds_left b' < rounds_left b.
Proof.
  destruct b as [t b l r]. cbn [top bottom left right]. intros Htb Hlr.
  unfold ccwRound.
  assert (P1 := peel_left t b l r Hlr).
  assert (P2 := peel_bottom t b (l + 1) r Htb).
  destruct (l + 1 <=? r) eqn:E1; destruct (t <=? b - 1) eqn:E2;
    (split; [| unfold rounds_left; cbn [top bottom left right];
               try apply Z.leb_le in E1; try apply Z.leb_gt in E1;
               try apply Z.leb_le in E2; try apply Z.leb_gt in E2; lia]);
    rewrite <- ?app_assoc; apply Permutation_app_head;
    rewrite P1; apply Permutation_app_head;
    rewrite P2; apply Permutation_app_head.
  - apply Z.leb_le in E1. apply Z.leb_le in E2.
    rewrite (peel_right t (b - 1) (l + 1) r E1).
    rewrite map_range_down. apply Permutation_app_head.
    rewrite (peel_top t (b - 1) (l + 1) (r - 1) E2).
    rewrite map_range_down. reflexivity.
  - apply Z.leb_le in E1. apply Z.leb_gt in E2.
    rewrite !boxCells_no_row by lia. rewrite app_nil_r.
    unfold range_down. rewrite (range_up_empty t (b - 1)) by lia. reflexivity.
  - apply Z.leb_gt in E1. apply Z.leb_le in E2.
    rewrite !boxCells_no_column by lia. rewrite app_nil_r.
    unfold range_down. rewrite (range_up_empty (l + 1) r) by lia. reflexivity.
  - apply Z.leb_gt in E1.
    rewrite !boxCells_no_column by lia. reflexivity.
Qed.

(** One clockwise round does the same in the other direction. *)
Lemma cwRound_ring (b : bounds) (result : list A) :
  b.(top) <= b.(bottom) -> b.(left) <= b.(right) ->
  let '(b', result') := cwRound get b result in
  Permutation (result' ++ boxCells get b') (result ++ boxCells get b)
  /\ rounds_left b' < rounds_left b.
Proof.
  destruct b as [t b l r]. cbn [top bottom left right]. intros Htb Hlr.
  unfold cwRound.
  assert (P1 := peel_top t b l r Htb).
  assert (P2 := peel_right (t + 1) b l r Hlr).
  destruct (t + 1 <=? b) eqn:E1; destruct (l <=? r - 1) eqn:E2;
    (split; [| unfold rounds_left; cbn [top bottom left right];
               try apply Z.leb_le in E1; try apply Z.leb_gt in E1;
               try apply Z.leb_le in E2; try apply Z.leb_gt in E2; lia]);
    rewrite <- ?app_assoc; apply Permutation_app_head;
    rewrite P1; apply Permutation_app_head;
    rewrite P2; apply Permutation_app_head.
  - apply Z.leb_le in E1. apply Z.leb_le in E2.
    rewrite (peel_bottom (t + 1) b l (r - 1) E1).
    rewrite map_range_down. apply Permutation_app_head.
    rewrite (peel_left (t + 1) (b - 1) l (r - 1) E2).
    rewrite map_range_down. reflexivity.
  - apply Z.leb_le in E1. apply Z.leb_gt in E2.
    rewrite !boxCells_no_column by lia. rewrite app_nil_r.
    unfold range_down. rewrite (range_up_empty l (r - 1)) by lia. reflexivity.
  - apply Z.leb_gt in E1. apply Z.leb_le in E2.
    rewrite !boxCells_no_row by lia. rewrite app_nil_r.
    unfold range_down. rewrite (range_up_empty (t + 1) b) by lia. reflexivity.
  - apply Z.leb_gt in E1.
    rewrite !boxCells_no_row by lia. reflexivity.
Qed.

(** With fuel for the rounds that are left, the loop ends by itself and has
    added to [result] the cells of the box, each once. *)
Lemma spiralLoop_box (fuel : nat) (counterClockwise : bool) :
  forall (b : bounds) (result : list A),
  rounds_left b <= Z.of_nat fuel ->
  Permutation (spiralLoop get fuel counterClockwise b result) (result ++ boxCells get b).
Proof.
  induction fuel as [|fuel IH]; intros b result Hfuel.
  - cbn [spiralLoop].
    assert (b.(bottom) < b.(top) \/ b.(right) < b.(left)) as [H|H]
      by (unfold rounds_left in Hfuel; lia);
      destruct b as [t b l r]; cbn [top bottom left right] in H.
    + rewrite boxCells_no_row by lia. now rewrite app_nil_r.
    + rewrite boxCells_no_column by lia. now rewrite app_nil_r.
  - cbn [spiralLoop].
    destruct ((b.(top) <=? b.(bottom)) && (b.(left) <=? b.(right))) eqn:E.
    + apply andb_true_iff in E as [E1 E2]. apply Z.leb_le in E1, E2.
      destruct counterClockwise.
      * pose proof (ccwRound_ring b result E1 E2) as R.
        destruct (ccwRound get b result) as [b' result'].
        destruct R as [R1 R2]. rewrite IH by lia. exact R1.
      * pose proof (cwRound_ring b result E1 E2) as R.
        destruct (cwRound get b result) as [b' result'].
        destruct R as [R1 R2]. rewrite IH by lia. exact R1.
    + apply andb_false_iff in E as [E|E]; apply Z.leb_gt in E;
        destruct b as [t b l r]; cbn [top bottom left right] in E.
      * rewrite boxCells_no_row by lia. now rewrite app_nil_r.
      * rewrite boxCells_no_column by lia. now rewrite app_nil_r.
Qed.

End SpiralBox.

Section SpiralMatrix.
Import Spiral.

Lemma map_seq_nth_error {X Y} (l : list X) (f : nat -> Y) (g : X -> Y) :
  (forall k x, nth_error l k = Some x -> f k = g x) ->
  map f (seq 0 (List.length l)) = map g l.
Proof.
  revert f. induction l as [|x l IH]; intros f H; [reflexivity|].
  cbn [List.length seq map]. f_equal; [apply (H 0%nat); reflexivity|].
  rewrite <- seq_shift, map_map. apply IH.
  intros k y Hk. apply (H (S k)). exact Hk.
Qed.

Lemma flat_map_seq_nth_error {X Y} (l : list X) (f : nat -> list Y) (g : X -> list Y) :
  (forall k x, nth_error l k = Some x -> f k = g x) ->
  flat_map f (seq 0 (List.length l)) = flat_map g l.
Proof.
  intros H. rewrite !flat_map_concat_map. f_equal. now apply map_seq_nth_error.
Qed.

(** The row of a rectangular matrix, read through [cell] over all columns. *)
Lemma cell_row (matrix : list (list Z)) (cols k : nat) (row : list Z) :
  nth_error matrix k = Some row -> List.length row = cols ->
  map (fun j => cell matrix (Z.of_nat k) j) (range_up 0 (Z.of_nat cols - 1))
  = map Some row.
Proof.
  intros Hk Hlen. rewrite range_up_nat, map_map. subst cols.
  apply map_seq_nth_error. intros j x Hj.
  unfold cell. replace ((Z.of_nat k <? 0) || (Z.of_nat j <? 0)) with false
    by (symmetry; apply orb_false_iff; split; apply Z.ltb_ge; lia).
  now rewrite !Nat2Z.id, Hk.
Qed.

(** The whole box of a rectangular matrix is the matrix, row by row. *)
Lemma box_of_matrix (matrix : list (list Z)) (cols : nat) :
  (forall row, In row matrix -> List.length row = cols) ->
  boxCells (cell matrix)
           (mkBounds 0 (Z.of_nat (List.length matrix) - 1) 0 (Z.of_nat cols - 1))
  = map Some (List.concat matrix).
Proof.
  intros Hrect. unfold boxCells. cbn [top bottom left right].
  rewrite (range_up_nat (List.length matrix)).
  rewrite flat_map_concat_map, map_map, <- flat_map_concat_map.
  rewrite (flat_map_seq_nth_error matrix _ (map Some)).
  - rewrite flat_map_concat_map, concat_map. reflexivity.
  - intros k row Hk. apply (cell_row matrix cols k row Hk).
    apply Hrect. eapply nth_error_In, Hk.
Qed.

Lemma concat_length_rect (matrix : list (list Z)) (cols : nat) :
  (forall row, In row matrix -> List.length row = cols) ->
  List.length (List.concat matrix) = (List.length matrix * cols)%nat.
Proof.
  induction matrix as [|row m IH]; intros H; [reflexivity|].
  cbn [List.concat List.length]. rewrite length_app, IH.
  - rewrite (H row) by now left. lia.
  - intros r Hr. apply H. now right.
Qed.

(** The cells the spiral writes are the cells of the matrix, each once. *)
Lemma spiralCells_permutation (matrix : list (list Z)) (counterClockwise : bool) (cols : nat) :
  (forall row, In row matrix -> List.length row = cols) ->
  Permutation (spiralCells matrix counterClockwise) (map Some (List.concat matrix)).
Proof.
  intros Hrect. unfold spiralCells. destruct matrix as [|row0 rest] eqn:Em; [reflexivity|].
  rewrite <- Em in *.
  assert (Hc : List.length row0 = cols) by (apply Hrect; rewrite Em; now left).
  rewrite Hc. rewrite spiralLoop_box.
  - cbn [app]. now rewrite (box_of_matrix matrix cols Hrect).
  - unfold rounds_left. cbn [top bottom left right]. lia.
Qed.

Lemma digit_string (n : Z) :
  0 <= n <= 9 -> Str.ofZ n = String (ascii_of_nat (Z.to_nat (48 + n))) EmptyString.
Proof.
  intros H.
  assert (E : forallb (fun d => String.eqb (Str.ofZ d)
                (String (ascii_of_nat (Z.to_nat (48 + d))) EmptyString)) digitRange = true)
    by (vm_compute; reflexivity).
  rewrite forallb_forall in E. apply String.eqb_eq, E, in_digitRange, H.
Qed.

(** Joining one-digit entries gives one character per entry. *)
Lemma join_digits (cells : list (option Z)) :
  Forall isDigitCell cells ->
  Str.join (map entryString cells) = string_of_list_ascii (map digitChar cells).
Proof.
  unfold Str.join. induction 1 as [|v cells Hv Hall IH]; [reflexivity|].
  destruct v as [n|]; [|contradiction]. cbn [isDigitCell] in Hv.
  cbn [map entryString digitChar string_of_list_ascii String.concat].
  rewrite (digit_string n Hv). rewrite <- IH.
  destruct (map entryString cells); reflexivity.
Qed.

Lemma chars_of_list (l : list ascii) : Str.chars (string_of_list_ascii l) = l.
Proof. apply list_ascii_of_string_of_list_ascii. Qed.

End SpiralMatrix.

(** C10.  For every non-empty rectangular matrix and either direction,
    [readSpiralMatrix] visits each cell exactly once: the cells the spiral
    writes are the cells of the matrix, each once, [rows * cols] of them;
    and for the matrices the code reads, whose cells are bits (any cells
    that print as one digit 0..9 will do), the returned string has
    [rows * cols] characters and is a rearrangement of the matrix's cell
    values read row by row. *)
Theorem C10_spiral_visits_each_cell_once
  (matrix : list (list Z)) (counterClockwise : bool) (cols : nat) :
  matrix <> [] ->
  (forall row, In row matrix -> List.length row = cols) ->
  Permutation (Spiral.spiralCells matrix counterClockwise) (map Some (List.concat matrix))
  /\ List.length (Spiral.spiralCells matrix counterClockwise)
     = (List.length matrix * cols)%nat
  /\ ((forall v, In v (List.concat matrix) -> 0 <= v <= 9) ->
      String.length (Spiral.readSpiralMatrix matrix counterClockwise)
      = (List.length matrix * cols)%nat
      /\ Permutation (Str.chars (Spiral.readSpiralMatrix matrix counterClockwise))
                     (Str.chars (Str.join (map Str.ofZ (List.concat matrix))))).
Proof.
  intros _ Hrect.
  pose proof (spiralCells_permutation matrix counterClockwise cols Hrect) as P.
  assert (L : List.length (Spiral.spiralCells matrix counterClockwise)
              = (List.length matrix * cols)%nat).
  { rewrite (Permutation_length P), length_map. now apply concat_length_rect. }
  split; [exact P|]. split; [exact L|]. intros Hdigits.
  assert (D0 : Forall isDigitCell (map Some (List.concat matrix))).
  { apply Forall_forall. intros v Hv. apply in_map_iff in Hv as [n [<- Hn]].
    apply Hdigits, Hn. }
  assert (D : Forall isDigitCell (Spiral.spiralCells matrix counterClockwise)).
  { apply Forall_forall. intros v Hv. rewrite Forall_forall in D0.
    apply D0. eapply Permutation_in; [exact P | exact Hv]. }
  unfold Spiral.readSpiralMatrix. rewrite (join_digits _ D). split.
  - now rewrite string_of_list_length, length_map.
  - rewrite chars_of_list.
    replace (map Str.ofZ (List.concat matrix))
      with (map Spiral.entryString (map Some (List.concat matrix)))
      by (rewrite map_map; reflexivity).
    rewrite (join_digits _ D0), chars_of_list.
    apply Permutation_map, P.
Qed.

Lemma C10_spiral_visits_each_cell_once_witness :
  Permutation (Spiral.spiralCells [[1; 0; 1]; [0; 0; 1]] true)
              (map Some (List.concat [[1; 0; 1]; [0; 0; 1]]))
  /\ String.length (Spiral.readSpiralMatrix [[1; 0; 1]; [0; 0; 1]] true) = (2 * 3)%nat
  /\ Permutation (Str.chars (Spiral.readSpiralMatrix [[1; 0; 1]; [0; 0; 1]] true))
                 (Str.chars (Str.join (map Str.ofZ (List.concat [[1; 0; 1]; [0; 0; 1]])))).
Proof.
  destruct (C10_spiral_visits_each_cell_once [[1; 0; 1]; [0; 0; 1]] true 3)
    as [P [_ S]].
  - discriminate.
  - intros row [<- | [<- | []]]; reflexivity.
  - split; [exact P|]. apply S. cbn [List.concat app]. intros v Hv.
    repeat (destruct Hv as [<- | Hv]; [lia|]). contradiction.
Defined.

(** ** ROT13, Caesar and Atbash *)

Section SubstitutionCiphers.
Import Substitution.

Lemma map_chars_compose (f g : ascii -> ascii) (s : string) :
  Str.map_chars f (Str.map_chars g s) = Str.map_chars (fun c => f (g c)) s.
Proof. induction s as [|c s IH]; simpl; [reflexivity | now rewrite IH]. Qed.

Lemma map_chars_ext (f g : ascii -> ascii) (s : string) :
  (forall c, f c = g c) -> Str.map_chars f s = Str.map_chars g s.
Proof. intros H. induction s as [|c s IH]; simpl; [reflexivity | now rewrite H, IH]. Qed.

Lemma map_chars_id (f : ascii -> ascii) (s : string) :
  (forall c, f c = c) -> Str.map_chars f s = s.
Proof. intros H. induction s as [|c s IH]; simpl; [reflexivity | now rewrite H, IH]. Qed.

(** X1.  [rot13] undoes itself on every text. *)
Theorem rot13_involutive (text : string) : rot13 (rot13 text) = text.
Proof.
  unfold rot13, replaceLetters. rewrite map_chars_compose. apply map_chars_id.
  intros c. apply Ascii.eqb_eq. revert c. apply forall_ascii.
  vm_compute. reflexivity.
Qed.

(** X2.  [atbashCipher] undoes itself on every text. *)
Theorem atbash_involutive (text : string) : atbashCipher (atbashCipher text) = text.
Proof.
  unfold atbashCipher, replaceLetters. rewrite map_chars_compose. apply map_chars_id.
  intros c. apply Ascii.eqb_eq. revert c. apply forall_ascii.
  vm_compute. reflexivity.
Qed.

(** The normalised shift is the shift modulo 26, also for negative shifts. *)
Lemma normalizedShift_mod (shift : Z) : Z.rem (Z.rem shift 26 + 26) 26 = shift mod 26.
Proof.
  pose proof (Z.quot_rem' shift 26) as Hq.
  assert (Hr : -26 < Z.rem shift 26 < 26).
  { pose proof (Z.rem_bound_abs shift 26 ltac:(lia)). lia. }
  rewrite Z.rem_mod_nonneg by lia.
  replace (Z.rem shift 26 + 26) with (shift + (1 - shift ÷ 26) * 26) by lia.
  apply Z_mod_plus_full.
Qed.

Lemma caesarCipher_chars (text : string) (shift : Z) :
  caesarCipher text shift = Str.map_chars (caesarChar (shift mod 26)) text.
Proof.
  unfold caesarCipher, replaceLetters. rewrite normalizedShift_mod. reflexivity.
Qed.

(** A shifted letter is a letter of the same case, [n] places further in
    its alphabet. *)
Lemma caesarChar_letter (n : Z) (c : ascii) :
  0 <= n <= 25 -> is_ascii_letter c = true ->
  is_ascii_letter (caesarChar n c) = true
  /\ base (caesarChar n c) = base c
  /\ Str.code (caesarChar n c) - base c = (Str.code c - base c + n) mod 26.
Proof.
  intros Hn Hc.
  assert (H : forallb (fun c => forallb (fun n =>
                implb (is_ascii_letter c)
                  (is_ascii_letter (caesarChar n c)
                   && (base (caesarChar n c) =? base c)
                   && (Str.code (caesarChar n c) - base c =? (Str.code c - base c + n) mod 26)))
                keyRange) all_ascii = true) by (vm_compute; reflexivity).
  pose proof (forall_ascii _ H c) as H'. cbv beta in H'.
  rewrite forallb_forall in H'. specialize (H' n (in_keyRange n Hn)).
  rewrite Hc in H'. cbn [implb] in H'.
  apply andb_true_iff in H' as [H' H3]. apply andb_true_iff in H' as [H1 H2].
  apply Z.eqb_eq in H2, H3. auto.
Qed.

Lemma caesarChar_compose (n m : Z) (c : ascii) :
  0 <= n <= 25 -> 0 <= m <= 25 ->
  caesarChar m (caesarChar n c) = caesarChar ((n + m) mod 26) c.
Proof.
  intros Hn Hm.
  destruct (is_ascii_letter c) eqn:Hc.
  - destruct (caesarChar_letter n c Hn Hc) as [L [B O]].
    unfold caesarChar at 1. rewrite L, B, O.
    unfold caesarChar. rewrite Hc.
    pose proof (Z.mod_pos_bound (Str.code c - base c + n) 26 ltac:(lia)).
    pose proof (Z.mod_pos_bound (n + m) 26 ltac:(lia)).
    assert (Hoff : 0 <= Str.code c - base c).
    { unfold base. destruct (Str.code c <=? Str.code "Z") eqn:E.
      - unfold is_ascii_letter, Str.is_lower, Str.is_upper, Str.in_range in Hc.
        apply Z.leb_le in E. change (Str.code "Z") with 90 in *.
        change (Str.code "A") with 65 in Hc. change (Str.code "a") with 97 in Hc.
        change (Str.code "z") with 122 in Hc. lia.
      - unfold is_ascii_letter, Str.is_lower, Str.is_upper, Str.in_range in Hc.
        apply Z.leb_gt in E. change (Str.code "Z") with 90 in *.
        change (Str.code "A") with 65 in Hc. change (Str.code "a") with 97 in Hc.
        change (Str.code "z") with 122 in Hc. lia. }
    rewrite !Z.rem_mod_nonneg by lia.
    rewrite Zplus_mod_idemp_l, Zplus_mod_idemp_r.
    do 2 f_equal. f_equal. lia.
  - unfold caesarChar. now rewrite Hc, Hc.
Qed.

Lemma caesarChar_zero (c : ascii) : caesarChar 0 c = c.
Proof.
  apply Ascii.eqb_eq. revert c. apply forall_ascii. vm_compute. reflexivity.
Qed.

(** X3.  Caesar shifts add up: shifting by [s] and then by [t] is shifting by
    [s + t], for integer shifts, negative ones included, that a JavaScript
    number holds exactly together with their sum; so a shift of 0 or of any
    such multiple of 26 changes nothing and the shift [-s] undoes the shift
    [s]. *)
Theorem caesar_shifts_compose (text : string) (s t : Z) :
  safeInteger s -> safeInteger t -> safeInteger (s + t) ->
  caesarCipher (caesarCipher text s) t = caesarCipher text (s + t)
  /\ (safeInteger (26 * s) -> caesarCipher text (26 * s) = text)
  /\ caesarCipher (caesarCipher text s) (- s) = text.
Proof.
  intros _ _ _.
  assert (Hcomp : forall u v, caesarCipher (caesarCipher text u) v = caesarCipher text (u + v)).
  { intros u v. rewrite !caesarCipher_chars, map_chars_compose. apply map_chars_ext.
    intros c.
    pose proof (Z.mod_pos_bound u 26 ltac:(lia)).
    pose proof (Z.mod_pos_bound v 26 ltac:(lia)).
    rewrite caesarChar_compose by lia.
    now rewrite <- Zplus_mod. }
  assert (Hzero : forall u, caesarCipher text (26 * u) = text).
  { intros u. rewrite caesarCipher_chars.
    replace ((26 * u) mod 26) with 0 by (symmetry; rewrite Z.mul_comm; apply Z_mod_mult).
    apply map_chars_id, caesarChar_zero. }
  split; [apply Hcomp|]. split; [intros _; apply Hzero|].
  rewrite Hcomp. replace (s + - s) with (26 * 0) by lia. apply Hzero.
Qed.

Lemma caesar_shifts_compose_witness :
  caesarCipher (caesarCipher "Hello, World!" (-3)) 29 = caesarCipher "Hello, World!" (-3 + 29).
Proof.
  apply (caesar_shifts_compose "Hello, World!" (-3) 29); unfold safeInteger; lia.
Defined.

End SubstitutionCiphers.

Section VigenereOtherWay.
Import Ciphers.

Lemma vigenere_letter_back :
  forallb (fun c => forallb (letterCheck vigenereDec vigenereEnc c) keyRange) all_ascii = true.
Proof. vm_compute. reflexivity. Qed.

Lemma vigenereLoop_inverse_back (nk : string) (text : list ascii) :
  Str.all_chars Str.is_upper nk = true -> String.length nk <> 0%nat ->
  forall i, 0 <= i ->
  vigenereLoop nk false (Str.chars (vigenereLoop nk true text i)) i
  = string_of_list_ascii text.
Proof.
  intros nk_upper nk_nonempty.
  induction text as [|c rest IH]; intros i Hi; [reflexivity|].
  rewrite vigenereLoop_cons.
  destruct (letterIndex c =? -1) eqn:E; cbn [negb].
  - change (Str.chars (String c ?s)) with (c :: Str.chars s).
    rewrite vigenereLoop_cons, E. cbn [negb string_of_list_ascii].
    now rewrite IH.
  - apply Z.eqb_neq in E.
    destruct (letterCheck_all _ _ vigenere_letter_back c (keyCharIndexAt nk i)
                (keyCharIndexAt_range nk i nk_upper nk_nonempty Hi) E)
      as [c' [H1 [H2 H3]]].
    rewrite H1. cbn [append].
    change (Str.chars (String c' ?s)) with (c' :: Str.chars s).
    rewrite vigenereLoop_cons. apply Z.eqb_neq in H2. rewrite H2. cbn [negb].
    rewrite H3. cbn [append string_of_list_ascii].
    rewrite IH by lia. reflexivity.
Qed.

End VigenereOtherWay.

(** X4.  Encrypting what [vigenereCipher] decrypted gives the text back as well,
    for every ASCII text and every key with one of the letters a-z and A-Z:
    the two directions are inverse both ways. *)
Theorem vigenere_encrypt_after_decrypt (x k : string) :
  Str.all_chars Str.is_ascii x = true ->
  Ciphers.normalizeKey k <> ""%string ->
  Ciphers.vigenereCipher (Ciphers.vigenereCipher x k true) k false = x.
Proof.
  intros _ Hk. unfold Ciphers.vigenereCipher.
  assert (Hlen : String.length (Ciphers.normalizeKey k) <> 0%nat)
    by (destruct (Ciphers.normalizeKey k); [contradiction | discriminate]).
  apply Nat.eqb_neq in Hlen as Hlen'. rewrite Hlen'.
  rewrite vigenereLoop_inverse_back; auto using normalizeKey_upper; try lia.
  apply of_chars.
Qed.

Lemma vigenere_encrypt_after_decrypt_witness :
  Ciphers.vigenereCipher (Ciphers.vigenereCipher "Lxfopv ef rnhr" "lemon" true) "lemon" false
  = "Lxfopv ef rnhr"%string.
Proof.
  apply vigenere_encrypt_after_decrypt; [reflexivity | vm_compute; discriminate].
Defined.

(** ** Hex and binary text codecs *)

Section HexCodec.
Import Codec.

Lemma hexOfChar_facts (c : ascii) :
  exists h l,
    hexOfChar c = String h (String l EmptyString)
    /\ Keys.is_hex_char h = true /\ Keys.is_hex_char l = true
    /\ Str.is_space h = false /\ Str.is_space l = false
    /\ (Ascii.eqb l "x" || Ascii.eqb l "X") = false
    /\ fromCharCode (parseInt (String h (String l EmptyString)) 16) = c.
Proof.
  assert (H : forallb hexOfCharCheck all_ascii = true) by (vm_compute; reflexivity).
  pose proof (forall_ascii _ H c) as Hc. unfold hexOfCharCheck in Hc.
  destruct (hexOfChar c) as [|h [|l [|? ?]]]; try (exfalso; inversion Hc; fail).
  exists h, l. split; [reflexivity|].
  repeat (apply andb_true_iff in Hc as [Hc ?]).
  repeat match goal with
         | H : negb _ = true |- _ => apply negb_true_iff in H
         end.
  repeat split; auto. now apply Ascii.eqb_eq.
Qed.

Lemma asciiToHex_cons (c : ascii) (rest : string) :
  asciiToHex (String c rest) = (hexOfChar c ++ asciiToHex rest)%string.
Proof. reflexivity. Qed.

(** What [asciiToHex] writes is clean hex of even length that [hexPairs]
    reads back. *)
Lemma asciiToHex_facts (text : string) :
  Str.strip Str.is_space (asciiToHex text) = asciiToHex text
  /\ strip0x (asciiToHex text) = asciiToHex text
  /\ Str.all_chars Keys.is_hex_char (asciiToHex text) = true
  /\ String.length (asciiToHex text) = (2 * String.length text)%nat
  /\ hexPairs (Str.chars (asciiToHex text)) = text.
Proof.
  induction text as [|c rest IH]; [repeat split|].
  destruct IH as [I1 [I2 [I3 [I4 I5]]]].
  destruct (hexOfChar_facts c) as [h [l [E [Hh [Hl [Sh [Sl [Xl P]]]]]]]].
  rewrite asciiToHex_cons, E. cbn [append].
  split; [|split; [|split; [|split]]].
  - cbn [Str.strip]. now rewrite Sh, Sl, I1.
  - cbn [strip0x]. destruct (Ascii.eqb h "0"); cbn [andb]; [now rewrite Xl | reflexivity].
  - cbn [Str.all_chars]. now rewrite Hh, Hl, I3.
  - cbn [String.length]. rewrite I4. lia.
  - change (Str.chars (String h (String l ?s))) with (h :: l :: Str.chars s).
    cbn [hexPairs]. now rewrite P, I5.
Qed.

End HexCodec.

(** X5.  [hexToAscii] reads back what [asciiToHex] wrote, for every text but the
    empty one: its hex is the empty string, which [hexToAscii] refuses. *)
Theorem hexToAscii_asciiToHex (text : string) :
  Codec.hexToAscii (Codec.asciiToHex text)
  = if Nat.eqb (String.length text) 0 then "Error: Invalid hexadecimal input"%string
    else text.
Proof.
  destruct (asciiToHex_facts text) as [F1 [F2 [F3 [F4 F5]]]].
  unfold Codec.hexToAscii. rewrite F1, F2, F3, F4.
  destruct text as [|c rest]; [reflexivity|].
  cbn [String.length Nat.eqb].
  replace (Nat.eqb (2 * S (String.length rest)) 0) with false
    by (symmetry; apply Nat.eqb_neq; lia).
  cbn [negb andb].
  replace (Nat.modulo (2 * S (String.length rest)) 2) with 0%nat
    by (symmetry; rewrite Nat.mul_comm; apply Nat.Div0.mod_mul).
  cbn [Nat.eqb negb]. exact F5.
Qed.

Section BinaryCodec.
Import Codec.

Lemma bitsOfChar_facts (c : ascii) :
  List.length (Str.chars (bitsOfChar c)) = 8%nat
  /\ Forall (fun b => Keys.is_bit_char b = true /\ Str.is_space b = false)
            (Str.chars (bitsOfChar c))
  /\ (printable c = true -> byteText (Str.chars (bitsOfChar c)) = String c EmptyString).
Proof.
  assert (H : forallb bitsOfCharCheck all_ascii = true) by (vm_compute; reflexivity).
  pose proof (forall_ascii _ H c) as Hc. unfold bitsOfCharCheck in Hc.
  apply andb_true_iff in Hc as [Hc H3]. apply andb_true_iff in Hc as [H1 H2].
  split; [now apply Nat.eqb_eq|]. split.
  - apply Forall_forall. intros b Hb. rewrite forallb_forall in H2.
    specialize (H2 b Hb). apply andb_true_iff in H2 as [Hbit Hsp].
    apply negb_true_iff in Hsp. split; assumption.
  - intros Hp. rewrite Hp in H3. cbn [implb] in H3. apply String.eqb_eq. exact H3.
Qed.

Lemma strip_trimStart (s : string) :
  Str.strip Str.is_space (Str.trimStart s) = Str.strip Str.is_space s.
Proof.
  induction s as [|c s IH]; [reflexivity|]. cbn [Str.trimStart Str.strip].
  destruct (Str.is_space c) eqn:E; [exact IH|]. cbn [Str.strip]. now rewrite E.
Qed.

Lemma strip_trimEnd (s : string) :
  Str.strip Str.is_space (Str.trimEnd s) = Str.strip Str.is_space s.
Proof.
  induction s as [|c s IH]; [reflexivity|]. cbn [Str.trimEnd Str.strip].
  destruct (Str.trimEnd s) as [|c' r] eqn:Er.
  - cbn [Str.strip] in IH. rewrite <- IH.
    destruct (Str.is_space c) eqn:E; [reflexivity|]. cbn [Str.strip]. now rewrite E.
  - cbn [Str.strip] in *. now rewrite IH.
Qed.

(** Whitespace inside or around a text does not matter to what is left once
    it is stripped. *)
Lemma strip_trim (s : string) :
  Str.strip Str.is_space (Str.trim s) = Str.strip Str.is_space s.
Proof. unfold Str.trim. now rewrite strip_trimEnd, strip_trimStart. Qed.

Lemma strip_app_clean (s1 s2 : string) :
  Forall (fun b => Str.is_space b = false) (Str.chars s1) ->
  Str.strip Str.is_space (s1 ++ s2) = (s1 ++ Str.strip Str.is_space s2)%string.
Proof.
  induction s1 as [|c s1 IH]; intros H; [reflexivity|].
  inversion H as [|? ? Hc Hs]; subst. cbn [append Str.strip]. rewrite Hc.
  now rewrite IH.
Qed.

Lemma strip_asciiToBinaryLoop (text : string) :
  Str.strip Str.is_space (asciiToBinaryLoop text) = bitsOfText text.
Proof.
  induction text as [|c rest IH]; [reflexivity|].
  cbn [asciiToBinaryLoop bitsOfText]. fold (bitsOfChar c).
  destruct (bitsOfChar_facts c) as [_ [Hb _]].
  rewrite strip_app_clean.
  - cbn [append Str.strip]. change (Str.is_space " ") with true. cbn iota.
    now rewrite IH.
  - eapply Forall_impl; [|exact Hb]. cbv beta. tauto.
Qed.

Lemma chars_append (s1 s2 : string) :
  Str.chars (s1 ++ s2) = Str.chars s1 ++ Str.chars s2.
Proof.
  unfold Str.chars. induction s1 as [|c s1 IH]; simpl; [reflexivity | now rewrite IH].
Qed.

Lemma chars_bitsOfText (text : string) :
  Str.chars (bitsOfText text)
  = List.concat (map (fun c => Str.chars (bitsOfChar c)) (Str.chars text)).
Proof.
  induction text as [|c rest IH]; [reflexivity|].
  cbn [bitsOfText]. rewrite chars_append, IH. reflexivity.
Qed.

Lemma all_chars_append (cls : ascii -> bool) (s1 s2 : string) :
  Str.all_chars cls (s1 ++ s2) = Str.all_chars cls s1 && Str.all_chars cls s2.
Proof.
  induction s1 as [|c s1 IH]; [reflexivity|]. cbn [append Str.all_chars].
  now rewrite IH, andb_assoc.
Qed.

Lemma all_chars_of_Forall (cls : ascii -> bool) (s : string) :
  Forall (fun c => cls c = true) (Str.chars s) -> Str.all_chars cls s = true.
Proof.
  induction s as [|c s IH]; intros H; [reflexivity|].
  inversion H; subst. cbn [Str.all_chars]. rewrite IH by assumption.
  now rewrite andb_true_r.
Qed.

Lemma bitsOfText_bits (text : string) :
  Str.all_chars Keys.is_bit_char (bitsOfText text) = true.
Proof.
  induction text as [|c rest IH]; [reflexivity|].
  cbn [bitsOfText]. rewrite all_chars_append, IH, andb_true_r.
  apply all_chars_of_Forall. destruct (bitsOfChar_facts c) as [_ [Hb _]].
  eapply Forall_impl; [|exact Hb]. cbv beta. tauto.
Qed.

Lemma bitsOfText_length (text : string) :
  String.length (bitsOfText text) = (8 * String.length text)%nat.
Proof.
  induction text as [|c rest IH]; [reflexivity|].
  cbn [bitsOfText String.length].
  destruct (bitsOfChar_facts c) as [Hl _].
  rewrite <- (of_chars (bitsOfChar c ++ bitsOfText rest)), string_of_list_length.
  rewrite chars_append, length_app, Hl, chars_length, IH. lia.
Qed.

(** Cutting a concatenation of blocks of [n] entries gives the blocks back. *)
Lemma chunks_of_blocks {A} (n : nat) (blocks : list (list A)) :
  (0 < n)%nat -> Forall (fun b => List.length b = n) blocks ->
  forall fuel, (List.length blocks <= fuel)%nat ->
  Bytes.chunks_fuel fuel n (List.concat blocks) = blocks.
Proof.
  intros Hn. induction 1 as [|b bs Hb Hbs IH]; intros fuel Hf.
  - destruct fuel; reflexivity.
  - destruct fuel as [|fuel]; [simpl in Hf; lia|].
    cbn [List.concat]. destruct b as [|a b']; [simpl in Hb; lia|].
    cbn [app Bytes.chunks_fuel].
    change (a :: b' ++ List.concat bs) with ((a :: b') ++ List.concat bs).
    remember (a :: b') as B eqn:EB. clear EB.
    rewrite firstn_app, skipn_app. rewrite <- Hb.
    rewrite firstn_all, skipn_all, Nat.sub_diag. cbn [firstn skipn app].
    rewrite app_nil_r. f_equal. rewrite Hb.
    apply IH. simpl in Hf. lia.
Qed.

Lemma binaryChunks_bytes (text : list ascii) :
  Forall (fun c => printable c = true) text ->
  binaryChunks (map (fun c => Str.chars (bitsOfChar c)) text)
  = (string_of_list_ascii text, []).
Proof.
  induction 1 as [|c rest Hc Hrest IH]; [reflexivity|].
  cbn [map binaryChunks]. rewrite IH.
  destruct (bitsOfChar_facts c) as [Hl [_ Hp]].
  rewrite Hl, (Hp Hc). reflexivity.
Qed.

End BinaryCodec.

(** X6.  [binaryToAscii] reads back what [asciiToBinary] wrote, for every
    non-empty text of printable ASCII characters, line feeds and carriage
    returns. *)
Theorem binaryToAscii_asciiToBinary (text : string) :
  text <> ""%string ->
  Str.all_chars printable text = true ->
  Codec.binaryToAscii (Codec.asciiToBinary text) = text.
Proof.
  intros Hne Hp. unfold Codec.binaryToAscii, Codec.asciiToBinary.
  rewrite strip_trim, strip_asciiToBinaryLoop.
  assert (Hlen : String.length (bitsOfText text) = (8 * String.length text)%nat)
    by apply bitsOfText_length.
  assert (Hpos : String.length text <> 0%nat) by (destruct text; [contradiction | discriminate]).
  unfold Keys.re_binary. rewrite bitsOfText_bits, Hlen.
  replace (Nat.eqb (8 * String.length text) 0) with false
    by (symmetry; apply Nat.eqb_neq; lia).
  cbn [negb andb]. unfold Bytes.chunks.
  rewrite chars_bitsOfText, chunks_of_blocks.
  - rewrite binaryChunks_bytes by (apply all_chars_Forall, Hp).
    cbn [List.length Nat.ltb Nat.leb]. rewrite of_chars.
    apply Nat.eqb_neq in Hpos. now rewrite Hpos.
  - lia.
  - apply Forall_forall. intros b Hb. apply in_map_iff in Hb as [c [<- _]].
    now destruct (bitsOfChar_facts c).
  - rewrite <- chars_bitsOfText, chars_length, Hlen, length_map, chars_length. lia.
Qed.

Lemma binaryToAscii_asciiToBinary_witness :
  Codec.binaryToAscii (Codec.asciiToBinary "gsmg.io/the seed") = "gsmg.io/the seed"%string.
Proof.
  apply binaryToAscii_asciiToBinary; [discriminate | reflexivity].
Defined.

(** ** Parsing a matrix and writing it back *)

Section MatrixParsing.
Import Matrix.

Lemma strip_kept (cls : ascii -> bool) (s : string) :
  Forall (fun c => cls c = false) (Str.chars (Str.strip cls s)).
Proof.
  induction s as [|c s IH]; [constructor|]. cbn [Str.strip].
  destruct (cls c) eqn:E; [exact IH | constructor; assumption].
Qed.

Lemma bit_char_value (c : ascii) :
  Keys.is_bit_char c = true ->
  (Str.code c - 48 = 0 \/ Str.code c - 48 = 1)
  /\ Str.ofZ (Str.code c - 48) = String c EmptyString.
Proof.
  unfold Keys.is_bit_char. intros H. apply orb_true_iff in H as [H | H];
    apply Ascii.eqb_eq in H; subst c; split; auto.
Qed.

(** The values read from the input are bits. *)
Lemma bitValues_bits (input : string) :
  Forall (fun v => v = 0 \/ v = 1) (bitValues input).
Proof.
  unfold bitValues. apply Forall_map.
  eapply Forall_impl; [|apply strip_kept]. cbv beta. intros c Hc.
  apply negb_false_iff in Hc. now destruct (bit_char_value c Hc).
Qed.

Lemma valueAt_bit (values : list Z) (index : Z) :
  Forall (fun v => v = 0 \/ v = 1) values ->
  valueAt values index = 0 \/ valueAt values index = 1.
Proof.
  intros H. unfold valueAt. destruct (index <? 0); [now left|].
  destruct (nth_error values (Z.to_nat index)) as [v|] eqn:E; [|now left].
  rewrite Forall_forall in H. apply H. eapply nth_error_In, E.
Qed.

Lemma range_up_size (lo hi : Z) :
  List.length (Spiral.range_up lo hi) = Z.to_nat (hi - lo + 1).
Proof. unfold Spiral.range_up. now rewrite length_map, length_seq. Qed.

End MatrixParsing.

Lemma parseMatrix_length (input : string) (rows cols : Z) :
  List.length (Matrix.parseMatrix input rows cols) = Z.to_nat rows.
Proof. unfold Matrix.parseMatrix. rewrite length_map, range_up_size. lia. Qed.

Lemma parseMatrix_row (input : string) (rows cols : Z) (row : list Z) :
  In row (Matrix.parseMatrix input rows cols) ->
  List.length row = Z.to_nat cols /\ forall v, In v row -> v = 0 \/ v = 1.
Proof.
  unfold Matrix.parseMatrix. intros Hrow. apply in_map_iff in Hrow as [i [<- _]]. split.
  - rewrite length_map, range_up_size. lia.
  - intros v Hv. apply in_map_iff in Hv as [j [<- _]].
    apply valueAt_bit, bitValues_bits.
Qed.

(** X7.  [parseMatrix] always returns [rows] rows of [cols] entries, each 0 or 1,
    whatever the input holds: missing values are 0, other characters and
    values beyond [rows * cols] are ignored. *)
Theorem parseMatrix_shape (input : string) (rows cols : Z) :
  List.length (Matrix.parseMatrix input rows cols) = Z.to_nat rows
  /\ (forall row, In row (Matrix.parseMatrix input rows cols) ->
        List.length row = Z.to_nat cols /\ forall v, In v row -> v = 0 \/ v = 1).
Proof.
  split.
  - apply parseMatrix_length.
  - intros row Hrow. destruct (parseMatrix_row input rows cols row Hrow) as [Hl Hv].
    split; [exact Hl | exact Hv].
Qed.

Section MatrixRoundTrip.
Import Matrix.

Lemma join_cons (x : string) (l : list string) :
  Str.join (x :: l) = (x ++ Str.join l)%string.
Proof.
  unfold Str.join. destruct l as [|y l]; cbn [String.concat]; [|reflexivity].
  induction x as [|c x IH]; [reflexivity|]. cbn [append]. now rewrite <- IH.
Qed.

Lemma join_app (l1 l2 : list string) :
  Str.join (l1 ++ l2) = (Str.join l1 ++ Str.join l2)%string.
Proof.
  induction l1 as [|x l1 IH]; [reflexivity|].
  cbn [app]. rewrite !join_cons, IH.
  induction x as [|c x IHx]; [reflexivity|]. cbn [append]. now rewrite IHx.
Qed.

(** Joining the joined rows is joining all the cells, row by row. *)
Lemma matrixToBinary_concat (matrix : list (list Z)) :
  matrixToBinary matrix = Str.join (map Str.ofZ (List.concat matrix)).
Proof.
  unfold matrixToBinary. induction matrix as [|row m IH]; [reflexivity|].
  cbn [map List.concat]. rewrite join_cons, IH, map_app, join_app. reflexivity.
Qed.

Lemma range_up_shift (a n : Z) :
  Spiral.range_up a (a + n - 1) = map (fun j => a + j) (Spiral.range_up 0 (n - 1)).
Proof.
  unfold Spiral.range_up. rewrite map_map.
  replace (Z.to_nat (a + n - 1 - a + 1)) with (Z.to_nat (n - 1 - 0 + 1)) by lia.
  apply map_ext. intros k. lia.
Qed.

Lemma seq_from (a n : nat) : seq a n = map (Nat.add a) (seq 0 n).
Proof.
  induction a as [|a IH]; [symmetry; apply map_id|].
  rewrite <- seq_shift, IH, map_map. reflexivity.
Qed.

Lemma range_up_split (lo mid hi : Z) :
  lo <= mid -> mid <= hi + 1 ->
  Spiral.range_up lo hi = Spiral.range_up lo (mid - 1) ++ Spiral.range_up mid hi.
Proof.
  intros H1 H2. unfold Spiral.range_up.
  replace (Z.to_nat (hi - lo + 1))
    with (Z.to_nat (mid - 1 - lo + 1) + Z.to_nat (hi - mid + 1))%nat by lia.
  rewrite seq_app, map_app. f_equal.
  rewrite Nat.add_0_l, seq_from, map_map. apply map_ext. intros k. lia.
Qed.

(** The cells of the parsed matrix, row by row, are the first [rows * cols]
    values. *)
Lemma parseMatrix_cells (values : list Z) (cols : Z) (rows : nat) :
  0 <= cols ->
  flat_map (fun i => map (fun j => valueAt values (i * cols + j))
                         (Spiral.range_up 0 (cols - 1)))
           (map Z.of_nat (seq 0 rows))
  = map (valueAt values) (Spiral.range_up 0 (Z.of_nat rows * cols - 1)).
Proof.
  intros Hc. induction rows as [|rows IH].
  - cbn [seq map flat_map]. rewrite range_up_empty by lia. reflexivity.
  - rewrite seq_S, map_app, flat_map_app, IH. cbn [map flat_map Nat.add].
    rewrite app_nil_r.
    rewrite (range_up_split 0 (Z.of_nat rows * cols) (Z.of_nat (S rows) * cols - 1))
      by nia.
    rewrite map_app. f_equal.
    replace (Z.of_nat (S rows) * cols - 1) with (Z.of_nat rows * cols + cols - 1) by lia.
    rewrite range_up_shift, map_map. reflexivity.
Qed.

Lemma join_bit_chars (cs : list ascii) :
  Forall (fun c => Keys.is_bit_char c = true) cs ->
  Str.join (map Str.ofZ (map (fun c => Str.code c - 48) cs)) = string_of_list_ascii cs.
Proof.
  induction 1 as [|c cs Hc Hcs IH]; [reflexivity|].
  cbn [map]. rewrite join_cons, IH.
  destruct (bit_char_value c Hc) as [_ ->]. reflexivity.
Qed.

End MatrixRoundTrip.

(** With exactly [rows * cols] values, the cells of the parsed matrix are the
    values. *)
Lemma parseMatrix_concat (input : string) (rows cols : Z) :
  0 <= rows -> 0 <= cols ->
  Z.of_nat (List.length (Matrix.bitValues input)) = rows * cols ->
  List.concat (Matrix.parseMatrix input rows cols) = Matrix.bitValues input.
Proof.
  intros Hr Hc Hlen. unfold Matrix.parseMatrix.
  rewrite <- flat_map_concat_map.
  replace (rows - 1) with (Z.of_nat (Z.to_nat rows) - 1) by lia.
  rewrite (range_up_nat (Z.to_nat rows)), parseMatrix_cells by exact Hc.
  replace (Z.of_nat (Z.to_nat rows) * cols - 1)
    with (Z.of_nat (List.length (Matrix.bitValues input)) - 1) by lia.
  rewrite range_up_nat. set (values := Matrix.bitValues input).
  rewrite map_map.
  rewrite (map_seq_nth_error values (fun k => Matrix.valueAt values (Z.of_nat k))
             (fun v => v)).
  - apply map_id.
  - intros k v Hk. unfold Matrix.valueAt.
    replace (Z.of_nat k <? 0) with false by (symmetry; apply Z.ltb_ge; lia).
    now rewrite Nat2Z.id, Hk.
Qed.

(** X8.  Writing back a parsed matrix: when the input holds exactly
    [rows * cols] characters 0 or 1 (among any others), [matrixToBinary] of
    [parseMatrix] is the input with the other characters removed. *)
Theorem matrixToBinary_parseMatrix (input : string) (rows cols : Z) :
  0 <= rows -> 0 <= cols ->
  Z.of_nat (List.length (Matrix.bitValues input)) = rows * cols ->
  Matrix.matrixToBinary (Matrix.parseMatrix input rows cols)
  = Str.strip (fun c => negb (Keys.is_bit_char c)) input.
Proof.
  intros Hr Hc Hlen.
  rewrite matrixToBinary_concat, (parseMatrix_concat input rows cols Hr Hc Hlen).
  unfold Matrix.bitValues. rewrite join_bit_chars.
  - apply of_chars.
  - eapply Forall_impl; [|apply strip_kept]. cbv beta. intros c H.
    now apply negb_false_iff in H.
Qed.

Lemma matrixToBinary_parseMatrix_witness :
  Matrix.matrixToBinary (Matrix.parseMatrix "1 0 1, 0 1 1" 2 3) = "101011"%string.
Proof.
  apply (matrixToBinary_parseMatrix "1 0 1, 0 1 1" 2 3); [lia | lia | reflexivity].
Defined.

(** X9.  What the spiral-matrix endpoint computes: reading the parsed matrix in a
    spiral, in either direction, gives exactly [rows * cols] characters, all
    of them 0 or 1, and they are those of [matrixToBinary] rearranged. *)
Theorem spiral_of_parsed_matrix (input : string) (rows cols : Z) (counterClockwise : bool) :
  let matrix := Matrix.parseMatrix input rows cols in
  String.length (Spiral.readSpiralMatrix matrix counterClockwise)
  = (Z.to_nat rows * Z.to_nat cols)%nat
  /\ Str.all_chars Keys.is_bit_char (Spiral.readSpiralMatrix matrix counterClockwise) = true
  /\ Permutation (Str.chars (Spiral.readSpiralMatrix matrix counterClockwise))
                 (Str.chars (Matrix.matrixToBinary matrix)).
Proof.
  intros matrix.
  pose proof (parseMatrix_length input rows cols) as Hrows.
  pose proof (parseMatrix_row input rows cols) as Hrow.
  fold matrix in Hrows, Hrow.
  assert (Hrect : forall row, In row matrix -> List.length row = Z.to_nat cols)
    by (intros row H; now destruct (Hrow row H)).
  pose proof (spiralCells_permutation matrix counterClockwise _ Hrect) as P.
  assert (D0 : Forall isDigitCell (map Some (List.concat matrix))).
  { apply Forall_forall. intros v Hv. apply in_map_iff in Hv as [n [<- Hn]].
    apply in_concat in Hn as [row [Hin Hn]]. cbn [isDigitCell].
    destruct (Hrow row Hin) as [_ Hb]. destruct (Hb n Hn); lia. }
  assert (D : Forall isDigitCell (Spiral.spiralCells matrix counterClockwise)).
  { apply Forall_forall. intros v Hv. rewrite Forall_forall in D0.
    apply D0. eapply Permutation_in; [exact P | exact Hv]. }
  assert (B0 : Forall (fun c => Keys.is_bit_char c = true)
                      (map digitChar (map Some (List.concat matrix)))).
  { apply Forall_forall. intros c Hc. apply in_map_iff in Hc as [v [<- Hv]].
    apply in_map_iff in Hv as [n [<- Hn]].
    apply in_concat in Hn as [row [Hin Hn]].
    destruct (Hrow row Hin) as [_ Hb]. destruct (Hb n Hn) as [-> | ->]; reflexivity. }
  rewrite matrixToBinary_concat.
  replace (map Str.ofZ (List.concat matrix))
    with (map Spiral.entryString (map Some (List.concat matrix)))
    by (rewrite map_map; reflexivity).
  unfold Spiral.readSpiralMatrix.
  rewrite (join_digits _ D), (join_digits _ D0), !chars_of_list.
  assert (PC : Permutation (map digitChar (Spiral.spiralCells matrix counterClockwise))
                           (map digitChar (map Some (List.concat matrix))))
    by (apply Permutation_map, P).
  split; [|split; [|exact PC]].
  - rewrite string_of_list_length, length_map, (Permutation_length P), length_map.
    rewrite (concat_length_rect matrix _ Hrect), Hrows. reflexivity.
  - apply all_chars_of_Forall. rewrite chars_of_list.
    apply Forall_forall. intros c Hc. rewrite Forall_forall in B0.
    apply B0. eapply Permutation_in; [exact PC | exact Hc].
Qed.

(** ** Base58: what the encoder and the decoder do get right *)

Section Base58Encoder.
Import Base58.

Lemma le58_app (l1 l2 : list Z) :
  le58 (l1 ++ l2) = le58 l1 + 58 ^ Z.of_nat (List.length l1) * le58 l2.
Proof.
  induction l1 as [|d l1 IH].
  { cbn [app List.length Z.of_nat]. change (58 ^ 0) with 1. change (le58 []) with 0. lia. }
  cbn [app le58 fold_right List.length]. fold (le58 (l1 ++ l2)). fold (le58 l1).
  rewrite IH, Nat2Z.inj_succ, Z.pow_succ_r by lia. lia.
Qed.

(** The inner loop multiplies the number by 256 and adds the byte, up to the
    carry it leaves. *)
Lemma encode_digits_value (digits : list Z) :
  forall carry, 0 <= carry -> Forall isDigit58 digits ->
  let '(ds, c) := encode_digits digits carry in
  le58 ds + c * 58 ^ Z.of_nat (List.length digits) = carry + 256 * le58 digits
  /\ List.length ds = List.length digits /\ Forall isDigit58 ds /\ 0 <= c.
Proof.
  induction digits as [|d digits IH]; intros carry Hc Hd.
  - cbn. repeat split; auto; lia.
  - inversion Hd as [|? ? Hd0 Hds]; subst. unfold isDigit58 in Hd0.
    cbn [encode_digits].
    specialize (IH ((carry + d * 256) / 58) ltac:(apply Z.div_pos; lia) Hds).
    destruct (encode_digits digits ((carry + d * 256) / 58)) as [ds c].
    destruct IH as [V [L [F C]]].
    pose proof (Z.div_mod (carry + d * 256) 58 ltac:(lia)) as DM.
    pose proof (Z.mod_pos_bound (carry + d * 256) 58 ltac:(lia)) as MB.
    repeat split.
    + cbn [le58 fold_right List.length]. fold (le58 ds). fold (le58 digits).
      rewrite Nat2Z.inj_succ, Z.pow_succ_r by lia. nia.
    + cbn [List.length]. now rewrite L.
    + constructor; [exact MB | exact F].
    + exact C.
Qed.

Lemma encode_push_value (fuel : nat) :
  forall carry, 0 <= carry -> (Z.to_nat carry <= fuel)%nat ->
  le58 (encode_push fuel carry) = carry /\ Forall isDigit58 (encode_push fuel carry).
Proof.
  induction fuel as [|fuel IH]; intros carry Hc Hf.
  - cbn. split; [lia | constructor].
  - cbn [encode_push]. destruct (0 <? carry) eqn:E.
    + apply Z.ltb_lt in E.
      assert (Hq : 0 <= carry / 58 < carry).
      { split; [apply Z.div_pos; lia|]. apply Z.div_lt_upper_bound; lia. }
      destruct (IH (carry / 58) ltac:(lia) ltac:(lia)) as [V F].
      pose proof (Z.div_mod carry 58 ltac:(lia)).
      pose proof (Z.mod_pos_bound carry 58 ltac:(lia)) as MB.
      split; [|constructor; [exact MB | exact F]].
      cbn [le58 fold_right]. fold (le58 (encode_push fuel (carry / 58))). lia.
    + apply Z.ltb_ge in E. cbn. split; [lia | constructor].
Qed.

Lemma encode_byte_value (digits : list Z) (byte : Z) :
  0 <= byte -> Forall isDigit58 digits ->
  le58 (encode_byte digits byte) = byte + 256 * le58 digits
  /\ Forall isDigit58 (encode_byte digits byte).
Proof.
  intros Hb Hd. unfold encode_byte.
  pose proof (encode_digits_value digits byte Hb Hd) as H.
  destruct (encode_digits digits byte) as [ds c]. destruct H as [V [L [F C]]].
  destruct (encode_push_value (Z.to_nat c) c C ltac:(lia)) as [PV PF].
  split.
  - rewrite le58_app, PV, L. lia.
  - apply Forall_app. split; assumption.
Qed.

Lemma encode_fold_value (buffer : list Z) :
  forall digits, Forall (fun b => 0 <= b) buffer -> Forall isDigit58 digits ->
  le58 (fold_left encode_byte buffer digits)
  = fold_left (fun acc b => acc * 256 + b) buffer (le58 digits)
  /\ Forall isDigit58 (fold_left encode_byte buffer digits).
Proof.
  induction buffer as [|b buffer IH]; intros digits Hb Hd; [split; [reflexivity | exact Hd]|].
  inversion Hb as [|? ? Hb0 Hbs]; subst. cbn [fold_left].
  destruct (encode_byte_value digits b Hb0 Hd) as [V F].
  destruct (IH (encode_byte digits b) Hbs F) as [IV IF].
  split; [|exact IF]. rewrite IV, V. f_equal. lia.
Qed.

Lemma leading_zero_bytes_zeros (buffer : list Z) :
  Forall (fun d => d = 0) (leading_zero_bytes buffer).
Proof.
  induction buffer as [|b buffer IH]; [constructor|]. cbn [leading_zero_bytes].
  destruct (b =? 0); [constructor; auto | constructor].
Qed.

Lemma le58_zeros (l : list Z) : Forall (fun d => d = 0) l -> le58 l = 0.
Proof.
  induction 1 as [|d l Hd Hl IH]; [reflexivity|].
  cbn [le58 fold_right]. fold (le58 l). lia.
Qed.

(** The digits [base58Encode] ends with: all in 0..57, worth the buffer. *)
Lemma encode_all_digits (buffer : list Z) :
  Forall (fun b => 0 <= b) buffer ->
  let digits := fold_left encode_byte buffer [0] ++ leading_zero_bytes buffer in
  le58 digits = Bytes.be_value buffer /\ Forall isDigit58 digits.
Proof.
  intros Hb digits.
  assert (H0 : Forall isDigit58 [0]) by (repeat constructor; unfold isDigit58; lia).
  destruct (encode_fold_value buffer [0] Hb H0) as [V F].
  pose proof (leading_zero_bytes_zeros buffer) as Z0.
  split.
  - unfold digits. rewrite le58_app, (le58_zeros _ Z0), V.
    change (le58 [0]) with 0. unfold Bytes.be_value. lia.
  - apply Forall_app. split; [exact F|].
    eapply Forall_impl; [|exact Z0]. cbv beta. unfold isDigit58. lia.
Qed.

Lemma base58Char_facts (d : Z) :
  isDigit58 d ->
  Str.at_ BASE58_ALPHABET d = String (base58Char d) EmptyString
  /\ Str.indexOf BASE58_ALPHABET (base58Char d) = d.
Proof.
  intros Hd.
  assert (H : forallb (fun d => String.eqb (Str.at_ BASE58_ALPHABET d)
                                  (String (base58Char d) EmptyString)
                                && (Str.indexOf BASE58_ALPHABET (base58Char d) =? d))
                      base58Digits = true) by (vm_compute; reflexivity).
  rewrite forallb_forall in H.
  assert (Hin : In d base58Digits).
  { unfold base58Digits. replace d with (Z.of_nat (Z.to_nat d)) by (unfold isDigit58 in Hd; lia).
    apply in_map, in_seq. unfold isDigit58 in Hd. lia. }
  specialize (H d Hin). apply andb_true_iff in H as [H1 H2].
  split; [now apply String.eqb_eq | now apply Z.eqb_eq].
Qed.

(** The text written for a list of digits is one alphabet character each. *)
Lemma join_digits58 (digits : list Z) :
  Forall isDigit58 digits ->
  Str.join (map (Str.at_ BASE58_ALPHABET) digits)
  = string_of_list_ascii (map base58Char digits).
Proof.
  induction 1 as [|d digits Hd Hds IH]; [reflexivity|].
  cbn [map]. rewrite join_cons, IH. destruct (base58Char_facts d Hd) as [-> _].
  reflexivity.
Qed.

Lemma base58_read_digits (digits : list Z) :
  Forall isDigit58 digits ->
  forall acc,
  fold_left (fun acc c => acc * 58 + Str.indexOf BASE58_ALPHABET c)
            (map base58Char (rev digits)) acc
  = acc * 58 ^ Z.of_nat (List.length digits) + le58 digits.
Proof.
  induction 1 as [|d digits Hd Hds IH]; intros acc; [cbn; lia|].
  cbn [rev]. rewrite map_app, fold_left_app, IH. cbn [map fold_left].
  destruct (base58Char_facts d Hd) as [_ ->].
  cbn [le58 fold_right List.length]. fold (le58 digits).
  rewrite Nat2Z.inj_succ, Z.pow_succ_r by lia. lia.
Qed.

End Base58Encoder.

Lemma base58Encode_join (buffer : list Z) :
  Forall (fun b => 0 <= b) buffer ->
  Forall isDigit58 (rev (fold_left Base58.encode_byte buffer [0]
                         ++ Base58.leading_zero_bytes buffer))
  /\ Str.chars (Base58.base58Encode buffer)
     = map base58Char (rev (fold_left Base58.encode_byte buffer [0]
                            ++ Base58.leading_zero_bytes buffer)).
Proof.
  intros Hb. destruct (encode_all_digits buffer Hb) as [_ F].
  assert (Fr : Forall isDigit58
                 (rev (fold_left Base58.encode_byte buffer [0]
                       ++ Base58.leading_zero_bytes buffer)))
    by (apply Forall_rev, F).
  split; [exact Fr|].
  unfold Base58.base58Encode. now rewrite (join_digits58 _ Fr), chars_of_list.
Qed.

Lemma base58Encode_alphabet (buffer : list Z) :
  Forall (fun b => 0 <= b) buffer ->
  Forall (fun c => Str.indexOf Base58.BASE58_ALPHABET c <> -1)
         (Str.chars (Base58.base58Encode buffer)).
Proof.
  intros Hb. destruct (base58Encode_join buffer Hb) as [Fr ->].
  apply Forall_map. eapply Forall_impl; [|exact Fr]. cbv beta. intros d Hd.
  destruct (base58Char_facts d Hd) as [_ ->]. unfold isDigit58 in Hd. lia.
Qed.

(** X10.  [base58Encode] is a correct change of base: read as a number in base 58
    over the Bitcoin alphabet, its text is worth the bytes read as a number
    in base 256, and every character of it is in the alphabet. *)
Theorem base58Encode_value (buffer : list Z) :
  Forall (fun b => 0 <= b <= 255) buffer ->
  base58Value (Base58.base58Encode buffer) = Bytes.be_value buffer
  /\ Forall (fun c => Str.indexOf Base58.BASE58_ALPHABET c <> -1)
            (Str.chars (Base58.base58Encode buffer)).
Proof.
  intros Hb.
  assert (Hb' : Forall (fun b => 0 <= b) buffer)
    by (eapply Forall_impl; [|exact Hb]; cbv beta; lia).
  split; [|now apply base58Encode_alphabet].
  destruct (encode_all_digits buffer Hb') as [V F].
  destruct (base58Encode_join buffer Hb') as [_ Hj].
  unfold base58Value. rewrite Hj, (base58_read_digits _ F 0), V. lia.
Qed.

Lemma base58Encode_value_witness :
  base58Value (Base58.base58Encode [0; 1; 2; 255]) = Bytes.be_value [0; 1; 2; 255].
Proof.
  apply (base58Encode_value [0; 1; 2; 255]). repeat constructor; lia.
Defined.

Section Base58Decoder.
Import Base58.

Lemma decode_chars_valid (cs : list ascii) :
  Forall (fun c => Str.indexOf BASE58_ALPHABET c <> -1) cs ->
  forall bytes, exists bytes', decode_chars cs bytes = Returns bytes'.
Proof.
  induction 1 as [|c cs Hc Hcs IH]; intros bytes; [now exists bytes|].
  cbn [decode_chars]. apply Z.eqb_neq in Hc. rewrite Hc. apply IH.
Qed.

Lemma decode_chars_invalid (pre : list ascii) (c : ascii) (post : list ascii) :
  Forall (fun c => Str.indexOf BASE58_ALPHABET c <> -1) pre ->
  Str.indexOf BASE58_ALPHABET c = -1 ->
  forall bytes,
  decode_chars (pre ++ c :: post) bytes
  = Throws ("Invalid Base58 character: " ++ String c EmptyString)%string.
Proof.
  induction 1 as [|a pre Ha Hpre IH]; intros Hc bytes.
  - cbn [app decode_chars]. now rewrite Hc.
  - cbn [app decode_chars]. apply Z.eqb_neq in Ha. rewrite Ha. now apply IH.
Qed.

End Base58Decoder.

(** X11.  [base58Decode] returns bytes when every character is in the alphabet,
    and otherwise throws, naming the first character that is not; in
    particular it never throws on what [base58Encode] wrote. *)
Theorem base58Decode_throws_iff_invalid :
  (forall s, Forall (fun c => Str.indexOf Base58.BASE58_ALPHABET c <> -1) (Str.chars s) ->
     exists bytes, Base58.base58Decode s = Returns bytes)
  /\ (forall pre c post,
       Forall (fun c => Str.indexOf Base58.BASE58_ALPHABET c <> -1) (Str.chars pre) ->
       Str.indexOf Base58.BASE58_ALPHABET c = -1 ->
       Base58.base58Decode (pre ++ String c post)
       = Throws ("Invalid Base58 character: " ++ String c EmptyString)%string)
  /\ (forall buffer, Forall (fun b => 0 <= b <= 255) buffer ->
       exists bytes, Base58.base58Decode (Base58.base58Encode buffer) = Returns bytes).
Proof.
  assert (Hvalid : forall s,
            Forall (fun c => Str.indexOf Base58.BASE58_ALPHABET c <> -1) (Str.chars s) ->
            exists bytes, Base58.base58Decode s = Returns bytes).
  { intros s Hs. unfold Base58.base58Decode.
    destruct (decode_chars_valid _ Hs [0]) as [bytes ->]. cbn [bind]. eauto. }
  split; [exact Hvalid|]. split.
  - intros pre c post Hpre Hc. unfold Base58.base58Decode.
    rewrite chars_append. change (Str.chars (String c post)) with (c :: Str.chars post).
    rewrite (decode_chars_invalid _ c _ Hpre Hc). reflexivity.
  - intros buffer Hb. apply Hvalid, base58Encode_alphabet.
    eapply Forall_impl; [|exact Hb]. cbv beta. lia.
Qed.

Section Base58SmallValues.
Import Base58.

Lemma encode_zero_bytes (k : nat) : fold_left encode_byte (repeat 0 k) [0] = [0].
Proof. induction k as [|k IH]; [reflexivity | exact IH]. Qed.

Lemma leading_zero_bytes_repeat (k : nat) (v : Z) :
  v <> 0 -> leading_zero_bytes (repeat 0 k ++ [v]) = repeat 0 k.
Proof.
  intros Hv. induction k as [|k IH].
  - cbn. apply Z.eqb_neq in Hv. now rewrite Hv.
  - cbn [repeat app leading_zero_bytes]. cbn. now rewrite IH.
Qed.

Lemma rev_repeat {A} (a : A) (k : nat) : rev (repeat a k) = repeat a k.
Proof.
  induction k as [|k IH]; [reflexivity|]. cbn [repeat rev]. rewrite IH.
  clear IH. induction k as [|k IH]; [reflexivity|]. cbn [repeat app]. now rewrite IH.
Qed.

Lemma join_ones (k : nat) (l : list string) :
  Str.join (map (Str.at_ BASE58_ALPHABET) (repeat 0 k) ++ l)
  = (Str.repeat_char "1" k ++ Str.join l)%string.
Proof.
  induction k as [|k IH]; [reflexivity|].
  cbn [repeat map app]. rewrite join_cons, IH. reflexivity.
Qed.

(** Leading zero bytes only add leading characters 1 to the text of the
    last byte. *)
Lemma encode_zeros_then_byte (k : nat) (v : Z) :
  v <> 0 ->
  base58Encode (repeat 0 k ++ [v]) = (Str.repeat_char "1" k ++ base58Encode [v])%string.
Proof.
  intros Hv. unfold base58Encode.
  rewrite fold_left_app, encode_zero_bytes, (leading_zero_bytes_repeat k v Hv).
  replace (leading_zero_bytes [v]) with (@nil Z)
    by (cbn; apply Z.eqb_neq in Hv; now rewrite Hv).
  rewrite app_nil_r, rev_app_distr, rev_repeat, map_app, join_ones. reflexivity.
Qed.

Lemma chars_repeat_char (c : ascii) (k : nat) :
  Str.chars (Str.repeat_char c k) = repeat c k.
Proof. induction k as [|k IH]; [reflexivity|]. cbn. now rewrite <- IH. Qed.

Lemma decode_leading_ones (k : nat) (cs : list ascii) :
  decode_chars (repeat "1"%char k ++ cs) [0] = decode_chars cs [0]
  /\ leading_ones (repeat "1"%char k ++ cs) = repeat 0 k ++ leading_ones cs.
Proof.
  induction k as [|k [IH1 IH2]]; [split; reflexivity|].
  split.
  - cbn [repeat app decode_chars]. exact IH1.
  - cbn [repeat app leading_ones]. cbn. now rewrite IH2.
Qed.

Lemma singleByte_facts (v : Z) :
  1 <= v <= 255 ->
  decode_chars (Str.chars (base58Encode [v])) [0] = Returns [v]
  /\ leading_ones (Str.chars (base58Encode [v])) = [].
Proof.
  intros Hv.
  assert (H : forallb singleByteCheck nonzeroBytes = true) by (vm_compute; reflexivity).
  rewrite forallb_forall in H.
  assert (Hin : In v nonzeroBytes).
  { unfold nonzeroBytes. replace v with (Z.of_nat (Z.to_nat v)) by lia.
    apply in_map, in_seq. lia. }
  specialize (H v Hin). unfold singleByteCheck in H.
  destruct (decode_chars (Str.chars (base58Encode [v])) [0]) as [bytes | msg];
    [|exfalso; inversion H].
  apply andb_true_iff in H as [H H3]. apply andb_true_iff in H as [H1 H2].
  apply Nat.eqb_eq in H1, H3. apply Z.eqb_eq in H2.
  split.
  - destruct bytes as [|b [|? ?]]; try discriminate H1. cbn in H2. now subst b.
  - destruct (leading_ones (Str.chars (base58Encode [v]))); [reflexivity | discriminate H3].
Qed.

End Base58SmallValues.

(** X12.  Where the round trip does hold: a buffer made of any number of zero
    bytes followed by one non-zero byte comes back unchanged. *)
Theorem base58_roundtrip_single_byte (k : nat) (v : Z) :
  1 <= v <= 255 ->
  Base58.base58Decode (Base58.base58Encode (repeat 0 k ++ [v]))
  = Returns (repeat 0 k ++ [v]).
Proof.
  intros Hv. rewrite encode_zeros_then_byte by lia.
  unfold Base58.base58Decode. rewrite chars_append, chars_repeat_char.
  destruct (decode_leading_ones k (Str.chars (Base58.base58Encode [v]))) as [-> ->].
  destruct (singleByte_facts v Hv) as [-> ->]. cbn [bind].
  rewrite app_nil_r, rev_app_distr, rev_repeat. cbn [rev app].
  unfold Base58.Buffer_from. rewrite map_app. cbn [map].
  rewrite Z.mod_small by lia. f_equal. f_equal.
  clear. induction k as [|k IH]; [reflexivity|]. cbn [repeat map]. now rewrite IH.
Qed.

Lemma base58_roundtrip_single_byte_witness :
  Base58.base58Decode (Base58.base58Encode (repeat 0 3 ++ [200]))
  = Returns (repeat 0 3 ++ [200]).
Proof. apply (base58_roundtrip_single_byte 3 200). lia. Defined.

(** ** Addresses and key validation *)

Section AddressShape.
Import Base58.

(** A buffer that starts with a zero byte is written with a leading 1. *)
Lemma base58Encode_leading_zero (tail : list Z) :
  exists rest, base58Encode (0 :: tail) = String "1" rest.
Proof.
  unfold base58Encode. cbn [leading_zero_bytes Z.eqb].
  set (digits := fold_left encode_byte (0 :: tail) [0]).
  pose proof (leading_zero_bytes_zeros tail) as Hz.
  set (zs := leading_zero_bytes tail) in *.
  assert (Hrev : exists more, rev (digits ++ 0 :: zs) = 0 :: more).
  { rewrite rev_app_distr. cbn [rev].
    destruct (rev zs) as [|z more] eqn:E.
    - cbn [app]. eauto.
    - assert (Hz0 : z = 0).
      { assert (Hin : In z (rev zs)) by (rewrite E; now left).
        apply in_rev in Hin. rewrite Forall_forall in Hz. now apply Hz. }
      subst z. cbn [app]. eauto. }
  destruct Hrev as [more ->]. cbn [map]. rewrite join_cons.
  cbn. eauto.
Qed.

End AddressShape.

Lemma Returns_inj {A} (a b : A) : Returns a = Returns b -> a = b.
Proof. intros H. injection H as H. exact H. Qed.

Lemma base58Encode_version_zero (h cs : list Z) :
  exists rest, Base58.base58Encode (([0] ++ h) ++ cs) = String "1" rest.
Proof.
  change (([0] ++ h) ++ cs) with (0 :: (h ++ cs)).
  apply base58Encode_leading_zero.
Qed.

(** X13.  Every address [privateKeyToAddress] returns, compressed or not, starts
    with the character 1: the version byte 0 is a leading zero byte. *)
Theorem address_starts_with_1 (privateKeyHex : string) (compressed : bool) (address : string) :
  Keys.privateKeyToAddress privateKeyHex compressed = Returns address ->
  exists rest, address = String "1" rest.
Proof.
  unfold Keys.privateKeyToAddress.
  destruct (negb (Nat.eqb (String.length privateKeyHex) 64)); [discriminate|].
  destruct (Secp256k1.publicKey (Hex.Buffer_from_hex privateKeyHex)) as [pk | msg];
    cbv beta iota zeta delta [bind]; [|discriminate].
  intros H. apply Returns_inj in H. rewrite <- H. clear H.
  apply base58Encode_version_zero.
Qed.

Lemma address_starts_with_1_witness :
  exists rest, "1BgGZ9tcN4rm9KBzDn7KprQz87SZ26SAMH"%string = String "1" rest.
Proof.
  apply (address_starts_with_1 key_one true). vm_compute. reflexivity.
Defined.

(** X14.  [validateKeyForAddress] never throws and never matches in part: it
    reports [valid] exactly when the match type is not none, a compressed
    match means the compressed address is the target, an uncompressed match
    means the uncompressed address is the target and the compressed one is
    not, and a key that is not 64 characters long gives the error record. *)
Theorem validateKeyForAddress_consistent (privateKeyHex targetAddress : string) :
  let r := Validation.validateKeyForAddress privateKeyHex targetAddress in
  (Validation.valid r = true <-> Validation.matchType r <> Validation.MatchNone)
  /\ (Validation.matchType r = Validation.MatchCompressed ->
      Validation.generatedAddressCompressed r = targetAddress)
  /\ (Validation.matchType r = Validation.MatchUncompressed ->
      Validation.generatedAddressUncompressed r = targetAddress
      /\ Validation.generatedAddressCompressed r <> targetAddress)
  /\ (String.length privateKeyHex <> 64%nat ->
      r = Validation.mkValidation false
            "Error: Private key must be 64 hex characters (32 bytes)"
            "Error: Private key must be 64 hex characters (32 bytes)"
            Validation.MatchNone).
Proof.
  intros r. subst r. unfold Validation.validateKeyForAddress.
  assert (Hlen : String.length privateKeyHex <> 64%nat ->
                 forall c, Keys.privateKeyToAddress privateKeyHex c
                           = Throws "Private key must be 64 hex characters (32 bytes)").
  { intros H c. unfold Keys.privateKeyToAddress. apply Nat.eqb_neq in H. now rewrite H. }
  destruct (Keys.privateKeyToAddress privateKeyHex true) as [ca | msg] eqn:Ec; cbn [bind].
  - destruct (Keys.privateKeyToAddress privateKeyHex false) as [ua | msg] eqn:Eu; cbn [bind].
    + cbn [Validation.valid Validation.matchType Validation.generatedAddressCompressed
           Validation.generatedAddressUncompressed].
      assert (Hno : String.length privateKeyHex <> 64%nat -> False)
        by (intros H; rewrite (Hlen H true) in Ec; discriminate Ec).
      destruct (String.eqb_spec ca targetAddress) as [E1 | E1];
        destruct (String.eqb_spec ua targetAddress) as [E2 | E2]; cbn [orb].
      * split; [split; [discriminate | reflexivity]|].
        split; [intros _; exact E1|]. split; [discriminate|]. intros H. destruct (Hno H).
      * split; [split; [discriminate | reflexivity]|].
        split; [intros _; exact E1|]. split; [discriminate|]. intros H. destruct (Hno H).
      * split; [split; [discriminate | reflexivity]|].
        split; [discriminate|]. split; [intros _; split; assumption|].
        intros H. destruct (Hno H).
      * split; [split; [discriminate | intros H; exfalso; apply H; reflexivity]|].
        split; [discriminate|]. split; [discriminate|]. intros H. destruct (Hno H).
    + cbn [Validation.valid Validation.matchType].
      split; [split; [discriminate | intros H; exfalso; apply H; reflexivity]|].
      split; [discriminate|]. split; [discriminate|].
      intros H. rewrite (Hlen H true) in Ec. discriminate Ec.
  - cbn [Validation.valid Validation.matchType].
    split; [split; [discriminate | intros H; exfalso; apply H; reflexivity]|].
    split; [discriminate|]. split; [discriminate|].
    intros H. rewrite (Hlen H true) in Ec. injection Ec as <-. reflexivity.
Qed.

(** ** What [parsePrivateKey] returns *)

Section ParseResults.
Import Keys.

Lemma map_chars_length (f : ascii -> ascii) (s : string) :
  String.length (Str.map_chars f s) = String.length s.
Proof. induction s as [|c s IH]; simpl; [reflexivity | now rewrite IH]. Qed.

Lemma all_chars_map_chars (cls cls' : ascii -> bool) (f : ascii -> ascii) (s : string) :
  (forall c, cls c = true -> cls' (f c) = true) ->
  Str.all_chars cls s = true -> Str.all_chars cls' (Str.map_chars f s) = true.
Proof.
  intros H. induction s as [|c s IH]; [reflexivity|]. cbn [Str.all_chars Str.map_chars].
  intros Hs. apply andb_true_iff in Hs as [Hc Hs]. now rewrite (H c Hc), IH.
Qed.

Lemma lower_char_hex (c : ascii) :
  is_hex_char c = true -> is_lower_hex (Str.lower_char c) = true.
Proof.
  intros Hc.
  assert (H : forallb (fun c => implb (is_hex_char c) (is_lower_hex (Str.lower_char c)))
                      all_ascii = true) by (vm_compute; reflexivity).
  pose proof (forall_ascii _ H c) as H'. cbv beta in H'. rewrite Hc in H'. exact H'.
Qed.

Lemma zero_char_lower_hex (c : ascii) :
  (c = "0"%char -> is_lower_hex c = true)
  /\ (Str.is_digit c = true -> is_hex_char c = true)
  /\ (Str.is_digit c = true -> Str.lower_char c = c).
Proof.
  split; [intros ->; reflexivity|].
  assert (H : forallb (fun c => implb (Str.is_digit c)
                (is_hex_char c && Ascii.eqb (Str.lower_char c) c)) all_ascii = true)
    by (vm_compute; reflexivity).
  pose proof (forall_ascii _ H c) as H'. cbv beta in H'.
  split; intros Hd; rewrite Hd in H'; cbn [implb] in H';
    apply andb_true_iff in H' as [H1 H2]; [exact H1 | now apply Ascii.eqb_eq].
Qed.

Lemma hex_digit_facts (d : Z) :
  0 <= d <= 15 ->
  is_lower_hex (Hex.digit d) = true /\ Hex.hexval (Hex.digit d) = Some d.
Proof.
  intros Hd.
  assert (H : forallb (fun d => is_lower_hex (Hex.digit d)
                                && match Hex.hexval (Hex.digit d) with
                                   | Some v => v =? d
                                   | None => false
                                   end) hexDigitRange = true) by (vm_compute; reflexivity).
  rewrite forallb_forall in H.
  assert (Hin : In d hexDigitRange).
  { unfold hexDigitRange. replace d with (Z.of_nat (Z.to_nat d)) by lia.
    apply in_map, in_seq. lia. }
  specialize (H d Hin). apply andb_true_iff in H as [H1 H2]. split; [exact H1|].
  destruct (Hex.hexval (Hex.digit d)) as [v|]; [|discriminate H2].
  apply Z.eqb_eq in H2. now subst v.
Qed.

(** [buf.toString("hex")] writes two lower-case hex digits per byte. *)
Lemma toString_hex_shape (bytes : list Z) :
  Forall isByte bytes ->
  String.length (Hex.toString_hex bytes) = (2 * List.length bytes)%nat
  /\ Str.all_chars is_lower_hex (Hex.toString_hex bytes) = true.
Proof.
  induction 1 as [|b bytes Hb Hbs [IL IA]]; [split; reflexivity|].
  unfold isByte in Hb.
  assert (H1 : 0 <= b / 16 <= 15)
    by (split; [apply Z.div_pos; lia | apply Z.lt_succ_r, Z.div_lt_upper_bound; lia]).
  assert (H2 : 0 <= b mod 16 <= 15) by (pose proof (Z.mod_pos_bound b 16 ltac:(lia)); lia).
  destruct (hex_digit_facts _ H1) as [L1 _]. destruct (hex_digit_facts _ H2) as [L2 _].
  cbn [Hex.toString_hex String.length Str.all_chars List.length]. split.
  - rewrite IL. lia.
  - now rewrite L1, L2, IA.
Qed.

Lemma base58Decode_bytes (s : string) (decoded : list Z) :
  Base58.base58Decode s = Returns decoded -> Forall isByte decoded.
Proof.
  unfold Base58.base58Decode.
  destruct (Base58.decode_chars (Str.chars s) [0]) as [bytes | msg];
    cbv beta iota zeta delta [bind]; [|discriminate].
  intros H. apply Returns_inj in H. subst decoded.
  unfold Base58.Buffer_from. apply Forall_map, Forall_forall. intros b _.
  unfold isByte. apply Z.mod_pos_bound. lia.
Qed.

Lemma subarray_Forall {A} (P : A -> Prop) (l : list A) (a b : nat) :
  Forall P l -> Forall P (Bytes.subarray l a b).
Proof.
  intros H. unfold Bytes.subarray.
  assert (Hs : Forall P (skipn a l)).
  { rewrite <- (firstn_skipn a l) in H. now apply Forall_app in H. }
  rewrite <- (firstn_skipn (b - a) (skipn a l)) in Hs. now apply Forall_app in Hs.
Qed.

(** A key [wifToPrivateKey] returns is 32 bytes in hex. *)
Lemma wifToPrivateKey_shape (wif : string) (k : wif_key) :
  wifToPrivateKey wif = Returns k ->
  String.length (privateKey k) = 64%nat
  /\ Str.all_chars is_lower_hex (privateKey k) = true.
Proof.
  unfold wifToPrivateKey.
  destruct (Base58.base58Decode wif) as [decoded | msg] eqn:Ed;
    cbv beta iota zeta delta [bind]; [|discriminate].
  pose proof (base58Decode_bytes wif decoded Ed) as Hb.
  remember (Bytes.subarray decoded 0 (List.length decoded - 4)) as payload eqn:Ep.
  assert (Hp : Forall isByte payload) by (subst payload; now apply subarray_Forall).
  destruct (negb (bytes_eqb _ _)); [discriminate|].
  assert (Hkey : (33 <= List.length payload)%nat ->
                 String.length (Hex.toString_hex (Bytes.subarray payload 1 33)) = 64%nat
                 /\ Str.all_chars is_lower_hex
                      (Hex.toString_hex (Bytes.subarray payload 1 33)) = true).
  { intros Hl.
    destruct (toString_hex_shape (Bytes.subarray payload 1 33)
                (subarray_Forall _ _ _ _ Hp)) as [L A].
    split; [|exact A]. rewrite L. unfold Bytes.subarray.
    rewrite length_firstn, length_skipn. lia. }
  destruct (Nat.eqb (List.length payload) 34 && _) eqn:E34.
  - intros H. apply Returns_inj in H. subst k. cbn [privateKey].
    apply andb_true_iff in E34 as [E34 _]. apply Nat.eqb_eq in E34. apply Hkey. lia.
  - destruct (Nat.eqb (List.length payload) 33) eqn:E33; [|discriminate].
    intros H. apply Returns_inj in H. subst k. cbn [privateKey].
    apply Nat.eqb_eq in E33. apply Hkey. lia.
Qed.

Lemma hex_digits_lower (fuel : nat) :
  forall bn, 0 <= bn ->
  Forall (fun c => is_lower_hex c = true) (hex_digits fuel bn).
Proof.
  induction fuel as [|fuel IH]; intros bn Hbn; [constructor|].
  cbn [hex_digits]. destruct (bn <? 16) eqn:E.
  - apply Z.ltb_lt in E. constructor; [|constructor].
    apply hex_digit_facts. lia.
  - apply Forall_app. split; [apply IH, Z.div_pos; lia|].
    constructor; [|constructor]. apply hex_digit_facts.
    pose proof (Z.mod_pos_bound bn 16 ltac:(lia)). lia.
Qed.

(** [bn.toString(16)] has at most [k] digits below [16 ^ k]. *)
Lemma hex_digits_short (fuel : nat) :
  forall (k : nat) (bn : Z), 0 <= bn < 16 ^ Z.of_nat k ->
  (List.length (hex_digits fuel bn) <= Nat.max 1 k)%nat.
Proof.
  induction fuel as [|fuel IH]; intros k bn Hbn; [cbn [hex_digits List.length]; lia|].
  cbn [hex_digits]. destruct (bn <? 16) eqn:E; [cbn [List.length]; lia|].
  apply Z.ltb_ge in E. destruct k as [|k]; [cbn in Hbn; lia|].
  rewrite Nat2Z.inj_succ, Z.pow_succ_r in Hbn by lia.
  rewrite length_app. cbn [List.length].
  assert (H : 0 <= bn / 16 < 16 ^ Z.of_nat k)
    by (split; [apply Z.div_pos; lia | apply Z.div_lt_upper_bound; lia]).
  specialize (IH k (bn / 16) H).
  destruct k as [|k]; [cbn in H; assert (bn / 16 = 0) by lia;
                       assert (bn < 16) by (apply Z.div_small_iff in H0; lia); lia|].
  lia.
Qed.

Lemma toString16_shape (bn : Z) :
  0 <= bn ->
  Str.all_chars is_lower_hex (toString16 bn) = true
  /\ (bn < 2 ^ 256 -> (String.length (toString16 bn) <= 64)%nat).
Proof.
  intros Hbn. unfold toString16. split.
  - apply all_chars_of_Forall. rewrite chars_of_list. now apply hex_digits_lower.
  - intros Hlt. rewrite string_of_list_length.
    pose proof (hex_digits_short (S (Z.to_nat (Z.log2 bn))) 64 bn) as H.
    change (16 ^ Z.of_nat 64) with (2 ^ 256) in H. specialize (H ltac:(lia)). lia.
Qed.

Lemma repeat_char_length (c : ascii) (n : nat) : String.length (Str.repeat_char c n) = n.
Proof. induction n as [|n IH]; simpl; [reflexivity | now rewrite IH]. Qed.

Lemma string_append_length (s1 s2 : string) :
  String.length (s1 ++ s2) = (String.length s1 + String.length s2)%nat.
Proof. induction s1 as [|c s1 IH]; simpl; [reflexivity | now rewrite IH]. Qed.

Lemma padStart_shape (s : string) :
  (String.length s <= 64)%nat -> Str.all_chars is_lower_hex s = true ->
  String.length (Str.padStart 64 "0" s) = 64%nat
  /\ Str.all_chars is_lower_hex (Str.padStart 64 "0" s) = true.
Proof.
  intros Hl Ha. unfold Str.padStart. split.
  - rewrite string_append_length, repeat_char_length. lia.
  - rewrite all_chars_append, Ha, andb_true_r.
    induction (64 - String.length s)%nat as [|n IH]; [reflexivity|].
    cbn [Str.repeat_char Str.all_chars]. now rewrite IH.
Qed.

Lemma padStart_length_ge (n : nat) (c : ascii) (s : string) :
  String.length (Str.padStart n c s) = Nat.max n (String.length s).
Proof.
  unfold Str.padStart. rewrite string_append_length, repeat_char_length. lia.
Qed.

(** A string of [n] binary digits is worth less than [2 ^ n]. *)
Lemma binary_fold_bound (cs : list ascii) :
  forall acc, 0 <= acc ->
  Forall (fun c => is_bit_char c = true) cs ->
  0 <= fold_left (fun acc c => acc * 2 + (Str.code c - 48)) cs acc
    < (acc + 1) * 2 ^ Z.of_nat (List.length cs).
Proof.
  induction cs as [|c cs IH]; intros acc Hacc Hall.
  - simpl. lia.
  - inversion Hall as [|? ? Hc Hcs]; subst.
    destruct (bit_char_value c Hc) as [Hd _].
    cbn [fold_left List.length]. rewrite Nat2Z.inj_succ, Z.pow_succ_r by lia.
    specialize (IH (acc * 2 + (Str.code c - 48)) ltac:(lia) Hcs).
    assert (0 < 2 ^ Z.of_nat (List.length cs)) by (apply Z.pow_pos_nonneg; lia).
    nia.
Qed.

Lemma binary_value_bound (s : string) :
  Str.all_chars is_bit_char s = true -> (String.length s <= 256)%nat ->
  0 <= BigInt_of_digits 2 s < 2 ^ 256.
Proof.
  intros Hb Hl. unfold BigInt_of_digits.
  pose proof (binary_fold_bound (Str.chars s) 0 ltac:(lia) (all_chars_Forall _ _ Hb)) as B.
  rewrite chars_length in B.
  assert (2 ^ Z.of_nat (String.length s) <= 2 ^ 256) by (apply Z.pow_le_mono_r; lia).
  lia.
Qed.

(** The last three attempts of [parsePrivateKey]: bitstring, [0x] hex, or
    nothing. *)
Lemma fallback_result_ok (cleaned : string) :
  keyResultOk
    (if re_binary cleaned && Nat.leb (String.length cleaned) 256
     then mkParsed (Str.padStart 64 "0" (toString16 (BigInt_of_digits 2 cleaned)))
                   FmtBinary None
     else if re_0x cleaned
     then mkParsed (Str.toLowerCase (Str.padStart 64 "0" (Str.slice_from 2 cleaned)))
                   FmtHex None
     else mkParsed "" FmtUnknown (Some "Could not parse private key format"%string)).
Proof.
  destruct (re_binary cleaned && Nat.leb (String.length cleaned) 256) eqn:Eb.
  - left. apply andb_true_iff in Eb as [Eb El]. apply Nat.leb_le in El.
    unfold re_binary in Eb. apply andb_true_iff in Eb as [_ Eb].
    pose proof (binary_value_bound cleaned Eb El) as [B0 B1].
    destruct (toString16_shape _ B0) as [A L].
    destruct (padStart_shape _ (L B1) A) as [PL PA].
    cbn [error format privateKeyHex]. repeat split; auto. discriminate.
  - destruct (re_0x cleaned) eqn:Ex.
    + left. cbn [error format privateKeyHex].
      destruct cleaned as [|c0 [|c1 rest]]; try discriminate Ex.
      cbn [re_0x] in Ex. repeat (apply andb_true_iff in Ex as [Ex ?]).
      cbn [Str.slice_from].
      match goal with H : Nat.leb (String.length rest) 64 = true |- _ =>
        apply Nat.leb_le in H; rename H into Hl end.
      split; [reflexivity|]. split; [discriminate|]. unfold Str.toLowerCase. split.
      * rewrite map_chars_length, padStart_length_ge. lia.
      * apply (all_chars_map_chars is_hex_char); [apply lower_char_hex|].
        unfold Str.padStart. rewrite all_chars_append.
        match goal with H : Str.all_chars is_hex_char rest = true |- _ => rewrite H end.
        rewrite andb_true_r.
        induction (64 - String.length rest)%nat as [|n IH]; [reflexivity|].
        cbn [Str.repeat_char Str.all_chars]. now rewrite IH.
    + right. cbn [error format privateKeyHex]. repeat split; eauto.
Qed.

End ParseResults.

(** X15.  Whatever the input, [parsePrivateKey] returns either a key of exactly 64
    lower-case hex characters with its format and no error, or an empty key
    with the format unknown and an error text; so a parsed key always passes
    the length test of [privateKeyToAddress]. *)
Theorem parsePrivateKey_result (input : string) :
  keyResultOk (Keys.parsePrivateKey input).
Proof.
  unfold Keys.parsePrivateKey. cbv zeta.
  set (cleaned := Str.trim input).
  destruct (Keys.re_hex64 cleaned) eqn:E1.
  - left. cbn [Keys.error Keys.format Keys.privateKeyHex].
    unfold Keys.re_hex64 in E1. apply andb_true_iff in E1 as [El Ea].
    apply Nat.eqb_eq in El. split; [reflexivity|]. split; [discriminate|].
    unfold Str.toLowerCase. split.
    + now rewrite map_chars_length.
    + apply (all_chars_map_chars Keys.is_hex_char); [apply lower_char_hex | exact Ea].
  - destruct (Keys.re_wif cleaned) eqn:E2.
    + destruct (Keys.wifToPrivateKey cleaned) as [k | msg] eqn:Ew.
      * left. cbn [Keys.error Keys.format Keys.privateKeyHex].
        destruct (wifToPrivateKey_shape cleaned k Ew) as [L A].
        repeat split; auto. discriminate.
      * right. cbn [Keys.error Keys.format Keys.privateKeyHex]. repeat split; eauto.
    + destruct (Keys.re_decimal cleaned) eqn:E3; [|apply fallback_result_ok].
      destruct (Nat.leb (String.length (Str.padStart 64 "0"
                  (Keys.toString16 (Keys.BigInt_of_digits 10 cleaned)))) 64) eqn:E4;
        [|apply fallback_result_ok].
      left. cbn [Keys.error Keys.format Keys.privateKeyHex].
      apply Nat.leb_le in E4. rewrite padStart_length_ge in E4.
      unfold Keys.re_decimal in E3. apply andb_true_iff in E3 as [_ Ed].
      pose proof (decimal_value_bound cleaned Ed) as [B0 _].
      destruct (toString16_shape _ B0) as [A _].
      destruct (padStart_shape (Keys.toString16 (Keys.BigInt_of_digits 10 cleaned))
                  ltac:(lia) A) as [PL PA].
      repeat split; auto. discriminate.
Qed.

(** ** The number a parsed key stands for *)

Section ParsedNumbers.
Import Keys.

Lemma lower_hex_value (c : ascii) :
  is_lower_hex c = true -> exists v, Hex.hexval c = Some v.
Proof.
  intros Hc.
  assert (H : forallb (fun c => implb (is_lower_hex c)
                (match Hex.hexval c with Some _ => true | None => false end))
                all_ascii = true) by (vm_compute; reflexivity).
  pose proof (forall_ascii _ H c) as H'. cbv beta in H'. rewrite Hc in H'.
  destruct (Hex.hexval c) as [v|]; [now exists v | discriminate H'].
Qed.

Lemma value16_app (cs ds : list ascii) (acc : Z) :
  value16 (cs ++ ds) acc = value16 ds (value16 cs acc).
Proof. unfold value16. apply fold_left_app. Qed.

(** Reading back the digits of [bn.toString(16)] gives [bn]. *)
Lemma hex_digits_value (fuel : nat) :
  forall bn, 0 <= bn < 2 ^ Z.of_nat fuel -> value16 (hex_digits fuel bn) 0 = bn.
Proof.
  induction fuel as [|fuel IH]; intros bn Hbn.
  { change (2 ^ Z.of_nat 0) with 1 in Hbn. assert (bn = 0) by lia. now subst bn. }
  rewrite Nat2Z.inj_succ, Z.pow_succ_r in Hbn by lia.
  cbn [hex_digits]. destruct (bn <? 16) eqn:E.
  - apply Z.ltb_lt in E. destruct (hex_digit_facts bn ltac:(lia)) as [_ Hv].
    unfold value16. cbn [fold_left]. rewrite Hv. lia.
  - apply Z.ltb_ge in E.
    assert (Hm : 0 <= bn mod 16 <= 15)
      by (pose proof (Z.mod_pos_bound bn 16 ltac:(lia)); lia).
    destruct (hex_digit_facts _ Hm) as [_ Hv].
    rewrite value16_app, IH
      by (split; [apply Z.div_pos; lia | apply Z.div_lt_upper_bound; lia]).
    unfold value16. cbn [fold_left]. rewrite Hv.
    pose proof (Z.div_mod bn 16 ltac:(lia)). lia.
Qed.

Lemma toString16_value (bn : Z) :
  0 <= bn -> value16 (Str.chars (toString16 bn)) 0 = bn.
Proof.
  intros Hbn. unfold toString16. rewrite chars_of_list.
  apply hex_digits_value. split; [exact Hbn|].
  destruct (Z.eq_dec bn 0) as [->|Hne]; [reflexivity|].
  pose proof (Z.log2_spec bn ltac:(lia)) as L. pose proof (Z.log2_nonneg bn).
  rewrite Nat2Z.inj_succ, Z2Nat.id by lia. lia.
Qed.

(** [Buffer.from(s, "hex")] of an even number of hex digits is worth the
    digits read in base 16. *)
Lemma decode_chars_value (n : nat) :
  forall (cs : list ascii) (acc : Z),
  List.length cs = (2 * n)%nat ->
  Forall (fun c => is_lower_hex c = true) cs ->
  fold_left (fun acc b => acc * 256 + b) (Hex.decode_chars cs) acc = value16 cs acc.
Proof.
  induction n as [|n IH]; intros cs acc Hl Hall.
  - destruct cs; [reflexivity | discriminate Hl].
  - destruct cs as [|c1 [|c2 cs]]; try (cbn in Hl; lia).
    inversion Hall as [|? ? H1 Hall']; subst. inversion Hall' as [|? ? H2 Hcs]; subst.
    destruct (lower_hex_value c1 H1) as [x Hx]. destruct (lower_hex_value c2 H2) as [y Hy].
    cbn [Hex.decode_chars]. rewrite Hx, Hy. cbn [fold_left].
    rewrite IH by (cbn in Hl; lia || exact Hcs).
    unfold value16. cbn [fold_left]. rewrite Hx, Hy. f_equal. lia.
Qed.

Lemma chars_padStart (n : nat) (s : string) :
  Str.chars (Str.padStart n "0" s)
  = repeat "0"%char (n - String.length s) ++ Str.chars s.
Proof.
  unfold Str.padStart. rewrite chars_append. f_equal.
  induction (n - String.length s)%nat as [|k IH]; [reflexivity|].
  cbn [Str.repeat_char repeat]. change (Str.chars (String ?c ?r)) with (c :: Str.chars r).
  now rewrite IH.
Qed.

Lemma value16_zeros (k : nat) (cs : list ascii) :
  value16 (repeat "0"%char k ++ cs) 0 = value16 cs 0.
Proof.
  induction k as [|k IH]; [reflexivity|].
  cbn [repeat app]. unfold value16 in *. cbn [fold_left]. exact IH.
Qed.

(** A number below [2 ^ 256], written in hex and padded to 64 digits, is
    read back from the key. *)
Lemma keyValue_padded (bn : Z) :
  0 <= bn < 2 ^ 256 -> keyValue (Str.padStart 64 "0" (toString16 bn)) = bn.
Proof.
  intros [H0 H1]. destruct (toString16_shape bn H0) as [A L]. specialize (L H1).
  destruct (padStart_shape _ L A) as [PL PA].
  unfold keyValue, Bytes.be_value, Hex.Buffer_from_hex.
  rewrite (decode_chars_value 32).
  - rewrite chars_padStart, value16_zeros. now apply toString16_value.
  - now rewrite chars_length.
  - now apply all_chars_Forall.
Qed.

Lemma bit_string_decimal (s : string) : re_binary s = true -> re_decimal s = true.
Proof.
  unfold re_binary, re_decimal. intros H. apply andb_true_iff in H as [Hn Hb].
  rewrite Hn. cbn [andb]. apply all_chars_of_Forall.
  eapply Forall_impl; [|exact (all_chars_Forall _ _ Hb)]. cbv beta. intros c Hc.
  unfold is_bit_char in Hc. apply orb_true_iff in Hc as [Hc|Hc];
    apply Ascii.eqb_eq in Hc; subst c; reflexivity.
Qed.

Lemma fallback_format (cleaned : string) :
  format
    (if re_binary cleaned && Nat.leb (String.length cleaned) 256
     then mkParsed (Str.padStart 64 "0" (toString16 (BigInt_of_digits 2 cleaned)))
                   FmtBinary None
     else if re_0x cleaned
     then mkParsed (Str.toLowerCase (Str.padStart 64 "0" (Str.slice_from 2 cleaned)))
                   FmtHex None
     else mkParsed "" FmtUnknown (Some "Could not parse private key format"%string))
  <> FmtDecimal.
Proof.
  destruct (re_binary cleaned && Nat.leb (String.length cleaned) 256);
    [|destruct (re_0x cleaned)]; discriminate.
Qed.

Lemma fallback_binary (cleaned : string) :
  format
    (if re_binary cleaned && Nat.leb (String.length cleaned) 256
     then mkParsed (Str.padStart 64 "0" (toString16 (BigInt_of_digits 2 cleaned)))
                   FmtBinary None
     else if re_0x cleaned
     then mkParsed (Str.toLowerCase (Str.padStart 64 "0" (Str.slice_from 2 cleaned)))
                   FmtHex None
     else mkParsed "" FmtUnknown (Some "Could not parse private key format"%string))
  = FmtBinary ->
  re_binary cleaned = true /\ (String.length cleaned <= 256)%nat
  /\ keyValue
       (privateKeyHex
          (if re_binary cleaned && Nat.leb (String.length cleaned) 256
           then mkParsed (Str.padStart 64 "0" (toString16 (BigInt_of_digits 2 cleaned)))
                         FmtBinary None
           else if re_0x cleaned
           then mkParsed (Str.toLowerCase (Str.padStart 64 "0" (Str.slice_from 2 cleaned)))
                         FmtHex None
           else mkParsed "" FmtUnknown (Some "Could not parse private key format"%string)))
     = BigInt_of_digits 2 cleaned.
Proof.
  destruct (re_binary cleaned && Nat.leb (String.length cleaned) 256) eqn:Eb;
    [|destruct (re_0x cleaned); discriminate].
  intros _. apply andb_true_iff in Eb as [Eb El]. apply Nat.leb_le in El.
  split; [exact Eb|]. split; [exact El|]. cbn [privateKeyHex].
  apply keyValue_padded, binary_value_bound; [|exact El].
  unfold re_binary in Eb. now apply andb_true_iff in Eb as [_ Eb].
Qed.

End ParsedNumbers.

(** X16.  When [parsePrivateKey] reports the format decimal, the key it returns is
    the number the trimmed input writes in base ten, and that number is below
    [2 ^ 256]. *)
Theorem parsePrivateKey_decimal_value (input : string) :
  Keys.format (Keys.parsePrivateKey input) = Keys.FmtDecimal ->
  keyValue (Keys.privateKeyHex (Keys.parsePrivateKey input))
  = Keys.BigInt_of_digits 10 (Str.trim input)
  /\ Keys.BigInt_of_digits 10 (Str.trim input) < 2 ^ 256.
Proof.
  unfold Keys.parsePrivateKey. cbv zeta.
  set (cleaned := Str.trim input).
  destruct (Keys.re_hex64 cleaned); [discriminate|].
  destruct (Keys.re_wif cleaned);
    [destruct (Keys.wifToPrivateKey cleaned); discriminate|].
  destruct (Keys.re_decimal cleaned) eqn:E3;
    [|intros H; now apply fallback_format in H].
  destruct (Nat.leb (String.length (Str.padStart 64 "0"
              (Keys.toString16 (Keys.BigInt_of_digits 10 cleaned)))) 64) eqn:E4;
    [|intros H; now apply fallback_format in H].
  intros _. cbn [Keys.privateKeyHex].
  apply Nat.leb_le in E4. rewrite padStart_length_ge in E4.
  unfold Keys.re_decimal in E3. apply andb_true_iff in E3 as [_ Ed].
  pose proof (decimal_value_bound cleaned Ed) as [B0 _].
  assert (B1 : Keys.BigInt_of_digits 10 cleaned < 2 ^ 256).
  { destruct (Z.lt_ge_cases (Keys.BigInt_of_digits 10 cleaned) (2 ^ 256)) as [|Hge];
      [assumption|].
    pose proof (toString16_length _ Hge). lia. }
  split; [|exact B1]. apply keyValue_padded. split; assumption.
Qed.

Lemma parsePrivateKey_decimal_value_witness :
  keyValue (Keys.privateKeyHex (Keys.parsePrivateKey "  65537 "))
  = Keys.BigInt_of_digits 10 (Str.trim "  65537 ")
  /\ Keys.BigInt_of_digits 10 (Str.trim "  65537 ") < 2 ^ 256.
Proof. apply (parsePrivateKey_decimal_value "  65537 "). vm_compute. reflexivity. Defined.

(** X17.  [parsePrivateKey] reports the format binary only for a trimmed input of
    78 to 256 characters 0 and 1 that, read in base ten, does not fit 32
    bytes; the key is then the number the input writes in base two.  A
    shorter string of 0 and 1 is never read as binary. *)
Theorem parsePrivateKey_binary_value (input : string) :
  Keys.format (Keys.parsePrivateKey input) = Keys.FmtBinary ->
  keyValue (Keys.privateKeyHex (Keys.parsePrivateKey input))
  = Keys.BigInt_of_digits 2 (Str.trim input)
  /\ Keys.re_binary (Str.trim input) = true
  /\ (78 <= String.length (Str.trim input) <= 256)%nat
  /\ 2 ^ 256 <= Keys.BigInt_of_digits 10 (Str.trim input).
Proof.
  unfold Keys.parsePrivateKey. cbv zeta.
  set (cleaned := Str.trim input).
  destruct (Keys.re_hex64 cleaned); [discriminate|].
  destruct (Keys.re_wif cleaned);
    [destruct (Keys.wifToPrivateKey cleaned); discriminate|].
  destruct (Keys.re_decimal cleaned) eqn:E3.
  - destruct (Nat.leb (String.length (Str.padStart 64 "0"
                (Keys.toString16 (Keys.BigInt_of_digits 10 cleaned)))) 64) eqn:E4;
      [discriminate|].
    intros H. destruct (fallback_binary cleaned H) as [Hb [Hl Hv]].
    apply Nat.leb_gt in E4. rewrite padStart_length_ge in E4.
    pose proof E3 as E3'. unfold Keys.re_decimal in E3'.
    apply andb_true_iff in E3' as [_ Ed].
    pose proof (decimal_value_bound cleaned Ed) as [B0 _].
    assert (B1 : 2 ^ 256 <= Keys.BigInt_of_digits 10 cleaned).
    { destruct (Z.lt_ge_cases (Keys.BigInt_of_digits 10 cleaned) (2 ^ 256)) as [Hlt|];
        [|assumption].
      destruct (toString16_shape _ B0) as [_ L]. specialize (L Hlt). lia. }
    pose proof (overflow_length cleaned Ed B1).
    repeat split; auto.
  - intros H. destruct (fallback_binary cleaned H) as [Hb _].
    apply bit_string_decimal in Hb. rewrite Hb in E3. discriminate E3.
Qed.

Lemma parsePrivateKey_binary_value_witness :
  keyValue (Keys.privateKeyHex (Keys.parsePrivateKey ten_pow_78))
  = Keys.BigInt_of_digits 2 (Str.trim ten_pow_78)
  /\ Keys.re_binary (Str.trim ten_pow_78) = true
  /\ (78 <= String.length (Str.trim ten_pow_78) <= 256)%nat
  /\ 2 ^ 256 <= Keys.BigInt_of_digits 10 (Str.trim ten_pow_78).
Proof. apply (parsePrivateKey_binary_value ten_pow_78). vm_compute. reflexivity. Defined.

(** X18.  The hex test comes first: a string of exactly 64 decimal digits is
    returned as it is, with the format hex, and is never read in base ten. *)
Theorem parsePrivateKey_64_digits (s : string) :
  String.length s = 64%nat -> Str.all_chars Str.is_digit s = true ->
  Keys.parsePrivateKey s = Keys.mkParsed s Keys.FmtHex None.
Proof.
  intros Hl Hd. unfold Keys.parsePrivateKey. cbv zeta.
  rewrite (trim_digits s Hd).
  assert (Hh : Keys.re_hex64 s = true).
  { unfold Keys.re_hex64. rewrite Hl. cbn [Nat.eqb andb].
    apply all_chars_of_Forall.
    eapply Forall_impl; [|exact (all_chars_Forall _ _ Hd)]. cbv beta.
    intros c Hc. now apply (zero_char_lower_hex c). }
  rewrite Hh. f_equal. unfold Str.toLowerCase.
  clear Hl Hh. induction s as [|c s IH]; [reflexivity|].
  cbn [Str.all_chars] in Hd. apply andb_true_iff in Hd as [Hc Hs].
  cbn [Str.map_chars]. rewrite (IH Hs).
  destruct (zero_char_lower_hex c) as [_ [_ Hlow]]. now rewrite (Hlow Hc).
Qed.

Lemma parsePrivateKey_64_digits_witness :
  Keys.parsePrivateKey key_one = Keys.mkParsed key_one Keys.FmtHex None.
Proof. apply (parsePrivateKey_64_digits key_one); reflexivity. Defined.

(** ** Key derivation of [decryptAES256CBC] *)

Section KeyDerivation.
Variable md5 : list Z -> Z.
Variables password salt : list Z.

Lemma be_bytes_length (len : nat) (x : Z) : List.length (Bytes.be_bytes len x) = len.
Proof. induction len as [|len IH]; [reflexivity|]. cbn [Bytes.be_bytes List.length]. now rewrite IH. Qed.

Lemma md5_digest_length (data : list Z) : List.length (Aes.md5_digest md5 data) = 16%nat.
Proof. apply be_bytes_length. Qed.

(** The loop runs as many rounds as 16-byte digests are needed to reach the
    target, whatever fuel is left over. *)
Lemma evpLoop_chain (fuel : nat) :
  forall (digest : list Z) (md5Hashes : list (list Z)) (totalLen target : Z),
  target - totalLen <= Z.of_nat fuel ->
  Aes.evpLoop md5 fuel password salt digest md5Hashes totalLen target
  = md5Hashes ++ evpChain md5 password salt (Z.to_nat ((target - totalLen + 15) / 16)) digest.
Proof.
  induction fuel as [|fuel IH]; intros digest md5Hashes totalLen target Hf.
  - cbn [Aes.evpLoop].
    assert (H : (target - totalLen + 15) / 16 <= 0).
    { apply Z.lt_succ_r, Z.div_lt_upper_bound; lia. }
    replace (Z.to_nat ((target - totalLen + 15) / 16)) with 0%nat by lia.
    cbn [evpChain]. now rewrite app_nil_r.
  - cbn [Aes.evpLoop]. destruct (totalLen <? target) eqn:E.
    + apply Z.ltb_lt in E. cbv zeta. rewrite md5_digest_length.
      rewrite IH by lia.
      replace (target - totalLen + 15) with (target - (totalLen + Z.of_nat 16) + 15 + 1 * 16) by lia.
      rewrite Z.div_add by lia.
      assert (H : 0 <= (target - (totalLen + Z.of_nat 16) + 15) / 16)
        by (apply Z.div_pos; lia).
      replace (Z.to_nat ((target - (totalLen + Z.of_nat 16) + 15) / 16 + 1))
        with (S (Z.to_nat ((target - (totalLen + Z.of_nat 16) + 15) / 16))) by lia.
      cbn [evpChain]. now rewrite <- app_assoc.
    + apply Z.ltb_ge in E.
      assert (H : (target - totalLen + 15) / 16 <= 0).
      { apply Z.lt_succ_r, Z.div_lt_upper_bound; lia. }
      replace (Z.to_nat ((target - totalLen + 15) / 16)) with 0%nat by lia.
      cbn [evpChain]. now rewrite app_nil_r.
Qed.

Lemma evpChain_length (n : nat) :
  forall digest, List.length (List.concat (evpChain md5 password salt n digest)) = (16 * n)%nat.
Proof.
  induction n as [|n IH]; intros digest; [reflexivity|].
  cbn [evpChain List.concat]. rewrite length_app, md5_digest_length, IH. lia.
Qed.

Lemma firstn_sum {A} (a b : nat) (l : list A) :
  firstn a l ++ firstn b (skipn a l) = firstn (a + b) l.
Proof.
  revert l. induction a as [|a IH]; intros l; [reflexivity|].
  destruct l as [|x l]; [now destruct b|].
  cbn [firstn skipn Nat.add app]. now rewrite IH.
Qed.

End KeyDerivation.

(** X19.  [evpBytesToKey] is OpenSSL's derivation: for every MD5 function,
    password, salt and lengths, the key has [keyLen] bytes, the IV has
    [ivLen] bytes, and together they are the first [keyLen + ivLen] bytes of
    the digest chain [D1 ++ D2 ++ ...] with [D1 = MD5(password ++ salt)] and
    [D(i+1) = MD5(Di ++ password ++ salt)]. *)
Theorem evpBytesToKey_derivation (md5 : list Z -> Z) (password salt : list Z)
  (keyLen ivLen : nat) :
  let result := Aes.evpBytesToKey md5 password salt keyLen ivLen in
  let chain := evpChain md5 password salt ((keyLen + ivLen + 15) / 16) [] in
  List.length (fst result) = keyLen
  /\ List.length (snd result) = ivLen
  /\ fst result ++ snd result = firstn (keyLen + ivLen) (List.concat chain).
Proof.
  cbv zeta. unfold Aes.evpBytesToKey. cbv zeta. cbn [fst snd].
  rewrite evpLoop_chain by lia. cbn [app].
  replace (Z.to_nat ((Z.of_nat (keyLen + ivLen) - 0 + 15) / 16))
    with ((keyLen + ivLen + 15) / 16)%nat.
  2:{ replace (Z.of_nat (keyLen + ivLen) - 0 + 15) with (Z.of_nat (keyLen + ivLen + 15)) by lia.
      change 16 with (Z.of_nat 16). now rewrite <- Nat2Z.inj_div, Nat2Z.id. }
  set (n := ((keyLen + ivLen + 15) / 16)%nat).
  pose proof (evpChain_length md5 password salt n []) as Hlen.
  assert (Hn : (keyLen + ivLen <= 16 * n)%nat).
  { subst n. pose proof (Nat.div_mod_eq (keyLen + ivLen + 15) 16) as D.
    pose proof (Nat.mod_upper_bound (keyLen + ivLen + 15) 16 ltac:(lia)). lia. }
  unfold Bytes.subarray. cbn [skipn]. rewrite Nat.sub_0_r.
  replace (keyLen + ivLen - keyLen)%nat with ivLen by lia.
  split; [rewrite length_firstn; lia|].
  split; [rewrite length_firstn, length_skipn; lia|].
  apply firstn_sum.
Qed.

(** ** The two-digit rows of the VIC checkerboard *)

Section CheckerboardRows.
Import Ciphers.

(** A filling loop that has symbols left for all its codes advances the
    alphabet index by their number. *)
Lemma assign_index (clean : string) (keys : list string) :
  forall m idx,
  idx + Z.of_nat (List.length keys) <= Z.of_nat (String.length clean) ->
  snd (fold_left (assign clean) keys (m, idx)) = idx + Z.of_nat (List.length keys).
Proof.
  induction keys as [|k keys IH]; intros m idx Hlen.
  - cbn [fold_left snd List.length]. lia.
  - cbn [List.length] in *. cbn [fold_left]. unfold assign at 2.
    replace (idx <? Z.of_nat (String.length clean)) with true
      by (symmetry; apply Z.ltb_lt; lia).
    rewrite IH by lia. lia.
Qed.

Lemma rowCodesCheck_all :
  forallb (fun d => forallb (rowCodesCheck d) digitRange) digitRange = true.
Proof. vm_compute. reflexivity. Qed.

Lemma rowCodes_ok (d other : Z) (j : nat) :
  0 <= d <= 9 -> 0 <= other <= 9 -> d <> other -> (j < 10)%nat ->
  NoDup (rowKeys d)
  /\ nth j (rowKeys d) ""%string = (Str.ofZ d ++ Str.ofZ (Z.of_nat j))%string
  /\ ~ In (Str.ofZ d ++ Str.ofZ (Z.of_nat j))%string (rowKeys other)
  /\ Str.strip Str.is_space (Str.ofZ d ++ Str.ofZ (Z.of_nat j))
     = (Str.ofZ d ++ Str.ofZ (Z.of_nat j))%string
  /\ exists c c2, (Str.ofZ d ++ Str.ofZ (Z.of_nat j))%string = String c (String c2 "")
                  /\ String c "" = Str.ofZ d.
Proof.
  intros H1 H2 Hne Hj.
  pose proof rowCodesCheck_all as H. rewrite forallb_forall in H.
  specialize (H d (in_digitRange d H1)). rewrite forallb_forall in H.
  specialize (H other (in_digitRange other H2)). unfold rowCodesCheck in H.
  apply Z.eqb_neq in Hne. rewrite Hne in H. cbn [orb] in H.
  apply andb_true_iff in H as [Hnd Hall].
  assert (Hnth : nth j (rowKeys d) ""%string = (Str.ofZ d ++ Str.ofZ (Z.of_nat j))%string).
  { unfold rowKeys.
    rewrite (nth_indep _ ""%string (Str.ofZ d ++ Str.ofZ 0)%string)
      by (rewrite length_map; exact Hj).
    rewrite (map_nth (fun i => (Str.ofZ d ++ Str.ofZ i)%string)). f_equal. f_equal.
    do 10 (destruct j as [|j]; [reflexivity|]). lia. }
  assert (Hin : In (Str.ofZ d ++ Str.ofZ (Z.of_nat j))%string (rowKeys d)).
  { rewrite <- Hnth. apply nth_In. unfold rowKeys. rewrite length_map. exact Hj. }
  rewrite forallb_forall in Hall. specialize (Hall _ Hin).
  apply andb_true_iff in Hall as [Hall Hshape].
  apply andb_true_iff in Hall as [Hother Hstrip].
  apply negb_true_iff in Hother.
  split; [now apply nodupb_NoDup|]. split; [exact Hnth|].
  split; [now apply memb_false|]. split; [now apply String.eqb_eq|].
  destruct (Str.ofZ d ++ Str.ofZ (Z.of_nat j))%string as [|c [|c2 [|? ?]]];
    try discriminate Hshape.
  exists c, c2. split; [reflexivity | now apply String.eqb_eq].
Qed.

(** Decoding one two-digit code that the checkerboard holds. *)
Lemma decode_two_digit_code (clean alphabet : string) (d1 d2 : Z) (code symbol : string)
  (c c2 : ascii) :
  clean = Str.toUpperCase alphabet ->
  Str.strip Str.is_space code = code ->
  code = String c (String c2 "") ->
  String c "" = Str.ofZ d1 \/ String c "" = Str.ofZ d2 ->
  map_get code (buildCharMap clean d1 d2) = Some symbol ->
  String.length symbol = 1%nat ->
  decryptVIC code alphabet d1 d2 = symbol.
Proof.
  intros Hclean Hstrip Hcode Hrow Hget Hlen.
  unfold decryptVIC. rewrite <- Hclean, Hstrip. subst code.
  cbn [Str.chars list_ascii_of_string vicDecode].
  replace (String.eqb (String c "") (Str.ofZ d1) || String.eqb (String c "") (Str.ofZ d2))
    with true
    by (symmetry; apply orb_true_iff; destruct Hrow as [<- | <-];
        [left | right]; apply String.eqb_refl).
  unfold emit. rewrite Hget.
  destruct symbol as [|a [|? ?]]; try discriminate Hlen. reflexivity.
Qed.

End CheckerboardRows.

(** X20.  The rest of the checkerboard: with an alphabet of ASCII characters
    and two different escape digits [d1] and [d2], the code [d1 j] stands for
    symbol [8 + j] of the alphabet and the code [d2 j] for symbol [18 + j],
    each in upper case, wherever the alphabet is long enough; and
    [decryptVIC] decodes them so. *)
Theorem vic_two_digit_codes (alphabet : string) (d1 d2 : Z) (j : nat) :
  Str.all_chars Str.is_ascii alphabet = true ->
  0 <= d1 <= 9 -> 0 <= d2 <= 9 -> d1 <> d2 -> (j < 10)%nat ->
  ((8 + j < String.length alphabet)%nat ->
   Ciphers.decryptVIC (Str.ofZ d1 ++ Str.ofZ (Z.of_nat j)) alphabet d1 d2
   = Str.toUpperCase (Str.at_ alphabet (Z.of_nat (8 + j))))
  /\ ((18 + j < String.length alphabet)%nat ->
      Ciphers.decryptVIC (Str.ofZ d2 ++ Str.ofZ (Z.of_nat j)) alphabet d1 d2
      = Str.toUpperCase (Str.at_ alphabet (Z.of_nat (18 + j)))).
Proof.
  intros _ H1 H2 Hne Hj.
  set (clean := Str.toUpperCase alphabet).
  assert (Hcl : String.length clean = String.length alphabet)
    by apply toUpperCase_length.
  destruct (codesCheck_ok d1 d2 H1 H2 Hne) as [Hlen8 _].
  assert (Hk8 : List.length (singleKeys d1 d2) = 8%nat)
    by (unfold singleKeys; now rewrite length_map).
  assert (Hk10 : forall d, List.length (rowKeys d) = 10%nat) by reflexivity.
  pose proof (Hk10 d1) as Hr1. pose proof (Hk10 d2) as Hr2.
  destruct (rowCodes_ok d1 d2 j H1 H2 Hne Hj) as [Hnd1 [Hnth1 [Hother1 [Hs1 [c [c2 [Hc Hrow]]]]]]].
  destruct (rowCodes_ok d2 d1 j H2 H1 (not_eq_sym Hne) Hj)
    as [Hnd2 [Hnth2 [_ [Hs2 [c' [c2' [Hc' Hrow']]]]]]].
  split; intros Hlong.
  - apply (decode_two_digit_code clean alphabet d1 d2 _ _ c c2);
      [reflexivity | exact Hs1 | exact Hc | now left | |].
    + unfold Ciphers.buildCharMap.
      change (map (fun i => (Str.ofZ d2 ++ Str.ofZ i)%string) [0; 1; 2; 3; 4; 5; 6; 7; 8; 9])
        with (rowKeys d2).
      change (map (fun i => (Str.ofZ d1 ++ Str.ofZ i)%string) [0; 1; 2; 3; 4; 5; 6; 7; 8; 9])
        with (rowKeys d1).
      change (map Str.ofZ (Ciphers.singleDigits d1 d2)) with (singleKeys d1 d2).
      rewrite (assign_other clean (rowKeys d2)) by exact Hother1.
      rewrite (surjective_pairing (fold_left (Ciphers.assign clean) (singleKeys d1 d2) ([], 0))).
      rewrite assign_index by lia.
      rewrite <- Hnth1, assign_nth; [| exact Hnd1 | rewrite Hk10; exact Hj | lia | lia].
      rewrite Hk8. unfold clean. rewrite at_toUpperCase. do 3 f_equal. lia.
    + rewrite <- at_toUpperCase. apply at_length. fold clean. lia.
  - apply (decode_two_digit_code clean alphabet d1 d2 _ _ c' c2');
      [reflexivity | exact Hs2 | exact Hc' | now right | |].
    + unfold Ciphers.buildCharMap.
      change (map (fun i => (Str.ofZ d2 ++ Str.ofZ i)%string) [0; 1; 2; 3; 4; 5; 6; 7; 8; 9])
        with (rowKeys d2).
      change (map (fun i => (Str.ofZ d1 ++ Str.ofZ i)%string) [0; 1; 2; 3; 4; 5; 6; 7; 8; 9])
        with (rowKeys d1).
      change (map Str.ofZ (Ciphers.singleDigits d1 d2)) with (singleKeys d1 d2).
      rewrite (surjective_pairing (fold_left (Ciphers.assign clean) (singleKeys d1 d2) ([], 0))).
      rewrite (surjective_pairing (fold_left (Ciphers.assign clean) (rowKeys d1) _)).
      rewrite (assign_index clean (rowKeys d1)); rewrite assign_index; try lia.
      rewrite <- Hnth2, assign_nth; [| exact Hnd2 | rewrite Hk10; exact Hj | lia | lia].
      rewrite Hk8, Hk10. unfold clean. rewrite at_toUpperCase. do 3 f_equal. lia.
    + rewrite <- at_toUpperCase. apply at_length. fold clean. lia.
Qed.

Lemma vic_two_digit_codes_witness :
  Ciphers.decryptVIC (Str.ofZ 1 ++ Str.ofZ (Z.of_nat 3)) "FUBCDORALETHINGKYMVPSJQZXW" 1 4
  = Str.toUpperCase (Str.at_ "FUBCDORALETHINGKYMVPSJQZXW" (Z.of_nat (8 + 3)))
  /\ Ciphers.decryptVIC (Str.ofZ 4 ++ Str.ofZ (Z.of_nat 3)) "FUBCDORALETHINGKYMVPSJQZXW" 1 4
     = Str.toUpperCase (Str.at_ "FUBCDORALETHINGKYMVPSJQZXW" (Z.of_nat (18 + 3))).
Proof.
  destruct (vic_two_digit_codes "FUBCDORALETHINGKYMVPSJQZXW" 1 4 3) as [A B];
    [reflexivity | lia | lia | lia | lia |].
  split; [apply A | apply B]; simpl; lia.
Defined.

(** ** [xorStrings] *)

Section XorBuffers.
Import Codec.

Lemma cyclicByte_inside (buf : list Z) (i : nat) :
  (i < List.length buf)%nat -> cyclicByte buf i = nth i buf 0.
Proof.
  intros Hi. unfold cyclicByte. destruct (List.length buf) eqn:E; [lia|].
  now rewrite Nat.mod_small by lia.
Qed.

Lemma xorBuffers_length (bufA bufB : list Z) :
  List.length (xorBuffers bufA bufB) = Nat.max (List.length bufA) (List.length bufB).
Proof. unfold xorBuffers. now rewrite length_map, length_seq. Qed.

Lemma xorBuffers_nth (bufA bufB : list Z) (i : nat) :
  (i < Nat.max (List.length bufA) (List.length bufB))%nat ->
  nth i (xorBuffers bufA bufB) 0 = Z.lxor (cyclicByte bufA i) (cyclicByte bufB i).
Proof.
  intros Hi. unfold xorBuffers.
  rewrite (nth_indep _ 0 ((fun i => Z.lxor (cyclicByte bufA i) (cyclicByte bufB i)) 0%nat))
    by (now rewrite length_map, length_seq).
  rewrite (map_nth (fun i => Z.lxor (cyclicByte bufA i) (cyclicByte bufB i))).
  now rewrite seq_nth.
Qed.

(** XOR with the same shorter key twice gives the buffer back. *)
Lemma xorBuffers_twice (bufA bufB : list Z) :
  (List.length bufB <= List.length bufA)%nat ->
  xorBuffers (xorBuffers bufA bufB) bufB = bufA.
Proof.
  intros Hl. apply (nth_ext _ _ 0 0).
  - rewrite !xorBuffers_length. lia.
  - intros i Hi. rewrite !xorBuffers_length in Hi.
    rewrite xorBuffers_nth by (rewrite xorBuffers_length; lia).
    rewrite cyclicByte_inside by (rewrite xorBuffers_length; lia).
    rewrite xorBuffers_nth by lia.
    rewrite Z.lxor_assoc, Z.lxor_nilpotent, Z.lxor_0_r.
    apply cyclicByte_inside. lia.
Qed.

Lemma xorBuffers_comm (bufA bufB : list Z) : xorBuffers bufA bufB = xorBuffers bufB bufA.
Proof.
  unfold xorBuffers. rewrite Nat.max_comm. apply map_ext. intros i. apply Z.lxor_comm.
Qed.

Lemma xorBuffers_self (buf : list Z) : xorBuffers buf buf = repeat 0 (List.length buf).
Proof.
  apply (nth_ext _ _ 0 0).
  - rewrite xorBuffers_length, repeat_length. lia.
  - intros i Hi. rewrite xorBuffers_length in Hi.
    rewrite xorBuffers_nth by exact Hi. rewrite Z.lxor_nilpotent.
    symmetry. apply nth_repeat.
Qed.

Lemma cyclicByte_byte (buf : list Z) (i : nat) :
  Forall isByte buf -> isByte (cyclicByte buf i).
Proof.
  intros H. unfold cyclicByte. destruct (List.length buf) eqn:E; [unfold isByte; lia|].
  rewrite Forall_forall in H. apply H, nth_In. rewrite E.
  apply Nat.mod_upper_bound. lia.
Qed.

Lemma lxor_byte (x y : Z) : isByte x -> isByte y -> isByte (Z.lxor x y).
Proof.
  unfold isByte. intros Hx Hy.
  assert (H0 : 0 <= Z.lxor x y) by (apply Z.lxor_nonneg; lia).
  split; [exact H0|].
  destruct (Z.eq_dec (Z.lxor x y) 0) as [->|Hne]; [lia|].
  change 256 with (2 ^ 8). apply Z.log2_lt_pow2; [lia|].
  pose proof (Z.log2_lxor x y ltac:(lia) ltac:(lia)) as L.
  assert (Lx : Z.log2 x < 8).
  { destruct (Z.eq_dec x 0) as [->|]; [cbn; lia|]. apply Z.log2_lt_pow2; lia. }
  assert (Ly : Z.log2 y < 8).
  { destruct (Z.eq_dec y 0) as [->|]; [cbn; lia|]. apply Z.log2_lt_pow2; lia. }
  lia.
Qed.

Lemma xorBuffers_bytes (bufA bufB : list Z) :
  Forall isByte bufA -> Forall isByte bufB -> Forall isByte (xorBuffers bufA bufB).
Proof.
  intros HA HB. unfold xorBuffers. apply Forall_map, Forall_forall. intros i _.
  apply lxor_byte; now apply cyclicByte_byte.
Qed.

Lemma pair_induction {A} (P : list A -> Prop) :
  P [] -> (forall x, P [x]) -> (forall x y l, P l -> P (x :: y :: l)) ->
  forall l, P l.
Proof.
  intros H0 H1 H2 l.
  assert (H : P l /\ forall x, P (x :: l)).
  { induction l as [|y l [IH1 IH2]]; [split; [exact H0 | exact H1]|].
    split; [apply IH2|]. intros x. now apply H2. }
  apply H.
Qed.

Lemma hexval_range (c : ascii) (v : Z) : Hex.hexval c = Some v -> 0 <= v <= 15.
Proof.
  assert (H : forallb (fun c => match Hex.hexval c with
                                | Some v => (0 <=? v) && (v <=? 15)
                                | None => true
                                end) all_ascii = true) by (vm_compute; reflexivity).
  pose proof (forall_ascii _ H c) as H'. cbv beta in H'. intros E. rewrite E in H'.
  apply andb_true_iff in H' as [A B]. apply Z.leb_le in A, B. lia.
Qed.

(** [Buffer.from(s, "hex")] holds bytes. *)
Lemma Buffer_from_hex_bytes (s : string) : Forall isByte (Hex.Buffer_from_hex s).
Proof.
  unfold Hex.Buffer_from_hex. induction (Str.chars s) as [| x | x y l IH] using pair_induction;
    try constructor.
  cbn [Hex.decode_chars].
  destruct (Hex.hexval x) as [vx|] eqn:Ex; [|constructor].
  destruct (Hex.hexval y) as [vy|] eqn:Ey; [|constructor].
  constructor; [|exact IH].
  pose proof (hexval_range _ _ Ex). pose proof (hexval_range _ _ Ey). unfold isByte. lia.
Qed.

Lemma lower_hex_facts (c : ascii) :
  is_lower_hex c = true ->
  Str.is_space c = false
  /\ exists v, Hex.hexval c = Some v /\ 0 <= v <= 15 /\ Hex.digit v = c.
Proof.
  intros Hc.
  assert (H : forallb (fun c => implb (is_lower_hex c)
                (negb (Str.is_space c)
                 && match Hex.hexval c with
                    | Some v => Ascii.eqb (Hex.digit v) c
                    | None => false
                    end)) all_ascii = true) by (vm_compute; reflexivity).
  pose proof (forall_ascii _ H c) as H'. cbv beta in H'. rewrite Hc in H'.
  cbn [implb] in H'. apply andb_true_iff in H' as [Hs Hv].
  split; [now apply negb_true_iff in Hs|].
  destruct (Hex.hexval c) as [v|] eqn:E; [|discriminate Hv].
  exists v. split; [reflexivity|]. split; [now apply (hexval_range c) | now apply Ascii.eqb_eq].
Qed.

Lemma strip_clean (s : string) :
  Str.all_chars is_lower_hex s = true -> Str.strip Str.is_space s = s.
Proof.
  induction s as [|c s IH]; [reflexivity|]. cbn [Str.all_chars Str.strip].
  intros H. apply andb_true_iff in H as [Hc Hs].
  destruct (lower_hex_facts c Hc) as [-> _]. now rewrite IH.
Qed.

(** Reading back what [toString("hex")] wrote. *)
Lemma Buffer_from_toString_hex (bytes : list Z) :
  Forall isByte bytes ->
  Hex.Buffer_from_hex (Str.strip Str.is_space (Hex.toString_hex bytes)) = bytes.
Proof.
  intros Hb. destruct (toString_hex_shape bytes Hb) as [_ A].
  rewrite (strip_clean _ A). clear A. unfold Hex.Buffer_from_hex.
  induction Hb as [|b bytes Hb Hbs IH]; [reflexivity|]. unfold isByte in Hb.
  cbn [Hex.toString_hex]. change (Str.chars (String ?h (String ?l ?s))) with (h :: l :: Str.chars s).
  cbn [Hex.decode_chars].
  assert (H1 : 0 <= b / 16 <= 15)
    by (split; [apply Z.div_pos; lia | apply Z.lt_succ_r, Z.div_lt_upper_bound; lia]).
  assert (H2 : 0 <= b mod 16 <= 15) by (pose proof (Z.mod_pos_bound b 16 ltac:(lia)); lia).
  destruct (hex_digit_facts _ H1) as [_ ->]. destruct (hex_digit_facts _ H2) as [_ ->].
  rewrite IH. f_equal. pose proof (Z.div_mod b 16 ltac:(lia)). lia.
Qed.

(** An even number of lower-case hex digits is its own normal form. *)
Lemma toString_hex_of_lower (cs : list ascii) :
  Forall (fun c => is_lower_hex c = true) cs -> Nat.even (List.length cs) = true ->
  Hex.toString_hex (Hex.decode_chars cs) = string_of_list_ascii cs.
Proof.
  induction cs as [| x | x y l IH] using pair_induction; intros Hall Hev;
    [reflexivity | discriminate Hev |].
  inversion Hall as [|? ? Hx Hall']; subst. inversion Hall' as [|? ? Hy Hl]; subst.
  destruct (lower_hex_facts x Hx) as [_ [vx [Ex [Rx Dx]]]].
  destruct (lower_hex_facts y Hy) as [_ [vy [Ey [Ry Dy]]]].
  cbn [Hex.decode_chars]. rewrite Ex, Ey. cbn [Hex.toString_hex string_of_list_ascii].
  replace ((16 * vx + vy) / 16) with vx
    by (apply (Z.div_unique _ _ _ vy); lia).
  replace ((16 * vx + vy) mod 16) with vy
    by (apply (Z.mod_unique _ _ vx); lia).
  rewrite Dx, Dy. f_equal. f_equal. apply IH; [exact Hl | exact Hev].
Qed.

Lemma toString_hex_zeros (n : nat) :
  Hex.toString_hex (repeat 0 n) = Str.repeat_char "0" (2 * n).
Proof.
  induction n as [|n IH]; [reflexivity|].
  replace (2 * S n)%nat with (S (S (2 * n))) by lia.
  cbn [repeat Hex.toString_hex Str.repeat_char]. now rewrite IH.
Qed.

End XorBuffers.

(** X21.  In hex format, XOR with the same key twice gives the first operand
    back, when the key has no more bytes than it: the result is the operand's
    bytes in hex, which is the operand itself when it is an even number of
    lower-case hex digits. *)
Theorem xorStrings_hex_twice (a b : string) :
  (List.length (Hex.Buffer_from_hex (Str.strip Str.is_space b))
   <= List.length (Hex.Buffer_from_hex (Str.strip Str.is_space a)))%nat ->
  Codec.xorStrings (Codec.xorStrings a b Codec.FormatHex) b Codec.FormatHex
  = Hex.toString_hex (Hex.Buffer_from_hex (Str.strip Str.is_space a))
  /\ (Str.all_chars is_lower_hex a = true -> Nat.even (String.length a) = true ->
      Codec.xorStrings (Codec.xorStrings a b Codec.FormatHex) b Codec.FormatHex = a).
Proof.
  intros Hl.
  assert (H : Codec.xorStrings (Codec.xorStrings a b Codec.FormatHex) b Codec.FormatHex
              = Hex.toString_hex (Hex.Buffer_from_hex (Str.strip Str.is_space a))).
  { unfold Codec.xorStrings. cbv zeta.
    rewrite Buffer_from_toString_hex
      by (apply xorBuffers_bytes; apply Buffer_from_hex_bytes).
    now rewrite xorBuffers_twice. }
  split; [exact H|]. intros Ha Hev. rewrite H, (strip_clean a Ha).
  unfold Hex.Buffer_from_hex. rewrite toString_hex_of_lower.
  - unfold Str.chars. apply string_of_list_ascii_of_string.
  - now apply all_chars_Forall.
  - now rewrite chars_length.
Qed.

Lemma xorStrings_hex_twice_witness :
  Codec.xorStrings (Codec.xorStrings "48 65 6c 6c 6f" "2a0f" Codec.FormatHex) "2a0f"
    Codec.FormatHex
  = Hex.toString_hex (Hex.Buffer_from_hex (Str.strip Str.is_space "48 65 6c 6c 6f")).
Proof.
  apply (xorStrings_hex_twice "48 65 6c 6c 6f" "2a0f"). vm_compute. lia.
Defined.

(** X22.  [xorStrings] does not depend on the order of its operands, in either
    format, and a string XORed with itself in hex format gives only zeros,
    two for each of its bytes. *)
Theorem xorStrings_symmetric (a b : string) (format : Codec.xor_format) :
  Codec.xorStrings a b format = Codec.xorStrings b a format
  /\ Codec.xorStrings a a Codec.FormatHex
     = Str.repeat_char "0"
         (2 * List.length (Hex.Buffer_from_hex (Str.strip Str.is_space a))).
Proof.
  split.
  - unfold Codec.xorStrings. cbv zeta. destruct format; now rewrite xorBuffers_comm.
  - unfold Codec.xorStrings. cbv zeta. now rewrite xorBuffers_self, toString_hex_zeros.
Qed.

(** ** How the letter ciphers relate *)

Section OneLetterKeys.
Import Ciphers Substitution.

Lemma map_chars_list (f : ascii -> ascii) (s : string) :
  Str.map_chars f s = string_of_list_ascii (map f (Str.chars s)).
Proof.
  induction s as [|c s IH]; [reflexivity|].
  cbn [Str.map_chars]. change (Str.chars (String c s)) with (c :: Str.chars s).
  cbn [map string_of_list_ascii]. now rewrite IH.
Qed.

Lemma oneLetterKey (k : ascii) :
  is_letter k = true ->
  normalizeKey (String k "") = String (Str.upper_char k) ""
  /\ 0 <= letterIndex k <= 25.
Proof.
  intros Hk.
  assert (H : forallb oneLetterKeyCheck all_ascii = true) by (vm_compute; reflexivity).
  pose proof (forall_ascii _ H k) as H'. unfold oneLetterKeyCheck in H'.
  rewrite Hk in H'. cbn [implb] in H'.
  apply andb_true_iff in H' as [H' H3]. apply andb_true_iff in H' as [H1 H2].
  apply String.eqb_eq in H1. apply Z.leb_le in H2, H3. auto.
Qed.

Lemma keyCharIndexAt_one (u : ascii) (i : Z) :
  0 <= i -> keyCharIndexAt (String u "") i = Str.indexOf alphabet u.
Proof.
  intros Hi. unfold keyCharIndexAt. cbn [String.length].
  change (Z.of_nat 1) with 1. rewrite Z.rem_1_r. reflexivity.
Qed.

Lemma vigenereCaesar_all (decrypt : bool) (c : ascii) (k : Z) :
  0 <= k <= 25 -> vigenereCaesarCheck decrypt c k = true.
Proof.
  intros Hk.
  assert (H : forallb (fun d => forallb (fun c => forallb (vigenereCaesarCheck d c) keyRange)
                                        all_ascii) [true; false] = true)
    by (vm_compute; reflexivity).
  rewrite forallb_forall in H.
  assert (Hd : In decrypt [true; false]) by (destruct decrypt; simpl; auto).
  specialize (H decrypt Hd). pose proof (forall_ascii _ H c) as Hc. cbv beta in Hc.
  rewrite forallb_forall in Hc. apply Hc, in_keyRange, Hk.
Qed.

Lemma beaufortCaesar_all (c : ascii) (k : Z) :
  0 <= k <= 25 -> beaufortCaesarCheck c k = true.
Proof.
  intros Hk.
  assert (H : forallb (fun c => forallb (beaufortCaesarCheck c) keyRange) all_ascii = true)
    by (vm_compute; reflexivity).
  pose proof (forall_ascii _ H c) as Hc. cbv beta in Hc.
  rewrite forallb_forall in Hc. apply Hc, in_keyRange, Hk.
Qed.

Variable u : ascii.
Hypothesis u_index : 0 <= Str.indexOf alphabet u <= 25.

Lemma vigenereLoop_one (decrypt : bool) (text : list ascii) :
  forall i, 0 <= i ->
  vigenereLoop (String u "") decrypt text i
  = string_of_list_ascii
      (map (caesarChar ((if decrypt then - Str.indexOf alphabet u
                         else Str.indexOf alphabet u) mod 26)) text).
Proof.
  induction text as [|c rest IH]; intros i Hi; [reflexivity|].
  rewrite vigenereLoop_cons, keyCharIndexAt_one by exact Hi.
  pose proof (vigenereCaesar_all decrypt c _ u_index) as Hc.
  unfold vigenereCaesarCheck in Hc. cbv zeta in Hc.
  cbn [map string_of_list_ascii].
  destruct (letterIndex c =? -1); cbn [negb].
  - apply Ascii.eqb_eq in Hc. rewrite Hc. now rewrite IH.
  - apply String.eqb_eq in Hc. rewrite Hc. cbn [append]. now rewrite IH by lia.
Qed.

Lemma beaufortLoop_one (text : list ascii) :
  forall i, 0 <= i ->
  beaufortLoop (String u "") text i
  = string_of_list_ascii
      (map (fun c => caesarChar ((Str.indexOf alphabet u + 1) mod 26) (atbashChar c)) text).
Proof.
  induction text as [|c rest IH]; intros i Hi; [reflexivity|].
  rewrite beaufortLoop_cons, keyCharIndexAt_one by exact Hi.
  pose proof (beaufortCaesar_all c _ u_index) as Hc.
  unfold beaufortCaesarCheck in Hc. cbv zeta in Hc.
  cbn [map string_of_list_ascii].
  destruct (letterIndex c =? -1); cbn [negb].
  - apply Ascii.eqb_eq in Hc. rewrite Hc. now rewrite IH.
  - apply String.eqb_eq in Hc. rewrite Hc. cbn [append]. now rewrite IH by lia.
Qed.

End OneLetterKeys.

(** X23.  On ASCII text, with a key of one letter a-z or A-Z,
    [vigenereCipher] is [caesarCipher]: it shifts by the letter's place in
    the alphabet to encrypt, and by its opposite to decrypt. *)
Theorem vigenere_one_letter_key (text : string) (k : ascii) (decrypt : bool) :
  Str.all_chars Str.is_ascii text = true ->
  is_letter k = true ->
  Ciphers.vigenereCipher text (String k "") decrypt
  = Substitution.caesarCipher text (if decrypt then - letterIndex k else letterIndex k).
Proof.
  intros _ Hk. destruct (oneLetterKey k Hk) as [Hn Hi].
  unfold Ciphers.vigenereCipher. cbv zeta. rewrite Hn. cbn [String.length Nat.eqb].
  rewrite (vigenereLoop_one _ Hi) by lia.
  rewrite caesarCipher_chars, map_chars_list. reflexivity.
Qed.

Lemma vigenere_one_letter_key_witness :
  Ciphers.vigenereCipher "Attack at dawn!" (String "d" "") true
  = Substitution.caesarCipher "Attack at dawn!" (- letterIndex "d").
Proof. apply (vigenere_one_letter_key "Attack at dawn!" "d" true); reflexivity. Defined.

(** X24.  On ASCII text, with a key of one letter a-z or A-Z,
    [decryptBeaufort] is [atbashCipher] followed by [caesarCipher] with the
    letter's place plus one; with the key Z it is [atbashCipher] itself. *)
Theorem beaufort_one_letter_key (text : string) (k : ascii) :
  Str.all_chars Str.is_ascii text = true ->
  is_letter k = true ->
  Ciphers.decryptBeaufort text (String k "")
  = Substitution.caesarCipher (Substitution.atbashCipher text) (letterIndex k + 1)
  /\ Ciphers.decryptBeaufort text "Z" = Substitution.atbashCipher text.
Proof.
  assert (H : forall k, is_letter k = true ->
                Ciphers.decryptBeaufort text (String k "")
                = Substitution.caesarCipher (Substitution.atbashCipher text) (letterIndex k + 1)).
  { intros k' Hk'. destruct (oneLetterKey k' Hk') as [Hn Hi].
    unfold Ciphers.decryptBeaufort. cbv zeta. rewrite Hn. cbn [String.length Nat.eqb].
    rewrite (beaufortLoop_one _ Hi) by lia.
    rewrite caesarCipher_chars. unfold Substitution.atbashCipher, Substitution.replaceLetters.
    rewrite map_chars_compose, map_chars_list. reflexivity. }
  intros _ Hk. split; [now apply H|].
  rewrite (H "Z"%char) by reflexivity.
  rewrite caesarCipher_chars. change ((letterIndex "Z" + 1) mod 26) with 0.
  apply map_chars_id, caesarChar_zero.
Qed.

Lemma beaufort_one_letter_key_witness :
  Ciphers.decryptBeaufort "Hello, World" (String "q" "")
  = Substitution.caesarCipher (Substitution.atbashCipher "Hello, World") (letterIndex "q" + 1).
Proof. apply (beaufort_one_letter_key "Hello, World" "q"); reflexivity. Defined.

(** X25.  [rot13] is [caesarCipher] with the shift 13, and with the shift -13. *)
Theorem rot13_is_caesar_13 (text : string) :
  Substitution.rot13 text = Substitution.caesarCipher text 13
  /\ Substitution.rot13 text = Substitution.caesarCipher text (-13).
Proof.
  rewrite !caesarCipher_chars. change (13 mod 26) with 13. change (-13 mod 26) with 13.
  split; reflexivity.
Qed.

Section Shapes.
Import Ciphers.

Lemma sameShape_refl (c : ascii) : sameShape c c = true.
Proof.
  unfold sameShape. destruct (Str.is_upper c); [reflexivity|].
  destruct (Str.is_lower c); [reflexivity | apply Ascii.eqb_refl].
Qed.

Lemma shapeCheck_all (step : Z -> Z -> Z) :
  forallb (fun c => forallb (shapeCheck step c) keyRange) all_ascii = true ->
  forall c k, 0 <= k <= 25 -> letterIndex c <> -1 ->
  exists c', putLetter c (step (letterIndex c) k) = String c' "" /\ sameShape c c' = true.
Proof.
  intros H c k Hk Hc.
  pose proof (forall_ascii _ H c) as Hc'. rewrite forallb_forall in Hc'.
  specialize (Hc' k (in_keyRange k Hk)). unfold shapeCheck in Hc'.
  apply Z.eqb_neq in Hc. rewrite Hc in Hc'.
  destruct (putLetter c (step (letterIndex c) k)) as [|c' [|? ?]];
    [discriminate Hc' | | discriminate Hc'].
  exists c'. split; [reflexivity | exact Hc'].
Qed.

Lemma beaufort_shape : forallb (fun c => forallb (shapeCheck beaufortStep c) keyRange) all_ascii = true.
Proof. vm_compute. reflexivity. Qed.

Lemma vigenereEnc_shape : forallb (fun c => forallb (shapeCheck vigenereEnc c) keyRange) all_ascii = true.
Proof. vm_compute. reflexivity. Qed.

Lemma vigenereDec_shape : forallb (fun c => forallb (shapeCheck vigenereDec c) keyRange) all_ascii = true.
Proof. vm_compute. reflexivity. Qed.

Variable nk : string.
Hypothesis nk_upper : Str.all_chars Str.is_upper nk = true.
Hypothesis nk_nonempty : String.length nk <> 0%nat.

Lemma beaufortLoop_shape (text : list ascii) :
  forall i, 0 <= i ->
  Forall2 (fun c c' => sameShape c c' = true) text (Str.chars (beaufortLoop nk text i)).
Proof.
  induction text as [|c rest IH]; intros i Hi; [constructor|].
  rewrite beaufortLoop_cons.
  destruct (letterIndex c =? -1) eqn:E; cbn [negb].
  - change (Str.chars (String c ?s)) with (c :: Str.chars s).
    constructor; [apply sameShape_refl | now apply IH].
  - apply Z.eqb_neq in E.
    destruct (shapeCheck_all _ beaufort_shape c (keyCharIndexAt nk i)
                (keyCharIndexAt_range nk i nk_upper nk_nonempty Hi) E) as [c' [H1 H2]].
    rewrite H1. cbn [append]. change (Str.chars (String c' ?s)) with (c' :: Str.chars s).
    constructor; [exact H2 | apply IH; lia].
Qed.

Lemma vigenereLoop_shape (decrypt : bool) (text : list ascii) :
  forall i, 0 <= i ->
  Forall2 (fun c c' => sameShape c c' = true) text
          (Str.chars (vigenereLoop nk decrypt text i)).
Proof.
  induction text as [|c rest IH]; intros i Hi; [constructor|].
  rewrite vigenereLoop_cons.
  destruct (letterIndex c =? -1) eqn:E; cbn [negb].
  - change (Str.chars (String c ?s)) with (c :: Str.chars s).
    constructor; [apply sameShape_refl | now apply IH].
  - apply Z.eqb_neq in E.
    assert (Hs : exists c', putLetter c ((if decrypt then vigenereDec else vigenereEnc)
                                           (letterIndex c) (keyCharIndexAt nk i))
                            = String c' "" /\ sameShape c c' = true).
    { destruct decrypt;
        [apply (shapeCheck_all _ vigenereDec_shape) | apply (shapeCheck_all _ vigenereEnc_shape)];
        try exact E; apply keyCharIndexAt_range; assumption. }
    destruct Hs as [c' [H1 H2]].
    rewrite H1. cbn [append]. change (Str.chars (String c' ?s)) with (c' :: Str.chars s).
    constructor; [exact H2 | apply IH; lia].
Qed.

End Shapes.

(** X26.  On ASCII text, with a key that has one of the letters a-z and A-Z,
    [decryptBeaufort] and [vigenereCipher] keep the shape of the text: the
    result has the same length, an upper-case letter A-Z becomes an
    upper-case letter, a lower-case letter a-z a lower-case letter, and every
    other character stays as it is. *)
Theorem letter_ciphers_keep_shape (text key : string) (decrypt : bool) :
  Str.all_chars Str.is_ascii text = true ->
  Ciphers.normalizeKey key <> ""%string ->
  Forall2 (fun c c' => sameShape c c' = true)
          (Str.chars text) (Str.chars (Ciphers.decryptBeaufort text key))
  /\ Forall2 (fun c c' => sameShape c c' = true)
             (Str.chars text) (Str.chars (Ciphers.vigenereCipher text key decrypt))
  /\ String.length (Ciphers.decryptBeaufort text key) = String.length text
  /\ String.length (Ciphers.vigenereCipher text key decrypt) = String.length text.
Proof.
  intros _ Hkey.
  assert (Hlen : String.length (Ciphers.normalizeKey key) <> 0%nat)
    by (destruct (Ciphers.normalizeKey key); [congruence | discriminate]).
  pose proof (normalizeKey_upper key) as Hup.
  assert (HB : Forall2 (fun c c' => sameShape c c' = true)
                 (Str.chars text) (Str.chars (Ciphers.decryptBeaufort text key))).
  { unfold Ciphers.decryptBeaufort. cbv zeta.
    destruct (Nat.eqb (String.length (Ciphers.normalizeKey key)) 0) eqn:E;
      [apply Nat.eqb_eq in E; contradiction|].
    apply beaufortLoop_shape; [exact Hup | exact Hlen | lia]. }
  assert (HV : Forall2 (fun c c' => sameShape c c' = true)
                 (Str.chars text) (Str.chars (Ciphers.vigenereCipher text key decrypt))).
  { unfold Ciphers.vigenereCipher. cbv zeta.
    destruct (Nat.eqb (String.length (Ciphers.normalizeKey key)) 0) eqn:E;
      [apply Nat.eqb_eq in E; contradiction|].
    apply vigenereLoop_shape; [exact Hup | exact Hlen | lia]. }
  split; [exact HB|]. split; [exact HV|].
  split; rewrite <- !chars_length; symmetry; eapply Forall2_length; eassumption.
Qed.

Lemma letter_ciphers_keep_shape_witness :
  String.length (Ciphers.vigenereCipher "Meet me at 9, OK?" "k-e-y" true)
  = String.length "Meet me at 9, OK?".
Proof.
  apply (letter_ciphers_keep_shape "Meet me at 9, OK?" "k-e-y" true);
    [reflexivity | vm_compute; discriminate].
Defined.

(** ** Reading a written matrix back *)

Section MatrixReadBack.
Import Matrix.

Lemma strip_append (cls : ascii -> bool) (s1 s2 : string) :
  Str.strip cls (s1 ++ s2) = (Str.strip cls s1 ++ Str.strip cls s2)%string.
Proof.
  induction s1 as [|c s1 IH]; [reflexivity|]. cbn [append Str.strip].
  destruct (cls c); [exact IH | cbn [append]; now rewrite IH].
Qed.

Lemma bitValues_append (s1 s2 : string) :
  bitValues (s1 ++ s2) = bitValues s1 ++ bitValues s2.
Proof. unfold bitValues. now rewrite strip_append, chars_append, map_app. Qed.

(** The values of strings joined by a separator without 0 and 1. *)
Lemma bitValues_joined (sep : string) (l : list string) :
  bitValues sep = [] ->
  bitValues (String.concat sep l) = flat_map bitValues l.
Proof.
  intros Hsep. induction l as [|x l IH]; [reflexivity|].
  destruct l as [|y l].
  - cbn [String.concat flat_map]. now rewrite app_nil_r.
  - change (String.concat sep (x :: y :: l))
      with (x ++ sep ++ String.concat sep (y :: l))%string.
    rewrite !bitValues_append, Hsep, IH. reflexivity.
Qed.

Lemma bitValues_of_bits (sep : string) (row : list Z) :
  bitValues sep = [] ->
  Forall (fun v => v = 0 \/ v = 1) row ->
  bitValues (String.concat sep (map Str.ofZ row)) = row.
Proof.
  intros Hsep Hrow. rewrite (bitValues_joined sep _ Hsep).
  induction Hrow as [|v row Hv Hrow IH]; [reflexivity|].
  cbn [map flat_map]. rewrite IH. destruct Hv as [-> | ->]; reflexivity.
Qed.

Lemma bitValues_of_rows (sep rowSep : string) (matrix : list (list Z)) :
  bitValues sep = [] -> bitValues rowSep = [] ->
  Forall (Forall (fun v => v = 0 \/ v = 1)) matrix ->
  bitValues (String.concat rowSep
               (map (fun row => String.concat sep (map Str.ofZ row)) matrix))
  = List.concat matrix.
Proof.
  intros Hsep Hrsep Hm. rewrite (bitValues_joined rowSep _ Hrsep).
  induction Hm as [|row m Hrow Hm IH]; [reflexivity|].
  cbn [map flat_map List.concat]. now rewrite IH, (bitValues_of_bits sep row Hsep Hrow).
Qed.

Lemma valueAt_app (before values : list Z) (j : nat) :
  valueAt (before ++ values) (Z.of_nat (List.length before) + Z.of_nat j)
  = valueAt values (Z.of_nat j).
Proof.
  unfold valueAt.
  replace (Z.of_nat (List.length before) + Z.of_nat j <? 0) with false
    by (symmetry; apply Z.ltb_ge; lia).
  replace (Z.of_nat j <? 0) with false by (symmetry; apply Z.ltb_ge; lia).
  replace (Z.to_nat (Z.of_nat (List.length before) + Z.of_nat j))
    with (List.length before + j)%nat by lia.
  now rewrite Nat2Z.id, nth_error_app2, Nat.add_comm, Nat.add_sub by lia.
Qed.

Lemma valueAt_row (row rest : list Z) :
  map (fun j => valueAt (row ++ rest) (Z.of_nat j)) (seq 0 (List.length row)) = row.
Proof.
  transitivity (map (fun v : Z => v) row); [|apply map_id].
  apply map_seq_nth_error. intros k x Hk.
  unfold valueAt. replace (Z.of_nat k <? 0) with false by (symmetry; apply Z.ltb_ge; lia).
  rewrite Nat2Z.id, nth_error_app1 by (apply nth_error_Some; congruence).
  now rewrite Hk.
Qed.

(** Cutting the concatenation of a rectangular matrix into rows again. *)
Lemma rows_of_concat (cols : nat) (matrix : list (list Z)) :
  (forall row, In row matrix -> List.length row = cols) ->
  forall (before : list Z) (k : nat),
  List.length before = (k * cols)%nat ->
  map (fun i => map (fun j => valueAt (before ++ List.concat matrix)
                                      (i * Z.of_nat cols + j))
                    (Spiral.range_up 0 (Z.of_nat cols - 1)))
      (map Z.of_nat (seq k (List.length matrix)))
  = matrix.
Proof.
  induction matrix as [|row m IH]; intros Hrect before k Hk; [reflexivity|].
  cbn [List.length seq map List.concat]. f_equal.
  - rewrite range_up_nat, map_map.
    rewrite <- (Hrect row) by now left.
    rewrite <- (valueAt_row row (List.concat m)) at 2.
    apply map_ext. intros j.
    replace (Z.of_nat k * Z.of_nat (List.length row) + Z.of_nat j)
      with (Z.of_nat (List.length before) + Z.of_nat j)
      by (rewrite Hk, (Hrect row) by (now left); lia).
    apply valueAt_app.
  - rewrite app_assoc. apply IH.
    + intros r Hr. apply Hrect. now right.
    + rewrite length_app, Hk, (Hrect row) by now left. lia.
Qed.

Lemma parseMatrix_of_values (input : string) (cols : nat) (matrix : list (list Z)) :
  (forall row, In row matrix -> List.length row = cols) ->
  bitValues input = List.concat matrix ->
  parseMatrix input (Z.of_nat (List.length matrix)) (Z.of_nat cols) = matrix.
Proof.
  intros Hrect Hv. unfold parseMatrix. cbv zeta. rewrite Hv.
  rewrite (range_up_nat (List.length matrix)).
  apply (rows_of_concat cols matrix Hrect [] 0). reflexivity.
Qed.

End MatrixReadBack.

(** X27.  [parseMatrix] reads back what [formatMatrix] and [matrixToBinary] wrote:
    a matrix of [cols] columns with entries 0 and 1 comes back unchanged when
    parsed with its own numbers of rows and columns. *)
Theorem parseMatrix_reads_back (matrix : list (list Z)) (cols : nat) :
  (forall row, In row matrix ->
     List.length row = cols /\ forall v, In v row -> v = 0 \/ v = 1) ->
  Matrix.parseMatrix (Matrix.formatMatrix matrix)
    (Z.of_nat (List.length matrix)) (Z.of_nat cols) = matrix
  /\ Matrix.parseMatrix (Matrix.matrixToBinary matrix)
       (Z.of_nat (List.length matrix)) (Z.of_nat cols) = matrix.
Proof.
  intros H.
  assert (Hrect : forall row, In row matrix -> List.length row = cols)
    by (intros row Hr; now destruct (H row Hr)).
  assert (Hbits : Forall (Forall (fun v => v = 0 \/ v = 1)) matrix).
  { apply Forall_forall. intros row Hr. apply Forall_forall. now destruct (H row Hr). }
  split; apply parseMatrix_of_values; try exact Hrect.
  - unfold Matrix.formatMatrix. now apply bitValues_of_rows.
  - unfold Matrix.matrixToBinary, Str.join. now apply bitValues_of_rows.
Qed.

Lemma parseMatrix_reads_back_witness :
  Matrix.parseMatrix (Matrix.formatMatrix [[1; 0; 1]; [0; 1; 1]])
    (Z.of_nat (List.length [[1; 0; 1]; [0; 1; 1]])) (Z.of_nat 3)
  = [[1; 0; 1]; [0; 1; 1]].
Proof.
  apply (parseMatrix_reads_back [[1; 0; 1]; [0; 1; 1]] 3).
  intros row [<- | [<- | []]]; (split; [reflexivity|]); simpl; intros v Hv;
    repeat (destruct Hv as [<- | Hv]; [auto|]); contradiction.
Defined.

(** ** The two directions of the spiral *)

Section SpiralDirections.
Import Spiral.

Context {A : Type}.

(** A counter-clockwise round is a clockwise round of the transposed box. *)
Lemma ccwRound_transposed (get : Z -> Z -> A) (b : bounds) (result : list A) :
  ccwRound get b result
  = (transposeBounds (fst (cwRound (fun i j => get j i) (transposeBounds b) result)),
     snd (cwRound (fun i j => get j i) (transposeBounds b) result)).
Proof.
  destruct b as [t bt l r]. unfold ccwRound, cwRound, transposeBounds.
  cbn [top bottom left right].
  destruct (l + 1 <=? r); destruct (t <=? bt - 1); reflexivity.
Qed.

Lemma cwRound_transposed (get : Z -> Z -> A) (b : bounds) (result : list A) :
  cwRound get b result
  = (transposeBounds (fst (ccwRound (fun i j => get j i) (transposeBounds b) result)),
     snd (ccwRound (fun i j => get j i) (transposeBounds b) result)).
Proof.
  destruct b as [t bt l r]. unfold ccwRound, cwRound, transposeBounds.
  cbn [top bottom left right].
  destruct (t + 1 <=? bt); destruct (l <=? r - 1); reflexivity.
Qed.

Lemma spiralLoop_transposed (get : Z -> Z -> A) (fuel : nat) :
  forall (counterClockwise : bool) (b : bounds) (result : list A),
  spiralLoop get fuel counterClockwise b result
  = spiralLoop (fun i j => get j i) fuel (negb counterClockwise) (transposeBounds b) result.
Proof.
  induction fuel as [|fuel IH]; intros ccw b result; [reflexivity|].
  cbn [spiralLoop]. unfold transposeBounds at 1 2 3 4. cbn [top bottom left right].
  rewrite (andb_comm (left b <=? right b)).
  destruct ((top b <=? bottom b) && (left b <=? right b)); [|reflexivity].
  destruct ccw; cbn [negb].
  - rewrite ccwRound_transposed.
    destruct (cwRound (fun i j => get j i) (transposeBounds b) result) as [b' result'].
    cbn [fst snd]. rewrite IH. cbn [negb].
    destruct b'; reflexivity.
  - rewrite cwRound_transposed.
    destruct (ccwRound (fun i j => get j i) (transposeBounds b) result) as [b' result'].
    cbn [fst snd]. rewrite IH. cbn [negb].
    destruct b'; reflexivity.
Qed.

Lemma in_range_up (lo hi i : Z) : In i (range_up lo hi) -> lo <= i <= hi.
Proof.
  unfold range_up. intros H. apply in_map_iff in H as [k [<- Hk]].
  apply in_seq in Hk. lia.
Qed.

Lemma in_range_down (hi lo i : Z) : In i (range_down hi lo) -> lo <= i <= hi.
Proof. unfold range_down. intros H. apply in_rev in H. now apply in_range_up. Qed.

(** A clockwise round reads cells of its box only, and leaves a box inside
    it. *)
Lemma cwRound_inside (g1 g2 : Z -> Z -> A) (b : bounds) (result : list A) :
  top b <= bottom b -> left b <= right b ->
  (forall i j, top b <= i <= bottom b -> left b <= j <= right b -> g1 i j = g2 i j) ->
  cwRound g1 b result = cwRound g2 b result
  /\ top b <= top (fst (cwRound g2 b result))
  /\ bottom (fst (cwRound g2 b result)) <= bottom b
  /\ left b <= left (fst (cwRound g2 b result))
  /\ right (fst (cwRound g2 b result)) <= right b.
Proof.
  destruct b as [t bt l r]. cbn [top bottom left right]. intros Ht Hl Hg.
  unfold cwRound.
  assert (E1 : map (fun i => g1 t i) (range_up l r) = map (fun i => g2 t i) (range_up l r)).
  { apply map_ext_in. intros i Hi. apply in_range_up in Hi. apply Hg; lia. }
  assert (E2 : map (fun i => g1 i r) (range_up (t + 1) bt)
               = map (fun i => g2 i r) (range_up (t + 1) bt)).
  { apply map_ext_in. intros i Hi. apply in_range_up in Hi. apply Hg; lia. }
  assert (E3 : map (fun i => g1 bt i) (range_down (r - 1) l)
               = map (fun i => g2 bt i) (range_down (r - 1) l)).
  { apply map_ext_in. intros i Hi. apply in_range_down in Hi. apply Hg; lia. }
  assert (E4 : forall bt', bt - 1 <= bt' <= bt ->
               map (fun i => g1 i l) (range_down bt' (t + 1))
               = map (fun i => g2 i l) (range_down bt' (t + 1))).
  { intros bt' Hb. apply map_ext_in. intros i Hi. apply in_range_down in Hi. apply Hg; lia. }
  rewrite E1, E2. destruct (t + 1 <=? bt) eqn:Ea; destruct (l <=? r - 1) eqn:Eb;
    rewrite ?E3, ?E4 by lia; cbn [fst top bottom left right];
    (split; [reflexivity | lia]).
Qed.

Lemma spiralLoop_inside (g1 g2 : Z -> Z -> A) (fuel : nat) :
  forall (b : bounds) (result : list A),
  (forall i j, top b <= i <= bottom b -> left b <= j <= right b -> g1 i j = g2 i j) ->
  spiralLoop g1 fuel false b result = spiralLoop g2 fuel false b result.
Proof.
  induction fuel as [|fuel IH]; intros b result Hg; [reflexivity|].
  cbn [spiralLoop].
  destruct ((top b <=? bottom b) && (left b <=? right b)) eqn:E; [|reflexivity].
  apply andb_true_iff in E as [Et El]. apply Z.leb_le in Et, El.
  destruct (cwRound_inside g1 g2 b result Et El Hg) as [Eq [B1 [B2 [B3 B4]]]].
  rewrite Eq. destruct (cwRound g2 b result) as [b' result']. cbn [fst] in *.
  apply IH. intros i j Hi Hj. apply Hg; lia.
Qed.

End SpiralDirections.

Section TransposedMatrix.
Import Spiral.

Variable cols : nat.
Variable matrix : list (list Z).
Hypothesis rect : forall row, In row matrix -> List.length row = cols.

Lemma cell_inside (i j : nat) :
  (i < List.length matrix)%nat -> (j < cols)%nat ->
  cell matrix (Z.of_nat i) (Z.of_nat j) = Some (nth j (nth i matrix []) 0).
Proof.
  intros Hi Hj. unfold cell.
  replace ((Z.of_nat i <? 0) || (Z.of_nat j <? 0)) with false
    by (symmetry; apply orb_false_iff; split; apply Z.ltb_ge; lia).
  rewrite !Nat2Z.id. rewrite (nth_error_nth' matrix [] Hi).
  apply nth_error_nth'. rewrite (rect (nth i matrix [])) by (now apply nth_In). exact Hj.
Qed.

Lemma transpose_length : List.length (transpose cols matrix) = cols.
Proof. unfold transpose. now rewrite length_map, length_seq. Qed.

Lemma transpose_rect (row : list Z) :
  In row (transpose cols matrix) -> List.length row = List.length matrix.
Proof.
  unfold transpose. intros H. apply in_map_iff in H as [j [<- _]]. apply length_map.
Qed.

Lemma cell_transpose (i j : nat) :
  (i < List.length matrix)%nat -> (j < cols)%nat ->
  cell (transpose cols matrix) (Z.of_nat j) (Z.of_nat i)
  = cell matrix (Z.of_nat i) (Z.of_nat j).
Proof.
  intros Hi Hj. rewrite (cell_inside i j Hi Hj). unfold cell.
  replace ((Z.of_nat j <? 0) || (Z.of_nat i <? 0)) with false
    by (symmetry; apply orb_false_iff; split; apply Z.ltb_ge; lia).
  rewrite !Nat2Z.id. unfold transpose.
  rewrite (nth_error_nth' _ [] (n := j)) by (now rewrite length_map, length_seq).
  rewrite (nth_indep _ [] (map (fun row => nth 0 row 0) matrix))
    by (now rewrite length_map, length_seq).
  rewrite (map_nth (fun j => map (fun row => nth j row 0) matrix)), seq_nth by exact Hj.
  cbn [Nat.add].
  rewrite (nth_error_nth' _ 0 (n := i)) by (now rewrite length_map).
  f_equal. rewrite (nth_indep _ 0 (nth j [] 0)) by (now rewrite length_map).
  apply (map_nth (fun row => nth j row 0)).
Qed.

End TransposedMatrix.

Section TransposedSpiral.
Import Spiral.

(** The cells of the transposed matrix, read in one direction, are the cells
    of the matrix read in the other. *)
Lemma spiralCells_transpose (cols : nat) (matrix : list (list Z)) (counterClockwise : bool) :
  (forall row, In row matrix -> List.length row = cols) ->
  spiralCells (transpose cols matrix) counterClockwise
  = spiralCells matrix (negb counterClockwise).
Proof.
  intros rect.
  destruct matrix as [|row0 m] eqn:Em.
  { (* no rows: the transposed matrix has [cols] empty rows *)
    unfold transpose. cbn [map spiralCells]. destruct cols as [|c]; [reflexivity|].
    cbn [seq map spiralCells List.length].
    rewrite length_map, length_seq.
    replace (Z.to_nat (Z.of_nat (S c) + Z.of_nat 0)) with (S c) by lia.
    cbn [spiralLoop top bottom left right].
    replace (0 <=? Z.of_nat 0 - 1) with false by reflexivity.
    now rewrite andb_false_r. }
  rewrite <- Em in *.
  assert (Hrows : (0 < List.length matrix)%nat) by (rewrite Em; cbn; lia).
  assert (Hrow0 : List.length row0 = cols) by (apply rect; rewrite Em; now left).
  destruct cols as [|c] eqn:Ec.
  { (* no columns *)
    unfold transpose. cbn [seq map spiralCells]. rewrite Em. cbn [spiralCells].
    rewrite Hrow0.
    destruct (Z.to_nat (Z.of_nat (List.length (row0 :: m)) + Z.of_nat 0)) as [|fuel];
      [reflexivity|].
    cbn [spiralLoop top bottom left right].
    replace (0 <=? Z.of_nat 0 - 1) with false by reflexivity.
    now rewrite andb_false_r. }
  rewrite <- Ec in *.
  assert (Ht : exists t0 tm, transpose cols matrix = t0 :: tm
                             /\ List.length t0 = List.length matrix).
  { pose proof (transpose_length cols matrix) as L.
    destruct (transpose cols matrix) as [|t0 tm] eqn:Et; [cbn in L; lia|].
    exists t0, tm. split; [reflexivity|]. apply (transpose_rect cols matrix). rewrite Et. now left. }
  destruct Ht as [t0 [tm [Et Ht0]]].
  unfold spiralCells at 1. rewrite Et. rewrite <- Et.
  rewrite transpose_length, Ht0.
  unfold spiralCells. rewrite Em. rewrite <- Em. rewrite Hrow0.
  replace (Z.of_nat cols + Z.of_nat (List.length matrix))
    with (Z.of_nat (List.length matrix) + Z.of_nat cols) by lia.
  destruct counterClockwise; cbn [negb].
  - rewrite (spiralLoop_transposed (cell (transpose cols matrix))). cbn [negb].
    unfold transposeBounds. cbn [top bottom left right].
    apply spiralLoop_inside. cbn [top bottom left right]. intros i j Hi Hj.
    replace i with (Z.of_nat (Z.to_nat i)) by lia.
    replace j with (Z.of_nat (Z.to_nat j)) by lia.
    apply (cell_transpose cols matrix rect); lia.
  - rewrite (spiralLoop_transposed (cell matrix)). cbn [negb].
    unfold transposeBounds. cbn [top bottom left right].
    apply spiralLoop_inside. cbn [top bottom left right]. intros i j Hi Hj.
    replace i with (Z.of_nat (Z.to_nat i)) by lia.
    replace j with (Z.of_nat (Z.to_nat j)) by lia.
    apply (cell_transpose cols matrix rect); lia.
Qed.

End TransposedSpiral.

(** X28.  The two directions of [readSpiralMatrix] mirror each other: reading a
    rectangular matrix clockwise is reading its transpose counter-clockwise,
    and the other way round. *)
Theorem readSpiralMatrix_transpose (matrix : list (list Z)) (cols : nat)
  (counterClockwise : bool) :
  (forall row, In row matrix -> List.length row = cols) ->
  Spiral.readSpiralMatrix (transpose cols matrix) counterClockwise
  = Spiral.readSpiralMatrix matrix (negb counterClockwise).
Proof.
  intros Hrect. unfold Spiral.readSpiralMatrix.
  now rewrite (spiralCells_transpose cols matrix counterClockwise Hrect).
Qed.

Lemma readSpiralMatrix_transpose_witness :
  Spiral.readSpiralMatrix (transpose 3 [[1; 2; 3]; [4; 5; 6]]) true
  = Spiral.readSpiralMatrix [[1; 2; 3]; [4; 5; 6]] (negb true).
Proof.
  apply (readSpiralMatrix_transpose [[1; 2; 3]; [4; 5; 6]] 3 true).
  intros row [<- | [<- | []]]; reflexivity.
Defined.

(** ** [xorStrings] in binary format *)

Section XorBinary.
Import Codec.

Lemma byteBits_facts (b : Z) :
  isByte b ->
  List.length (Str.chars (byteBits b)) = 8%nat
  /\ Forall (fun c => Str.is_space c = false) (Str.chars (byteBits b))
  /\ byteOfNumber (parseInt (byteBits b) 2) = b.
Proof.
  intros Hb.
  assert (H : forallb byteBitsCheck allBytes = true) by (vm_compute; reflexivity).
  rewrite forallb_forall in H.
  assert (Hin : In b allBytes).
  { unfold allBytes. unfold isByte in Hb. replace b with (Z.of_nat (Z.to_nat b)) by lia.
    apply in_map, in_seq. lia. }
  specialize (H b Hin). unfold byteBitsCheck in H.
  apply andb_true_iff in H as [H H3]. apply andb_true_iff in H as [H1 H2].
  split; [rewrite chars_length; now apply Nat.eqb_eq|]. split; [|now apply Z.eqb_eq].
  eapply Forall_impl; [|exact (all_chars_Forall _ _ H2)]. cbv beta.
  intros c Hc. now apply negb_true_iff in Hc.
Qed.

Lemma strip_nothing (s : string) :
  Forall (fun c => Str.is_space c = false) (Str.chars s) -> Str.strip Str.is_space s = s.
Proof.
  induction s as [|c s IH]; [reflexivity|].
  change (Str.chars (String c s)) with (c :: Str.chars s). intros H.
  inversion H as [|? ? Hc Hs]; subst. cbn [Str.strip]. now rewrite Hc, IH.
Qed.

(** Stripping the whitespace of clean pieces joined by spaces joins them
    without spaces. *)
Lemma strip_joined (l : list string) :
  Forall (fun s => Forall (fun c => Str.is_space c = false) (Str.chars s)) l ->
  Str.chars (Str.strip Str.is_space (String.concat " " l)) = List.concat (map Str.chars l).
Proof.
  induction 1 as [|x l Hx Hl IH]; [reflexivity|].
  destruct l as [|y l].
  - cbn [String.concat map List.concat]. now rewrite app_nil_r, (strip_nothing x Hx).
  - change (String.concat " " (x :: y :: l))
      with (x ++ String " " (String.concat " " (y :: l)))%string.
    rewrite (strip_app_clean _ _ Hx), chars_append. cbn [Str.strip].
    change (Str.is_space " ") with true. cbv iota. rewrite IH. reflexivity.
Qed.

Lemma blocks_fuel {X} (blocks : list (list X)) :
  Forall (fun g => List.length g = 8%nat) blocks ->
  (List.length blocks <= List.length (List.concat blocks))%nat.
Proof.
  induction 1 as [|g gs Hg Hgs IH]; [cbn; lia|].
  cbn [List.concat List.length]. rewrite length_app. lia.
Qed.

Lemma bufferOfBits_bytes (s : string) : Forall isByte (bufferOfBits s).
Proof.
  unfold bufferOfBits. apply Forall_map, Forall_forall. intros g _.
  unfold byteOfNumber, isByte. destruct (parseInt (string_of_list_ascii g) 2) as [v|]; [|lia].
  apply Z.mod_pos_bound. lia.
Qed.

(** Reading back the bytes [xorStrings] wrote in binary format. *)
Lemma bufferOfBits_written (bytes : list Z) :
  Forall isByte bytes ->
  bufferOfBits (String.concat " " (map byteBits bytes)) = bytes.
Proof.
  intros Hb. unfold bufferOfBits, groupsOf8, Bytes.chunks.
  assert (Hclean : Forall (fun s => Forall (fun c => Str.is_space c = false) (Str.chars s))
                          (map byteBits bytes)).
  { apply Forall_map. eapply Forall_impl; [|exact Hb]. cbv beta. intros b Hbyte.
    now destruct (byteBits_facts b Hbyte) as [_ [H _]]. }
  rewrite (strip_joined _ Hclean), map_map.
  assert (Hblocks : Forall (fun g => List.length g = 8%nat)
                           (map (fun b => Str.chars (byteBits b)) bytes)).
  { apply Forall_map. eapply Forall_impl; [|exact Hb]. cbv beta. intros b Hbyte.
    now destruct (byteBits_facts b Hbyte) as [H _]. }
  rewrite (chunks_of_blocks 8 _ ltac:(lia) Hblocks).
  2:{ apply blocks_fuel, Hblocks. }
  clear Hclean Hblocks. induction Hb as [|b bs Hbyte Hbs IH]; [reflexivity|].
  destruct (byteBits_facts b Hbyte) as [Hl [_ Hv]].
  cbn [map filter]. rewrite Hl. cbn [Nat.eqb map].
  rewrite of_chars, Hv. f_equal. exact IH.
Qed.

End XorBinary.

(** X29.  In binary format too, XOR with the same key twice gives the first
    operand back, when the key has no more bytes than it: the result is the
    operand's bytes, eight bits each, separated by spaces, which is the
    operand itself when it is written that way. *)
Theorem xorStrings_binary_twice (a b : string) :
  (List.length (Codec.bufferOfBits b) <= List.length (Codec.bufferOfBits a))%nat ->
  Codec.xorStrings (Codec.xorStrings a b Codec.FormatBinary) b Codec.FormatBinary
  = String.concat " " (map byteBits (Codec.bufferOfBits a))
  /\ (forall bytes, Forall isByte bytes -> a = String.concat " " (map byteBits bytes) ->
      Codec.xorStrings (Codec.xorStrings a b Codec.FormatBinary) b Codec.FormatBinary = a).
Proof.
  intros Hl.
  assert (H : Codec.xorStrings (Codec.xorStrings a b Codec.FormatBinary) b Codec.FormatBinary
              = String.concat " " (map byteBits (Codec.bufferOfBits a))).
  { unfold Codec.xorStrings. cbv zeta.
    change (fun b0 : Z => Str.padStart 8 "0" (Codec.toString2 b0)) with byteBits.
    rewrite bufferOfBits_written
      by (apply xorBuffers_bytes; apply bufferOfBits_bytes).
    now rewrite xorBuffers_twice. }
  split; [exact H|]. intros bytes Hb Ha. rewrite H. rewrite Ha at 1.
  now rewrite (bufferOfBits_written bytes Hb).
Qed.

Lemma xorStrings_binary_twice_witness :
  Codec.xorStrings (Codec.xorStrings "01001000 01101001" "11110000" Codec.FormatBinary)
    "11110000" Codec.FormatBinary
  = String.concat " " (map byteBits (Codec.bufferOfBits "01001000 01101001")).
Proof.
  apply (xorStrings_binary_twice "01001000 01101001" "11110000"). vm_compute. lia.
Defined.
